(** * SecureNotes: the encrypted-note persistence pipeline

    A shallow embedding of the TypeScript services of the SecureNotes
    application (EncryptionService, DatabaseService, NotePresenter) and
    the properties of the pipeline that the specification states.

    Conventions of the embedding.
    - A JavaScript string is the list of its UTF-16 code units.
    - An [async] method is a computation in a state-and-exception monad:
      awaiting is sequencing, a rejected promise is a thrown value, and a
      [try]/[catch] keeps the state changes made before the throw. Calls
      run one after the other; interleavings of pending calls are not
      modelled.
    - Numbers (ids, timestamps) are integers.
    - The platform collaborators (keychain, key-value storage, SQLite
      file, random source, clock) are components of the state; the AES
      primitive, which the repository only calls, is an interface whose
      implementation is a parameter.
    - [console.log], [console.warn] and [console.error] have no effect on
      any value computed by the services and are left out. *)

From Stdlib Require Import ZArith List String Ascii Lia Bool.
From stdpp Require Import gmap strings list sorting.
Local Open Scope Z_scope.

(* ================================================================= *)
(** ** JavaScript values *)

(** A string, as the sequence of its UTF-16 code units. *)
Definition jsstring : Type := list Z.

(** An ASCII literal of the source as a JavaScript string. *)
Definition js (s : string) : jsstring :=
  map (fun a => Z.of_N (N_of_ascii a)) (list_ascii_of_string s).

(** [s.length] *)
Definition js_length (s : jsstring) : Z := Z.of_nat (length s).

(** Truthiness of a string ([!iv] is [negb (truthy_string iv)]) and of a
    number ([if (note.id)], [a || b]). *)
Definition truthy_string (s : jsstring) : bool :=
  match s with [] => false | _ :: _ => true end.

Definition truthy_number (n : Z) : bool := negb (n =? 0).

(** A code unit that fits one byte (a Latin-1 character). *)
Definition is_byte (c : Z) : Prop := 0 <= c < 256.

(** A thrown value: an [Error] object with its message, or some other
    value a native collaborator rejected with (rendered by [String]). *)
Inductive thrown : Type :=
| JsError (message : string)
| Rejected (reason : string).

(** [error instanceof Error] *)
Definition instanceof_Error (e : thrown) : bool :=
  match e with JsError _ => true | Rejected _ => false end.

(** [String(error)] for a value that is not an [Error]. *)
Definition String_of_thrown (e : thrown) : string :=
  match e with JsError m => m | Rejected r => r end.

Inductive result (A : Type) : Type :=
| Ok (a : A)
| Err (e : thrown).
Arguments Ok {A} a.
Arguments Err {A} e.

Definition is_Ok {A} (r : result A) : bool :=
  match r with Ok _ => true | Err _ => false end.

(* ================================================================= *)
(** ** The monad of asynchronous, throwing, stateful code *)

Definition M (S A : Type) : Type := S -> result A * S.

Definition ret {S A} (a : A) : M S A := fun s => (Ok a, s).

Definition throw {S A} (e : thrown) : M S A := fun s => (Err e, s).

Definition bind {S A B} (m : M S A) (k : A -> M S B) : M S B :=
  fun s =>
    match m s with
    | (Ok a, s') => k a s'
    | (Err e, s') => (Err e, s')
    end.

(** [try { body } catch (error) { handler }] *)
Definition try_catch {S A} (body : M S A) (handler : thrown -> M S A) : M S A :=
  fun s =>
    match body s with
    | (Ok a, s') => (Ok a, s')
    | (Err e, s') => handler e s'
    end.

(** A call to a pure collaborator that may reject. *)
Definition call {S A} (r : result A) : M S A := fun s => (r, s).

(** Running a computation of a component of the state. *)
Definition zoom {S T A} (get : S -> T) (set : T -> S -> S) (m : M T A) : M S A :=
  fun s => let (r, t) := m (get s) in (r, set t s).

Declare Scope js_scope.
Delimit Scope js_scope with js.
Notation "x <- m ;; k" := (bind m (fun x => k))
  (at level 100, m at next level, right associativity) : js_scope.
Notation "m ;;; k" := (bind m (fun _ => k))
  (at level 100, right associativity) : js_scope.
Notation "'try' b 'catch' h" := (try_catch b h)
  (at level 100, b at next level, h at next level) : js_scope.
Local Open Scope js_scope.

(* ================================================================= *)
(** ** Platform state used by the encryption service *)

(** The random source: an unbounded tape of draws and a read position. *)
Record Rng : Type := { draws : nat -> Z; cursor : nat }.

(** A keychain entry, [{ username, password }]. *)
Record Credentials : Type := { username : jsstring; password : jsstring }.

Record CryptoWorld : Type := {
  keychain_available : bool;               (* secure storage reachable *)
  keychain : gmap string Credentials;      (* service -> entry *)
  async_storage : gmap string jsstring;    (* AsyncStorage items *)
  rng : Rng
}.

Definition set_keychain (k : gmap string Credentials) (w : CryptoWorld) : CryptoWorld :=
  {| keychain_available := keychain_available w; keychain := k;
     async_storage := async_storage w; rng := rng w |}.

Definition set_async_storage (a : gmap string jsstring) (w : CryptoWorld) : CryptoWorld :=
  {| keychain_available := keychain_available w; keychain := keychain w;
     async_storage := a; rng := rng w |}.

Definition set_rng (r : Rng) (w : CryptoWorld) : CryptoWorld :=
  {| keychain_available := keychain_available w; keychain := keychain w;
     async_storage := async_storage w; rng := r |}.

(** *** react-native-keychain *)

Definition keychain_guard {A} (m : M CryptoWorld A) : M CryptoWorld A :=
  fun w =>
    if keychain_available w then m w
    else (Err (Rejected "secure storage is unavailable"), w).

(** [Keychain.getGenericPassword({ service })]: the entry, or [false]
    (here [None]) when there is none. *)
Definition Keychain_getGenericPassword (service : string)
  : M CryptoWorld (option Credentials) :=
  keychain_guard (fun w => (Ok (keychain w !! service), w)).

(** [Keychain.setGenericPassword(username, password, { service })] *)
Definition Keychain_setGenericPassword (user pass : jsstring) (service : string)
  : M CryptoWorld unit :=
  keychain_guard (fun w =>
    (Ok tt, set_keychain (<[service := {| username := user; password := pass |}]> (keychain w)) w)).

(** [Keychain.resetGenericPassword({ service })] *)
Definition Keychain_resetGenericPassword (service : string) : M CryptoWorld unit :=
  keychain_guard (fun w => (Ok tt, set_keychain (delete service (keychain w)) w)).

(** *** AsyncStorage *)

Definition AsyncStorage_getItem (key : string) : M CryptoWorld (option jsstring) :=
  fun w => (Ok (async_storage w !! key), w).

Definition AsyncStorage_setItem (key : string) (value : jsstring) : M CryptoWorld unit :=
  fun w => (Ok tt, set_async_storage (<[key := value]> (async_storage w)) w).

Definition AsyncStorage_removeItem (key : string) : M CryptoWorld unit :=
  fun w => (Ok tt, set_async_storage (delete key (async_storage w)) w).

(** *** react-native-aes-crypto

    The JavaScript wrapper of the native AES module, as the first and
    third revisions of the service import it. Every call may reject. *)
Class AesLib : Type := {
  Aes_randomKey : Z -> Rng -> result jsstring * Rng;
  Aes_pbkdf2 : jsstring -> jsstring -> Z -> Z -> jsstring -> result jsstring;
  Aes_encrypt : jsstring -> jsstring -> jsstring -> jsstring -> result jsstring;
  Aes_decrypt : jsstring -> jsstring -> jsstring -> jsstring -> result jsstring
}.

(** The result of [encrypt]: [{ encrypted, iv }]. *)
Record Encrypted : Type := { encrypted : jsstring; iv : jsstring }.

(* ================================================================= *)
(** ** EncryptionService, first revision (part_002, lines 1-70) *)

Module EncryptionService1.
Section Service.
Context {aes : AesLib}.

Definition KEYCHAIN_SERVICE : string := "com.securenotes.encryption".
Definition KEYCHAIN_USERNAME : jsstring := js "SecureNotesApp".
Definition ENCRYPTION_KEY_SIZE : Z := 256.
Definition SALT : jsstring := js "SecureNotesAppSalt".

Definition getEncryptionKey : M CryptoWorld jsstring :=
  try (
    credentials <- Keychain_getGenericPassword KEYCHAIN_SERVICE ;;
    match credentials with
    | Some c => ret (password c)
    | None =>
        randomBytes <- zoom rng set_rng (Aes_randomKey (ENCRYPTION_KEY_SIZE / 8)) ;;
        key <- call (Aes_pbkdf2 randomBytes SALT 10000 (ENCRYPTION_KEY_SIZE / 8) (js "sha512")) ;;
        Keychain_setGenericPassword KEYCHAIN_USERNAME key KEYCHAIN_SERVICE ;;;
        ret key
    end
  ) catch (fun _ => throw (JsError "Failed to secure the encryption key")).

Definition encrypt (data : jsstring) : M CryptoWorld Encrypted :=
  try (
    key <- getEncryptionKey ;;
    iv <- zoom rng set_rng (Aes_randomKey 16) ;;
    encrypted <- call (Aes_encrypt data key iv (js "aes-256-cbc")) ;;
    ret {| encrypted := encrypted; iv := iv |}
  ) catch (fun _ => throw (JsError "Failed to encrypt data")).

Definition decrypt (encrypted iv : jsstring) : M CryptoWorld jsstring :=
  try (
    key <- getEncryptionKey ;;
    decrypted <- call (Aes_decrypt encrypted key iv (js "aes-256-cbc")) ;;
    ret decrypted
  ) catch (fun _ => throw (JsError "Failed to decrypt data")).

End Service.
End EncryptionService1.

(* ================================================================= *)
(** ** Built-ins of the JavaScript runtime used by the second revision *)

(** [String.fromCharCode(n)] keeps the low 16 bits. *)
Definition String_fromCharCode (n : Z) : Z := n mod 65536.

(** [s.charCodeAt(i)]; out of range JavaScript gives NaN, which [^]
    reads as 0. *)
Definition charCodeAt (s : jsstring) (i : nat) : Z := default 0 (s !! i).

Definition hex_digit_lower (d : Z) : Z := if d <? 10 then 48 + d else 87 + d.
Definition hex_digit_upper (d : Z) : Z := if d <? 10 then 48 + d else 55 + d.

Fixpoint hex_digits_rev (fuel : nat) (n : Z) : list Z :=
  match fuel with
  | O => []
  | S fuel' =>
      if n <? 16 then [n] else (n mod 16) :: hex_digits_rev fuel' (n / 16)
  end.

(** [n.toString(16)] for a non-negative integer. *)
Definition Number_toString16 (n : Z) : jsstring :=
  map hex_digit_lower (rev (hex_digits_rev (S (Z.to_nat (Z.log2 n))) n)).

(** [s.padStart(targetLength, padString)] *)
Definition String_padStart (target : Z) (pad s : jsstring) : jsstring :=
  let missing := Z.to_nat (target - js_length s) in
  match pad with
  | [] => s
  | _ :: _ => take missing (concat (replicate missing pad)) ++ s
  end.

(** [parts.join('')] *)
Definition Array_join_empty (parts : list jsstring) : jsstring := concat parts.

(** [Math.floor(Math.random() * n)]: the next draw of the random source,
    reduced to the range [0, n). *)
Definition Math_floor_random_times (n : Z) : M CryptoWorld Z :=
  fun w =>
    let r := rng w in
    (Ok (draws r (cursor r) mod n),
     set_rng {| draws := draws r; cursor := S (cursor r) |} w).

(** *** Base64: [btoa] and [atob] *)

Definition base64_char (i : Z) : Z :=
  if i <? 26 then 65 + i
  else if i <? 52 then 97 + (i - 26)
  else if i <? 62 then 48 + (i - 52)
  else if i =? 62 then 43 else 47.

Definition base64_index (c : Z) : option Z :=
  if (65 <=? c) && (c <=? 90) then Some (c - 65)
  else if (97 <=? c) && (c <=? 122) then Some (c - 97 + 26)
  else if (48 <=? c) && (c <=? 57) then Some (c - 48 + 52)
  else if c =? 43 then Some 62
  else if c =? 47 then Some 63
  else None.

Fixpoint base64_encode (bytes : list Z) : jsstring :=
  match bytes with
  | [] => []
  | [a] =>
      [base64_char (Z.shiftr a 2); base64_char (Z.shiftl (Z.land a 3) 4); 61; 61]
  | [a; b] =>
      [base64_char (Z.shiftr a 2);
       base64_char (Z.lor (Z.shiftl (Z.land a 3) 4) (Z.shiftr b 4));
       base64_char (Z.shiftl (Z.land b 15) 2); 61]
  | a :: b :: c :: rest =>
      base64_char (Z.shiftr a 2)
      :: base64_char (Z.lor (Z.shiftl (Z.land a 3) 4) (Z.shiftr b 4))
      :: base64_char (Z.lor (Z.shiftl (Z.land b 15) 2) (Z.shiftr c 6))
      :: base64_char (Z.land c 63)
      :: base64_encode rest
  end.

(** [btoa(s)]: throws when a code unit is above 255. *)
Definition btoa (s : jsstring) : result jsstring :=
  if forallb (fun c => c <=? 255) s then Ok (base64_encode s)
  else Err (JsError "InvalidCharacterError").

Fixpoint base64_decode (sextets : list Z) : list Z :=
  match sextets with
  | a :: b :: c :: d :: rest =>
      Z.lor (Z.shiftl a 2) (Z.shiftr b 4)
      :: Z.lor (Z.shiftl (Z.land b 15) 4) (Z.shiftr c 2)
      :: Z.lor (Z.shiftl (Z.land c 3) 6) d
      :: base64_decode rest
  | [a; b; c] =>
      [Z.lor (Z.shiftl a 2) (Z.shiftr b 4);
       Z.lor (Z.shiftl (Z.land b 15) 4) (Z.shiftr c 2)]
  | [a; b] => [Z.lor (Z.shiftl a 2) (Z.shiftr b 4)]
  | _ => []
  end.

Definition is_ascii_whitespace (c : Z) : bool :=
  (c =? 9) || (c =? 10) || (c =? 12) || (c =? 13) || (c =? 32).

(** Removal of at most two trailing [=] signs, when the length is a
    multiple of four. *)
Definition strip_base64_padding (s : jsstring) : jsstring :=
  if (length s mod 4 =? 0)%nat then
    match rev s with
    | 61 :: 61 :: r => rev r
    | 61 :: r => rev r
    | _ => s
    end
  else s.

(** [atob(s)], the forgiving Base64 decoder. *)
Definition atob (s : jsstring) : result jsstring :=
  let s1 := strip_base64_padding (filter (fun c => is_ascii_whitespace c = false) s) in
  if (length s1 mod 4 =? 1)%nat then Err (JsError "InvalidCharacterError")
  else
    match mapM base64_index s1 with
    | Some sextets => Ok (base64_decode sextets)
    | None => Err (JsError "InvalidCharacterError")
    end.

(** *** [encodeURIComponent] and [decodeURIComponent] *)

Definition is_high_surrogate (c : Z) : bool := (55296 <=? c) && (c <=? 56319).
Definition is_low_surrogate (c : Z) : bool := (56320 <=? c) && (c <=? 57343).

(** The characters [encodeURIComponent] leaves as they are:
    letters, digits and [- _ . ! ~ * ' ( )]. *)
Definition uri_unreserved (c : Z) : bool :=
  ((65 <=? c) && (c <=? 90)) || ((97 <=? c) && (c <=? 122))
  || ((48 <=? c) && (c <=? 57))
  || (c =? 45) || (c =? 95) || (c =? 46) || (c =? 33) || (c =? 126)
  || (c =? 42) || (c =? 39) || (c =? 40) || (c =? 41).

Definition utf8_encode (cp : Z) : list Z :=
  if cp <? 128 then [cp]
  else if cp <? 2048 then [192 + cp / 64; 128 + cp mod 64]
  else if cp <? 65536 then
    [224 + cp / 4096; 128 + (cp / 64) mod 64; 128 + cp mod 64]
  else
    [240 + cp / 262144; 128 + (cp / 4096) mod 64;
     128 + (cp / 64) mod 64; 128 + cp mod 64].

Definition percent_byte (b : Z) : jsstring :=
  [37; hex_digit_upper (b / 16); hex_digit_upper (b mod 16)].

Definition uri_escape (cp : Z) : jsstring :=
  if uri_unreserved cp then [cp] else concat (map percent_byte (utf8_encode cp)).

Fixpoint encodeURIComponent (s : jsstring) : result jsstring :=
  match s with
  | [] => Ok []
  | c :: rest =>
      if is_low_surrogate c then Err (JsError "URIError")
      else if is_high_surrogate c then
        match rest with
        | d :: rest' =>
            if is_low_surrogate d then
              match encodeURIComponent rest' with
              | Ok out =>
                  Ok (uri_escape ((c - 55296) * 1024 + (d - 56320) + 65536) ++ out)
              | Err e => Err e
              end
            else Err (JsError "URIError")
        | [] => Err (JsError "URIError")
        end
      else
        match encodeURIComponent rest with
        | Ok out => Ok (uri_escape c ++ out)
        | Err e => Err e
        end
  end.

Definition hex_value (c : Z) : option Z :=
  if (48 <=? c) && (c <=? 57) then Some (c - 48)
  else if (65 <=? c) && (c <=? 70) then Some (c - 55)
  else if (97 <=? c) && (c <=? 102) then Some (c - 87)
  else None.

(** One [%XX] escape at the head of the string. *)
Definition read_percent_byte (s : jsstring) : option (Z * jsstring) :=
  match s with
  | 37 :: h :: l :: rest =>
      match hex_value h, hex_value l with
      | Some hv, Some lv => Some (hv * 16 + lv, rest)
      | _, _ => None
      end
  | _ => None
  end.

(** [n] continuation bytes, each a [%XX] escape of the form 10xxxxxx,
    accumulated into the code point. *)
Fixpoint read_continuation (n : nat) (acc : Z) (s : jsstring) : option (Z * jsstring) :=
  match n with
  | O => Some (acc, s)
  | S n' =>
      match read_percent_byte s with
      | Some (b, rest) =>
          if (128 <=? b) && (b <=? 191)
          then read_continuation n' (acc * 64 + (b - 128)) rest
          else None
      | None => None
      end
  end.

Definition utf16_encode (cp : Z) : jsstring :=
  if cp <? 65536 then [cp]
  else [55296 + (cp - 65536) / 1024; 56320 + (cp - 65536) mod 1024].

Fixpoint decodeURIComponent_aux (fuel : nat) (s : jsstring) : result jsstring :=
  match fuel with
  | O => Ok []
  | S fuel' =>
      match s with
      | [] => Ok []
      | c :: rest =>
          if c =? 37 then
            match read_percent_byte s with
            | None => Err (JsError "URIError")
            | Some (b, after) =>
                let decoded :=
                  if b <? 128 then Some (b, after, 0)
                  else if (194 <=? b) && (b <=? 223) then
                    option_map (fun r => (fst r, snd r, 128)) (read_continuation 1 (b - 192) after)
                  else if (224 <=? b) && (b <=? 239) then
                    option_map (fun r => (fst r, snd r, 2048)) (read_continuation 2 (b - 224) after)
                  else if (240 <=? b) && (b <=? 244) then
                    option_map (fun r => (fst r, snd r, 65536)) (read_continuation 3 (b - 240) after)
                  else None in
                match decoded with
                | Some (cp, after', least) =>
                    if (cp <? least) || (1114111 <? cp)
                       || ((55296 <=? cp) && (cp <=? 57343))
                    then Err (JsError "URIError")
                    else
                      match decodeURIComponent_aux fuel' after' with
                      | Ok out => Ok (utf16_encode cp ++ out)
                      | Err e => Err e
                      end
                | None => Err (JsError "URIError")
                end
            end
          else
            match decodeURIComponent_aux fuel' rest with
            | Ok out => Ok (c :: out)
            | Err e => Err e
            end
      end
  end.

Definition decodeURIComponent (s : jsstring) : result jsstring :=
  decodeURIComponent_aux (length s) s.

(* ================================================================= *)
(** ** EncryptionService, second revision (part_002, lines 72-297)

    This revision reaches the cipher through [NativeModules.RNAes],
    which may be undefined or lack a method, and tests for each method
    before it calls it. *)

Record RNAes : Type := {
  RNAes_pbkdf2 : option (jsstring -> jsstring -> Z -> Z -> jsstring -> result jsstring);
  RNAes_encrypt : option (jsstring -> jsstring -> jsstring -> jsstring -> result jsstring);
  RNAes_decrypt : option (jsstring -> jsstring -> jsstring -> jsstring -> result jsstring)
}.

Module EncryptionService2.
Section Service.
(** [const Aes = NativeModules.RNAes] *)
Variable Aes : option RNAes.

(** [Aes && typeof Aes.f === 'function'], giving the function. *)
Definition native_function {F} (f : RNAes -> option F) : option F :=
  match Aes with
  | Some module => f module
  | None => None
  end.

Definition KEYCHAIN_SERVICE : string := "com.securenotes.encryption".
Definition KEYCHAIN_USERNAME : jsstring := js "SecureNotesApp".
Definition SALT_KEY : string := "SECURE_NOTES_SALT".
Definition IV_SIZE : Z := 16.
Definition KEY_SIZE : Z := 32.

(** The loop
    [for (i = 0; i < n; i++)
       randomBytes.push(Math.floor(Math.random() * 256).toString(16).padStart(2, '0'))]
    with [n] iterations left. *)
Fixpoint push_random_bytes (n : nat) (randomBytes : list jsstring)
  : M CryptoWorld (list jsstring) :=
  match n with
  | O => ret randomBytes
  | S n' =>
      r <- Math_floor_random_times 256 ;;
      push_random_bytes n'
        (randomBytes ++ [String_padStart 2 (js "0") (Number_toString16 r)])
  end.

Definition getSalt : M CryptoWorld jsstring :=
  try (
    storedSalt <- AsyncStorage_getItem SALT_KEY ;;
    let generate :=
      (randomBytes <- push_random_bytes 16 [] ;;
       let salt := Array_join_empty randomBytes in
       AsyncStorage_setItem SALT_KEY salt ;;;
       ret salt) in
    match storedSalt with
    | Some stored => if truthy_string stored then ret stored else generate
    | None => generate
    end
  ) catch (fun _ => throw (JsError "Failed to secure salt for encryption")).

Definition getEncryptionKey : M CryptoWorld jsstring :=
  try (
    credentials <- Keychain_getGenericPassword KEYCHAIN_SERVICE ;;
    match credentials with
    | Some c => ret (password c)
    | None =>
        salt <- getSalt ;;
        randomBytes <- push_random_bytes (Z.to_nat KEY_SIZE) [] ;;
        let randomKey := Array_join_empty randomBytes in
        key <- match native_function RNAes_pbkdf2 with
               | Some pbkdf2 => call (pbkdf2 randomKey salt 10000 KEY_SIZE (js "sha512"))
               | None => ret randomKey
               end ;;
        Keychain_setGenericPassword KEYCHAIN_USERNAME key KEYCHAIN_SERVICE ;;;
        ret key
    end
  ) catch (fun _ => throw (JsError "Failed to secure the encryption key")).

(** The loop shared by the two fallback functions:
    [result += String.fromCharCode(data.charCodeAt(i) ^ key.charCodeAt(i % key.length))]. *)
Definition xor_with_key (key data : jsstring) : jsstring :=
  imap (fun i c =>
          String_fromCharCode (Z.lxor c (charCodeAt key (i mod length key)%nat)))
       data.

Definition simpleFallbackEncrypt (data : jsstring) : result jsstring :=
  let key := js "SecureNotesDevKey" in
  let result := xor_with_key key data in
  match btoa result with
  | Ok b => Ok b
  | Err _ =>
      match encodeURIComponent result with
      | Ok u => btoa u
      | Err e => Err e
      end
  end.

(** The outer [catch] returns the input unchanged. *)
Definition simpleFallbackDecrypt (encrypted : jsstring) : jsstring :=
  let decoded :=
    match atob encrypted with
    | Ok data => Ok data
    | Err _ =>
        match atob encrypted with
        | Ok a => decodeURIComponent a
        | Err e => Err e
        end
    end in
  match decoded with
  | Ok data => xor_with_key (js "SecureNotesDevKey") data
  | Err _ => encrypted
  end.

Definition encrypt (data : jsstring) : M CryptoWorld Encrypted :=
  try (
    key <- getEncryptionKey ;;
    ivBytes <- push_random_bytes (Z.to_nat IV_SIZE) [] ;;
    let iv := Array_join_empty ivBytes in
    encrypted <- match native_function RNAes_encrypt with
                 | Some aes_encrypt => call (aes_encrypt data key iv (js "aes-256-cbc"))
                 | None => call (simpleFallbackEncrypt data)
                 end ;;
    ret {| encrypted := encrypted; iv := iv |}
  ) catch (fun _ => throw (JsError "Failed to encrypt data")).

Definition decrypt (encrypted iv : jsstring) : M CryptoWorld jsstring :=
  try (
    key <- getEncryptionKey ;;
    (if negb (truthy_string iv) || negb (js_length iv =? IV_SIZE * 2)
     then throw (JsError "Invalid initialization vector")
     else ret tt) ;;;
    decrypted <- match native_function RNAes_decrypt with
                 | Some aes_decrypt => call (aes_decrypt encrypted key iv (js "aes-256-cbc"))
                 | None => ret (simpleFallbackDecrypt encrypted)
                 end ;;
    ret decrypted
  ) catch (fun _ => throw (JsError "Failed to decrypt data")).

Definition resetEncryptionKey : M CryptoWorld unit :=
  try (
    Keychain_resetGenericPassword KEYCHAIN_SERVICE ;;;
    AsyncStorage_removeItem SALT_KEY
  ) catch (fun _ => throw (JsError "Failed to reset encryption keys")).

End Service.
End EncryptionService2.

(* ================================================================= *)
(** ** EncryptionService, third revision (part_002, lines 299-395) *)

Module EncryptionService3.
Section Service.
Context {aes : AesLib}.

Definition KEYCHAIN_SERVICE : string := "com.securenotes.encryption".
Definition KEYCHAIN_USERNAME : jsstring := js "SecureNotesApp".
Definition SALT : jsstring := js "SecureNotesAppSalt".
Definition KEY_BYTE_SIZE : Z := 32.

Definition getEncryptionKey : M CryptoWorld jsstring :=
  try (
    credentials <- Keychain_getGenericPassword KEYCHAIN_SERVICE ;;
    match credentials with
    | Some c => ret (password c)
    | None =>
        randomBytes <- zoom rng set_rng (Aes_randomKey KEY_BYTE_SIZE) ;;
        key <- call (Aes_pbkdf2 randomBytes SALT 10000 KEY_BYTE_SIZE (js "sha512")) ;;
        Keychain_setGenericPassword KEYCHAIN_USERNAME key KEYCHAIN_SERVICE ;;;
        ret key
    end
  ) catch (fun _ => throw (JsError "Failed to secure the encryption key")).

Definition encrypt (data : jsstring) : M CryptoWorld Encrypted :=
  try (
    key <- getEncryptionKey ;;
    iv <- zoom rng set_rng (Aes_randomKey 16) ;;
    encrypted <- call (Aes_encrypt data key iv (js "aes-256-cbc")) ;;
    ret {| encrypted := encrypted; iv := iv |}
  ) catch (fun _ => throw (JsError "Failed to encrypt data")).

Definition decrypt (encrypted iv : jsstring) : M CryptoWorld jsstring :=
  try (
    key <- getEncryptionKey ;;
    (if negb (truthy_string iv) || (js_length iv <? 16)
     then throw (JsError "Invalid IV for decryption")
     else ret tt) ;;;
    decrypted <- call (Aes_decrypt encrypted key iv (js "aes-256-cbc")) ;;
    ret decrypted
  ) catch (fun _ => throw (JsError "Failed to decrypt data")).

Definition resetEncryptionKey : M CryptoWorld unit :=
  try (
    Keychain_resetGenericPassword KEYCHAIN_SERVICE
  ) catch (fun _ => throw (JsError "Failed to reset encryption key")).

End Service.
End EncryptionService3.

(* ================================================================= *)
(** ** The interface DatabaseService imports

    [import EncryptionService from './EncryptionService'] binds one of
    the revisions above; the database service only calls its [encrypt]
    and [decrypt]. *)

Module EncryptionService.
Class API : Type := {
  encrypt : jsstring -> M CryptoWorld Encrypted;
  decrypt : jsstring -> jsstring -> M CryptoWorld jsstring
}.
End EncryptionService.

Definition service1 (aes : AesLib) : EncryptionService.API :=
  {| EncryptionService.encrypt := EncryptionService1.encrypt;
     EncryptionService.decrypt := EncryptionService1.decrypt |}.

Definition service2 (Aes : option RNAes) : EncryptionService.API :=
  {| EncryptionService.encrypt := EncryptionService2.encrypt Aes;
     EncryptionService.decrypt := EncryptionService2.decrypt Aes |}.

Definition service3 (aes : AesLib) : EncryptionService.API :=
  {| EncryptionService.encrypt := EncryptionService3.encrypt;
     EncryptionService.decrypt := EncryptionService3.decrypt |}.

(* ================================================================= *)
(** ** The SQLite table *)

(** A row of table [notes]. *)
Record Row : Type := {
  col_id : Z;
  col_titleEncrypted : jsstring;
  col_titleIv : jsstring;
  col_contentEncrypted : jsstring;
  col_contentIv : jsstring;
  col_createdAt : Z;
  col_updatedAt : Z
}.

(** The table with its AUTOINCREMENT counter (the largest id ever
    assigned, kept by SQLite in [sqlite_sequence]). *)
Record Table : Type := { rows : list Row; sqlite_sequence : Z }.

Definition empty_table : Table := {| rows := []; sqlite_sequence := 0 |}.

Definition max_rowid (rs : list Row) : Z :=
  foldr (fun r m => Z.max (col_id r) m) 0 rs.

(** The id AUTOINCREMENT assigns: one more than the largest id that
    ever existed in the table. *)
Definition next_rowid (t : Table) : Z :=
  Z.max (sqlite_sequence t) (max_rowid (rows t)) + 1.

(** [INSERT INTO notes (titleEncrypted, titleIv, contentEncrypted,
    contentIv, createdAt, updatedAt) VALUES (?, ?, ?, ?, ?, ?)] *)
Definition table_insert (te ti ce ci : jsstring) (created updated : Z) (t : Table)
  : Z * Table :=
  let new_id := next_rowid t in
  (new_id,
   {| rows := rows t ++ [{| col_id := new_id;
                            col_titleEncrypted := te; col_titleIv := ti;
                            col_contentEncrypted := ce; col_contentIv := ci;
                            col_createdAt := created; col_updatedAt := updated |}];
      sqlite_sequence := new_id |}).

(** [UPDATE notes SET titleEncrypted = ?, titleIv = ?, contentEncrypted = ?,
    contentIv = ?, updatedAt = ? WHERE id = ?] *)
Definition update_row (te ti ce ci : jsstring) (updated id : Z) (r : Row) : Row :=
  if col_id r =? id then
    {| col_id := col_id r;
       col_titleEncrypted := te; col_titleIv := ti;
       col_contentEncrypted := ce; col_contentIv := ci;
       col_createdAt := col_createdAt r; col_updatedAt := updated |}
  else r.

Definition table_update (te ti ce ci : jsstring) (updated id : Z) (t : Table) : Table :=
  {| rows := map (update_row te ti ce ci updated id) (rows t);
     sqlite_sequence := sqlite_sequence t |}.

(** [SELECT * FROM notes WHERE id = ?] *)
Definition table_select_by_id (id : Z) (t : Table) : list Row :=
  filter (fun r => col_id r = id) (rows t).

(** The order of [ORDER BY updatedAt DESC]. *)
Definition updated_not_before (a b : Row) : Prop := col_updatedAt b <= col_updatedAt a.

#[global] Instance updated_not_before_dec a b : Decision (updated_not_before a b) :=
  Z_le_dec (col_updatedAt b) (col_updatedAt a).

(** [SELECT * FROM notes ORDER BY updatedAt DESC] *)
Definition table_select_all_ordered (t : Table) : list Row :=
  merge_sort updated_not_before (rows t).

(** [DELETE FROM notes WHERE id = ?] *)
Definition table_delete (id : Z) (t : Table) : Table :=
  {| rows := filter (fun r => col_id r <> id) (rows t);
     sqlite_sequence := sqlite_sequence t |}.

(* ================================================================= *)
(** ** DatabaseService (src/services/DatabaseService.ts) *)

Record Note : Type := {
  id : option Z;
  title : jsstring;
  content : jsstring;
  createdAt : option Z;
  updatedAt : option Z
}.

Record EncryptedNote : Type := {
  enc_id : option Z;
  titleEncrypted : jsstring;
  titleIv : jsstring;
  contentEncrypted : jsstring;
  contentIv : jsstring;
  enc_createdAt : Z;
  enc_updatedAt : Z
}.

(** [results.rows.item(i) as EncryptedNote] *)
Definition as_EncryptedNote (r : Row) : EncryptedNote :=
  {| enc_id := Some (col_id r);
     titleEncrypted := col_titleEncrypted r; titleIv := col_titleIv r;
     contentEncrypted := col_contentEncrypted r; contentIv := col_contentIv r;
     enc_createdAt := col_createdAt r; enc_updatedAt := col_updatedAt r |}.

(** The database side of the state: the service's [database] field
    (is a connection held?), the table in the database file, if it was
    created, and whether the file can be opened. *)
Record DbWorld : Type := {
  database : bool;
  table : option Table;
  openable : bool
}.

Record World : Type := {
  crypto : CryptoWorld;
  db : DbWorld;
  now : Z                       (* the reading of the clock *)
}.

Definition set_crypto (c : CryptoWorld) (w : World) : World :=
  {| crypto := c; db := db w; now := now w |}.

Definition set_db (d : DbWorld) (w : World) : World :=
  {| crypto := crypto w; db := d; now := now w |}.

Definition set_database (b : bool) (d : DbWorld) : DbWorld :=
  {| database := b; table := table d; openable := openable d |}.

Definition set_table (t : option Table) (d : DbWorld) : DbWorld :=
  {| database := database d; table := t; openable := openable d |}.

(** [Date.now()] *)
Definition Date_now : M World Z := fun w => (Ok (now w), w).

(** [SQLite.openDatabase(...)] *)
Definition SQLite_openDatabase : M DbWorld unit :=
  fun d =>
    if openable d then (Ok tt, d)
    else (Err (Rejected "unable to open database file"), d).

(** [executeSql] of a statement on table [notes]: rejected when the
    table does not exist, the one rejection of a statement that is
    modelled. *)
Definition executeSql {A} (statement : Table -> A * Table) : M DbWorld A :=
  fun d =>
    match table d with
    | Some t => let (a, t') := statement t in (Ok a, set_table (Some t') d)
    | None => (Err (Rejected "no such table: notes"), d)
    end.

(** [executeSql] of [CREATE TABLE IF NOT EXISTS notes (...)] *)
Definition executeSql_create_table : M DbWorld unit :=
  fun d =>
    match table d with
    | Some _ => (Ok tt, d)
    | None => (Ok tt, set_table (Some empty_table) d)
    end.

Module DatabaseService.
Section Service.
Context {ES : EncryptionService.API}.

Definition in_crypto {A} (m : M CryptoWorld A) : M World A := zoom crypto set_crypto m.
Definition in_db {A} (m : M DbWorld A) : M World A := zoom db set_db m.

Definition createTables : M DbWorld unit :=
  fun d =>
    if negb (database d) then (Err (JsError "Database not initialized"), d)
    else executeSql_create_table d.

Definition init : M World unit :=
  try (
    in_db (SQLite_openDatabase ;;; (fun d => (Ok tt, set_database true d))) ;;;
    in_db createTables
  ) catch (fun _ => throw (JsError "Failed to initialize database")).

(** [if (!this.database) { await this.init(); }] *)
Definition ensure_init : M World unit :=
  fun w => if negb (database (db w)) then init w else (Ok tt, w).

Definition close : M World unit :=
  fun w => if database (db w) then (Ok tt, set_db (set_database false (db w)) w)
           else (Ok tt, w).

(** [a || b] on an optional number. *)
Definition or_else (a : option Z) (b : Z) : Z :=
  match a with
  | Some n => if truthy_number n then n else b
  | None => b
  end.

(** The value of [note.id] when [if (note.id)] takes the first branch. *)
Definition truthy_id (a : option Z) : option Z :=
  match a with
  | Some n => if truthy_number n then Some n else None
  | None => None
  end.

Definition saveNote (note : Note) : M World Z :=
  ensure_init ;;;
  timestamp <- Date_now ;;
  t <- in_crypto (EncryptionService.encrypt (title note)) ;;
  c <- in_crypto (EncryptionService.encrypt (content note)) ;;
  let encryptedNote :=
    {| enc_id := None;
       titleEncrypted := encrypted t; titleIv := iv t;
       contentEncrypted := encrypted c; contentIv := iv c;
       enc_createdAt := or_else (createdAt note) timestamp;
       enc_updatedAt := timestamp |} in
  match truthy_id (id note) with
  | Some note_id =>
      in_db (executeSql (fun tb =>
        (tt, table_update (titleEncrypted encryptedNote) (titleIv encryptedNote)
                          (contentEncrypted encryptedNote) (contentIv encryptedNote)
                          (enc_updatedAt encryptedNote) note_id tb))) ;;;
      ret note_id
  | None =>
      insertId <- in_db (executeSql
        (table_insert (titleEncrypted encryptedNote) (titleIv encryptedNote)
                      (contentEncrypted encryptedNote) (contentIv encryptedNote)
                      (enc_createdAt encryptedNote) (enc_updatedAt encryptedNote))) ;;
      ret insertId
  end.

Definition decryptNote (encryptedNote : EncryptedNote) : M World Note :=
  try (
    title <- in_crypto (EncryptionService.decrypt (titleEncrypted encryptedNote)
                                                  (titleIv encryptedNote)) ;;
    content <- in_crypto (EncryptionService.decrypt (contentEncrypted encryptedNote)
                                                    (contentIv encryptedNote)) ;;
    ret {| id := enc_id encryptedNote;
           title := title;
           content := content;
           createdAt := Some (enc_createdAt encryptedNote);
           updatedAt := Some (enc_updatedAt encryptedNote) |}
  ) catch (fun _ => throw (JsError "Failed to decrypt note data")).

Definition getNote (id : Z) : M World (option Note) :=
  ensure_init ;;;
  results <- in_db (executeSql (fun tb => (table_select_by_id id tb, tb))) ;;
  match results with
  | [] => ret None
  | row :: _ =>
      note <- decryptNote (as_EncryptedNote row) ;;
      ret (Some note)
  end.

(** The loop of [getAllNotes] over the remaining rows, [notes] being
    the array built so far. *)
Fixpoint decrypt_rows (remaining : list Row) (notes : list Note) : M World (list Note) :=
  match remaining with
  | [] => ret notes
  | row :: rest =>
      notes' <- (try (
                   note <- decryptNote (as_EncryptedNote row) ;;
                   ret (notes ++ [note])
                 ) catch (fun _ => ret notes)) ;;
      decrypt_rows rest notes'
  end.

Definition getAllNotes : M World (list Note) :=
  ensure_init ;;;
  results <- in_db (executeSql (fun tb => (table_select_all_ordered tb, tb))) ;;
  decrypt_rows results [].

Definition deleteNote (id : Z) : M World unit :=
  ensure_init ;;;
  in_db (executeSql (fun tb => (tt, table_delete id tb))).

End Service.
End DatabaseService.

(* ================================================================= *)
(** ** NotePresenter (src/presenters/NotePresenter.ts) *)

(** A call of one of the five methods of the registered [NoteView]. *)
Inductive Notification : Type :=
| onNotesLoaded (notes : list Note)
| onNoteAdded (note : Note)
| onNoteUpdated (note : Note)
| onNoteDeleted (id : Z)
| onError (error : thrown).

(** The presenter with its surroundings: the services' state, the
    [view] field (views are told apart by a number) and the calls the
    views have received, oldest first. *)
Record Presenter : Type := {
  world : World;
  view : option nat;
  received : list (nat * Notification)
}.

Definition set_world (w : World) (p : Presenter) : Presenter :=
  {| world := w; view := view p; received := received p |}.

Module NotePresenter.
Section Presenter.
Context {ES : EncryptionService.API}.

Definition in_world {A} (m : M World A) : M Presenter A := zoom world set_world m.

Definition setView (v : nat) : M Presenter unit :=
  fun p => (Ok tt, {| world := world p; view := Some v; received := received p |}).

Definition removeView : M Presenter unit :=
  fun p => (Ok tt, {| world := world p; view := None; received := received p |}).

(** [if (this.view) { this.view.method(argument); }]. The methods of
    the view belong to the user interface; they are taken to return
    normally, and the call is recorded. *)
Definition notify (n : Notification) : M Presenter unit :=
  fun p =>
    match view p with
    | Some v => (Ok tt, {| world := world p; view := view p;
                           received := received p ++ [(v, n)] |})
    | None => (Ok tt, p)
    end.

Definition handleError (error : thrown) : M Presenter unit :=
  notify (onError (if instanceof_Error error then error
                   else JsError (String_of_thrown error))).

Definition loadNotes : M Presenter unit :=
  try (
    notes <- in_world DatabaseService.getAllNotes ;;
    notify (onNotesLoaded notes)
  ) catch handleError.

Definition addNote (title content : jsstring) : M Presenter unit :=
  try (
    noteId <- in_world (DatabaseService.saveNote
                {| id := None; title := title; content := content;
                   createdAt := None; updatedAt := None |}) ;;
    note <- in_world (DatabaseService.getNote noteId) ;;
    match note with
    | Some n => notify (onNoteAdded n)
    | None => ret tt
    end
  ) catch handleError.

Definition updateNote (id : Z) (title content : jsstring) : M Presenter unit :=
  try (
    in_world (DatabaseService.saveNote
                {| id := Some id; title := title; content := content;
                   createdAt := None; updatedAt := None |}) ;;;
    updatedNote <- in_world (DatabaseService.getNote id) ;;
    match updatedNote with
    | Some n => notify (onNoteUpdated n)
    | None => ret tt
    end
  ) catch handleError.

Definition deleteNote (id : Z) : M Presenter unit :=
  try (
    in_world (DatabaseService.deleteNote id) ;;;
    notify (onNoteDeleted id)
  ) catch handleError.

End Presenter.
End NotePresenter.

(* ================================================================= *)
(** ** What the properties refer to *)

(** The key the keychain holds for the service, when the keychain can
    be read. The three revisions use the same service name. *)
Definition stored_key (w : CryptoWorld) : option jsstring :=
  if keychain_available w
  then password <$> keychain w !! EncryptionService1.KEYCHAIN_SERVICE
  else None.

(** The requests a client can make of the first revision of the
    encryption service; it has no reset. *)
Inductive Request : Type :=
| GetEncryptionKey
| EncryptData (data : jsstring)
| DecryptData (encrypted iv : jsstring).

Definition after_request {aes : AesLib} (w : CryptoWorld) (r : Request) : CryptoWorld :=
  match r with
  | GetEncryptionKey => snd (EncryptionService1.getEncryptionKey w)
  | EncryptData data => snd (EncryptionService1.encrypt data w)
  | DecryptData c i => snd (EncryptionService1.decrypt c i w)
  end.

Definition after_requests {aes : AesLib} (rs : list Request) (w : CryptoWorld) : CryptoWorld :=
  fold_left after_request rs w.

(** The assumption on the AES primitive: with the key and IV it
    encrypted under, it decrypts to the text it was given. *)
Definition AesRoundTrip (aes : AesLib) : Prop :=
  forall text key iv algorithm c,
    Aes_encrypt text key iv algorithm = Ok c ->
    Aes_decrypt c key iv algorithm = Ok text.

(** What the database service needs of the encryption service it is
    linked with, in terms of the key [stored] finds in the state and of
    the function [decrypt_with] a key induces: with a key in place
    [decrypt] is that function and leaves the state alone, [encrypt]
    keeps the key, and what [encrypt] returns decrypts, under the key in
    place afterwards, to the data. *)
Record EncryptionLaws (ES : EncryptionService.API)
    (stored : CryptoWorld -> option jsstring)
    (decrypt_with : jsstring -> jsstring -> jsstring -> result jsstring) : Prop := {
  decrypt_stored : forall w k c i,
    stored w = Some k ->
    EncryptionService.decrypt c i w = (decrypt_with k c i, w);
  encrypt_keeps_key : forall w k data r w',
    stored w = Some k ->
    EncryptionService.encrypt data w = (r, w') ->
    stored w' = Some k;
  encrypt_decrypts : forall w data e w',
    EncryptionService.encrypt data w = (Ok e, w') ->
    exists k, stored w' = Some k /\ decrypt_with k (encrypted e) (iv e) = Ok data
}.

(** [decrypt] of the first revision once the key is known. *)
Definition decrypt_with1 {aes : AesLib} (key c i : jsstring) : result jsstring :=
  match Aes_decrypt c key i (js "aes-256-cbc") with
  | Ok text => Ok text
  | Err _ => Err (JsError "Failed to decrypt data")
  end.

(** [decrypt] of the second revision once the key is known. *)
Definition decrypt_with2 (Aes : option RNAes) (k c i : jsstring) : result jsstring :=
  if negb (truthy_string i) || negb (js_length i =? EncryptionService2.IV_SIZE * 2)
  then Err (JsError "Failed to decrypt data")
  else
    match EncryptionService2.native_function Aes RNAes_decrypt with
    | Some aes_decrypt =>
        match aes_decrypt c k i (js "aes-256-cbc") with
        | Ok text => Ok text
        | Err _ => Err (JsError "Failed to decrypt data")
        end
    | None => Ok (EncryptionService2.simpleFallbackDecrypt c)
    end.

(** [decrypt] of the third revision once the key is known. *)
Definition decrypt_with3 {aes : AesLib} (k c i : jsstring) : result jsstring :=
  if negb (truthy_string i) || (js_length i <? 16)
  then Err (JsError "Failed to decrypt data")
  else
    match Aes_decrypt c k i (js "aes-256-cbc") with
    | Ok text => Ok text
    | Err _ => Err (JsError "Failed to decrypt data")
    end.

(** *** The database as the operations find it *)

(** The database can serve a request: a connection is held and the
    table exists, or none is held and the file can be opened. *)
Definition operational (d : DbWorld) : Prop :=
  if database d then is_Some (table d) else openable d = true.

(** The table a request works on: the stored one, or the empty table
    that [init] creates. *)
Definition current_table (d : DbWorld) : Table := default empty_table (table d).

(** The database side after [if (!this.database) await this.init()]
    went through. *)
Definition opened (d : DbWorld) : DbWorld :=
  if database d then d
  else {| database := true; table := Some (current_table d); openable := openable d |}.

(** The state after a request that left table [t]. *)
Definition with_table (t : Table) (w : World) : World :=
  set_db (set_table (Some t) (opened (db w))) w.

(** *** The listing, in the words of the specification

    [listing w rs ns w'] reads: going through the rows [rs] in order
    from state [w], the notes [ns] are the decoded forms of exactly
    the rows that decode, in the same order; a row whose decoding
    throws contributes nothing. *)
Inductive listing {ES : EncryptionService.API}
  : World -> list Row -> list Note -> World -> Prop :=
| listing_done w : listing w [] [] w
| listing_decoded w row note w1 rest notes w2 :
    DatabaseService.decryptNote (as_EncryptedNote row) w = (Ok note, w1) ->
    listing w1 rest notes w2 ->
    listing w (row :: rest) (note :: notes) w2
| listing_omitted w row e w1 rest notes w2 :
    DatabaseService.decryptNote (as_EncryptedNote row) w = (Err e, w1) ->
    listing w1 rest notes w2 ->
    listing w (row :: rest) notes w2.

(** Most recently modified first. *)
Definition modified_not_before (a b : Note) : Prop :=
  match updatedAt a, updatedAt b with
  | Some x, Some y => y <= x
  | _, _ => False
  end.

(** The decoded form of a row under a key, for a service that obeys
    [EncryptionLaws]. *)
Definition decode (decrypt_with : jsstring -> jsstring -> jsstring -> result jsstring)
    (k : jsstring) (r : Row) : option Note :=
  match decrypt_with k (col_titleEncrypted r) (col_titleIv r),
        decrypt_with k (col_contentEncrypted r) (col_contentIv r) with
  | Ok t, Ok c =>
      Some {| id := Some (col_id r); title := t; content := c;
              createdAt := Some (col_createdAt r);
              updatedAt := Some (col_updatedAt r) |}
  | _, _ => None
  end.

(* ================================================================= *)
(** ** A stand-in for the AES primitive

    A keyed, IV-dependent transformation that rejects a ciphertext made
    under another key or IV. It shows that the assumptions made of the
    primitive can be met, and lets the services be evaluated on concrete
    inputs. *)

Module ModelCipher.

Fixpoint drop_prefix (p s : jsstring) : option jsstring :=
  match p, s with
  | [], _ => Some s
  | x :: p', y :: s' => if x =? y then drop_prefix p' s' else None
  | _ :: _, [] => None
  end.

Definition hex_byte (b : Z) : jsstring :=
  [hex_digit_lower (b / 16); hex_digit_lower (b mod 16)].

Fixpoint random_hex (n : nat) (r : Rng) : jsstring * Rng :=
  match n with
  | O => ([], r)
  | S n' =>
      let (rest, r') := random_hex n' {| draws := draws r; cursor := S (cursor r) |} in
      (hex_byte (draws r (cursor r) mod 256) ++ rest, r')
  end.

Definition randomKey (n : Z) (r : Rng) : result jsstring * Rng :=
  let (s, r') := random_hex (Z.to_nat n) r in (Ok s, r').

Definition pbkdf2 (password salt : jsstring) (iterations keylen : Z) (algorithm : jsstring)
  : result jsstring := Ok (salt ++ password).

Definition encrypt (text key iv algorithm : jsstring) : result jsstring :=
  Ok (iv ++ key ++ text).

Definition decrypt (c key iv algorithm : jsstring) : result jsstring :=
  match drop_prefix (iv ++ key) c with
  | Some text => Ok text
  | None => Err (Rejected "bad decrypt")
  end.

Definition lib : AesLib :=
  {| Aes_randomKey := randomKey; Aes_pbkdf2 := pbkdf2;
     Aes_encrypt := encrypt; Aes_decrypt := decrypt |}.

Definition native : RNAes :=
  {| RNAes_pbkdf2 := Some pbkdf2; RNAes_encrypt := Some encrypt;
     RNAes_decrypt := Some decrypt |}.

(** A state of the platform before first use: nothing stored, the
    random source counting upwards, no database file yet. *)
Definition fresh_crypto : CryptoWorld :=
  {| keychain_available := true; keychain := ∅; async_storage := ∅;
     rng := {| draws := fun n => Z.of_nat n; cursor := 0 |} |}.

Definition fresh_db : DbWorld :=
  {| database := false; table := None; openable := true |}.

Definition fresh_world : World :=
  {| crypto := fresh_crypto; db := fresh_db; now := 1000 |}.

End ModelCipher.

(* ================================================================= *)
(** ** Concrete runs

    Runs of the services from the fresh state with the stand-in cipher,
    on which the statements below are instantiated. *)

Module Scenario.

(** The first ever call of [getEncryptionKey] and the key it made. *)
Definition first_run : result jsstring * CryptoWorld :=
  @EncryptionService1.getEncryptionKey ModelCipher.lib ModelCipher.fresh_crypto.

Definition first_key : jsstring :=
  match fst first_run with Ok k => k | Err _ => [] end.

(** A text with a null character, an accented letter and a surrogate
    pair, and its encryption in the fresh state. *)
Definition unicode_text : jsstring := [0; 233; 55357; 56832].

Definition first_encrypt : result Encrypted * CryptoWorld :=
  @EncryptionService1.encrypt ModelCipher.lib unicode_text ModelCipher.fresh_crypto.

Definition first_encrypted : Encrypted :=
  match fst first_encrypt with
  | Ok e => e
  | Err _ => {| encrypted := []; iv := [] |}
  end.

(** The services linked with the first revision over the stand-in. *)
Definition linked : EncryptionService.API := service1 ModelCipher.lib.

(** [{ title, content }] and [{ id, title, content }]. *)
Definition new_note (T C : jsstring) : Note :=
  {| id := None; title := T; content := C; createdAt := None; updatedAt := None |}.

Definition edited_note (i : Z) (T C : jsstring) : Note :=
  {| id := Some i; title := T; content := C; createdAt := None; updatedAt := None |}.

(** The clock reads [t]. *)
Definition at_time (t : Z) (w : World) : World :=
  {| crypto := crypto w; db := db w; now := t |}.

Definition saved (note : Note) (w : World) : World :=
  snd (@DatabaseService.saveNote linked note w).

Definition rows_of (w : World) : list Row := rows (current_table (db w)).

(** Note A saved at time 1000; B at 2000 and C at 3000; then A edited
    at 4000. *)
Definition one_note : World :=
  saved (new_note (js "A") (js "a")) ModelCipher.fresh_world.

Definition three_notes : World :=
  saved (new_note (js "C") (js "c"))
    (at_time 3000 (saved (new_note (js "B") (js "b")) (at_time 2000 one_note))).

Definition three_notes_edited : World :=
  saved (edited_note 1 (js "A") (js "a2")) (at_time 4000 three_notes).

(** The stored content of the row with id [i] overwritten. *)
Definition corrupt_row (i : Z) (r : Row) : Row :=
  if col_id r =? i then
    {| col_id := col_id r;
       col_titleEncrypted := col_titleEncrypted r; col_titleIv := col_titleIv r;
       col_contentEncrypted := js "corrupted"; col_contentIv := col_contentIv r;
       col_createdAt := col_createdAt r; col_updatedAt := col_updatedAt r |}
  else r.

Definition corrupted (i : Z) (w : World) : World :=
  set_db (set_table (Some {| rows := map (corrupt_row i) (rows_of w);
                             sqlite_sequence := sqlite_sequence (current_table (db w)) |})
                    (db w)) w.

(** A presenter over a state of the services, with view 0 registered
    and nothing received yet. *)
Definition screen (w : World) : Presenter :=
  {| world := w; view := Some 0%nat; received := [] |}.

(** The row [SELECT ... WHERE id = i] returns first, and the parts of
    an outcome. *)
Definition blank_row : Row :=
  {| col_id := 0; col_titleEncrypted := []; col_titleIv := [];
     col_contentEncrypted := []; col_contentIv := [];
     col_createdAt := 0; col_updatedAt := 0 |}.

Definition row_with_id (i : Z) (w : World) : Row :=
  default blank_row (head (table_select_by_id i (current_table (db w)))).

Definition value_of {A} (d : A) (r : result A) : A :=
  match r with Ok a => a | Err _ => d end.

Definition error_of {A} (r : result A) : thrown :=
  match r with Ok _ => JsError "" | Err e => e end.

(** The second revision without the native module. *)
Definition no_native : option RNAes := None.

End Scenario.

(* ================================================================= *)
(** ** DatabaseService.resetDatabase

    [resetDatabase] calls [EncryptionService.resetEncryptionKey], which
    the second and the third revision of the encryption service have
    and the first has not; the method is a parameter here. *)

(** [executeSql] of [DROP TABLE IF EXISTS notes]: the table goes, and
    its AUTOINCREMENT counter with it. *)
Definition executeSql_drop_table : M DbWorld unit :=
  fun d => (Ok tt, set_table None d).

Module DatabaseMaintenance.
Section Service.
Context {ES : EncryptionService.API}.
Variable resetEncryptionKey : M CryptoWorld unit.

Definition resetDatabase : M World unit :=
  DatabaseService.ensure_init ;;;
  (try (
     DatabaseService.in_db executeSql_drop_table ;;;
     DatabaseService.in_crypto resetEncryptionKey ;;;
     DatabaseService.in_db DatabaseService.createTables
   ) catch (fun _ => throw (JsError "Failed to reset database"))).

End Service.
End DatabaseMaintenance.

(* ================================================================= *)
(** ** NoteModel (part_001)

    Each method awaits the database service inside a [try] whose
    [catch] logs and throws the error it caught. *)

Module NoteModel.
Section Model.
Context {ES : EncryptionService.API}.

Definition getAllNotes : M World (list Note) :=
  try DatabaseService.getAllNotes catch (fun error => throw error).

Definition getNoteById (id : Z) : M World (option Note) :=
  try (DatabaseService.getNote id) catch (fun error => throw error).

Definition createNote (title content : jsstring) : M World Z :=
  try (DatabaseService.saveNote
         {| id := None; title := title; content := content;
            createdAt := None; updatedAt := None |})
  catch (fun error => throw error).

Definition updateNote (id : Z) (title content : jsstring) : M World unit :=
  try (DatabaseService.saveNote
         {| id := Some id; title := title; content := content;
            createdAt := None; updatedAt := None |} ;;;
       ret tt)
  catch (fun error => throw error).

Definition deleteNote (id : Z) : M World unit :=
  try (DatabaseService.deleteNote id) catch (fun error => throw error).

End Model.
End NoteModel.

(* ================================================================= *)
(** ** The NoteView of the NoteList component (NotePresenter.ts,
       second part)

    The component keeps the notes it shows in the state [notes]; each
    method of its [NoteView] replaces that state by a function of the
    previous one. [onError] raises an alert and leaves [notes]. *)

Module NoteList.

(** [n.id === note.id] and [note.id !== id] on optional numbers. *)
Definition same_id (a b : option Z) : bool := bool_decide (a = b).

Definition onNotesLoaded (loadedNotes prevNotes : list Note) : list Note := loadedNotes.

Definition onNoteAdded (note : Note) (prevNotes : list Note) : list Note :=
  note :: prevNotes.

Definition onNoteUpdated (note : Note) (prevNotes : list Note) : list Note :=
  map (fun n => if same_id (id n) (id note) then note else n) prevNotes.

Definition onNoteDeleted (i : Z) (prevNotes : list Note) : list Note :=
  List.filter (fun note => negb (same_id (id note) (Some i))) prevNotes.

End NoteList.

(** The state [notes] after the view received a call, and after it
    received a sequence of calls. *)
Definition deliver (n : Notification) (notes : list Note) : list Note :=
  match n with
  | onNotesLoaded loaded => NoteList.onNotesLoaded loaded notes
  | onNoteAdded note => NoteList.onNoteAdded note notes
  | onNoteUpdated note => NoteList.onNoteUpdated note notes
  | onNoteDeleted i => NoteList.onNoteDeleted i notes
  | onError _ => notes
  end.

Definition shown (calls : list (nat * Notification)) (notes : list Note) : list Note :=
  fold_left (fun ns c => deliver (snd c) ns) calls notes.

(* ================================================================= *)
(** ** Further notions the properties refer to *)

(** The primary key of the table: ids are positive, pairwise distinct
    and not above the AUTOINCREMENT counter. *)
Definition well_keyed (t : Table) : Prop :=
  NoDup (map col_id (rows t))
  /\ Forall (fun r => 1 <= col_id r <= sqlite_sequence t) (rows t).

(** The requests a client can make of the second revision between two
    resets. *)
Definition after_request2 (Aes : option RNAes) (w : CryptoWorld) (r : Request) : CryptoWorld :=
  match r with
  | GetEncryptionKey => snd (EncryptionService2.getEncryptionKey Aes w)
  | EncryptData data => snd (EncryptionService2.encrypt Aes data w)
  | DecryptData c i => snd (EncryptionService2.decrypt Aes c i w)
  end.

Definition after_requests2 (Aes : option RNAes) (rs : list Request) (w : CryptoWorld)
  : CryptoWorld :=
  fold_left (after_request2 Aes) rs w.

(** A lowercase hexadecimal digit. *)
Definition is_hex_digit (c : Z) : bool :=
  ((48 <=? c) && (c <=? 57)) || ((97 <=? c) && (c <=? 102)).

(** Two lowercase hexadecimal digits, the form of one element of the
    [randomBytes] array. *)
Definition hex_pair (s : jsstring) : Prop :=
  length s = 2%nat /\ forallb is_hex_digit s = true.

(** The sextets [btoa] writes for a list of bytes, before they are
    turned into characters, and the padding that follows them. *)
Fixpoint base64_sextets (bytes : list Z) : list Z :=
  match bytes with
  | [] => []
  | [a] => [Z.shiftr a 2; Z.shiftl (Z.land a 3) 4]
  | [a; b] =>
      [Z.shiftr a 2;
       Z.lor (Z.shiftl (Z.land a 3) 4) (Z.shiftr b 4);
       Z.shiftl (Z.land b 15) 2]
  | a :: b :: c :: rest =>
      Z.shiftr a 2
      :: Z.lor (Z.shiftl (Z.land a 3) 4) (Z.shiftr b 4)
      :: Z.lor (Z.shiftl (Z.land b 15) 2) (Z.shiftr c 6)
      :: Z.land c 63
      :: base64_sextets rest
  end.

Fixpoint base64_pad (bytes : list Z) : jsstring :=
  match bytes with
  | [] => []
  | [_] => [61; 61]
  | [_; _] => [61]
  | _ :: _ :: _ :: rest => base64_pad rest
  end.

(** The values a byte can take. *)
Definition all_bytes : list Z := map Z.of_nat (seq 0 256).

(** A six-bit value. *)
Definition sextet (s : Z) : Prop := 0 <= s < 64.

(** A UTF-16 code unit. *)
Definition code_unit (c : Z) : Prop := 0 <= c < 65536.

(** The calls of [onError] among the calls received all carry an
    [Error] object. *)
Definition errors_are_Errors (calls : list (nat * Notification)) : Prop :=
  Forall (fun c => match snd c with
                   | onError e => instanceof_Error e = true
                   | _ => True
                   end) calls.

(* ================================================================= *)
(** ** Further concrete states

    States in which something is out of reach: the keychain, or the
    database file; a presenter nobody listens to; and runs of the
    second and third revision of the encryption service. *)

Module Session.

Definition keychain_down : CryptoWorld :=
  {| keychain_available := false; keychain := ∅; async_storage := ∅;
     rng := rng ModelCipher.fresh_crypto |}.

Definition locked_world : World :=
  {| crypto := keychain_down; db := ModelCipher.fresh_db; now := 1000 |}.

Definition no_database : World :=
  {| crypto := ModelCipher.fresh_crypto;
     db := {| database := false; table := None; openable := false |};
     now := 1000 |}.

(** The state [w] once the keychain can no longer be reached. *)
Definition keychain_lost (w : World) : World :=
  {| crypto := {| keychain_available := false; keychain := keychain (crypto w);
                  async_storage := async_storage (crypto w); rng := rng (crypto w) |};
     db := db w; now := now w |}.

Definition unregistered (w : World) : Presenter :=
  {| world := w; view := None; received := [] |}.

(** The services linked with the third revision over the stand-in. *)
Definition linked3 : EncryptionService.API := service3 ModelCipher.lib.

(** The first use of the second revision without the native module,
    and of the third revision. *)
Definition fallback_key : result jsstring * CryptoWorld :=
  EncryptionService2.getEncryptionKey Scenario.no_native ModelCipher.fresh_crypto.

Definition fallback_encrypt : result Encrypted * CryptoWorld :=
  EncryptionService2.encrypt Scenario.no_native (js "hi") ModelCipher.fresh_crypto.

Definition service3_encrypt : result Encrypted * CryptoWorld :=
  @EncryptionService3.encrypt ModelCipher.lib (js "hi") ModelCipher.fresh_crypto.

Definition no_cipher_text : Encrypted := {| encrypted := []; iv := [] |}.

End Session.

(* ================================================================= *)
(** * Properties *)

Section Revision1.
Context {aes : AesLib}.
Import EncryptionService1.

Lemma getEncryptionKey_stored w k :
  stored_key w = Some k -> getEncryptionKey w = (Ok k, w).
Proof.
  unfold stored_key, getEncryptionKey, try_catch, bind, Keychain_getGenericPassword, keychain_guard.
  destruct (keychain_available w); [|discriminate].
  destruct (keychain w !! KEYCHAIN_SERVICE) as [c|]; simpl; [|discriminate].
  intros [= <-]. reflexivity.
Qed.

Lemma getEncryptionKey_result w r w' :
  getEncryptionKey w = (r, w') ->
  match r with
  | Ok k => stored_key w' = Some k
  | Err e => e = JsError "Failed to secure the encryption key"
  end.
Proof.
  unfold stored_key, getEncryptionKey, try_catch, bind, Keychain_getGenericPassword,
    Keychain_setGenericPassword, keychain_guard, zoom, call, ret, throw.
  destruct (keychain_available w) eqn:Ha; [|intros [= <- <-]; reflexivity].
  destruct (keychain w !! KEYCHAIN_SERVICE) as [c|] eqn:Hk; simpl.
  - intros [= <- <-]. rewrite Ha, Hk. reflexivity.
  - destruct (Aes_randomKey _ _) as [[rb|e] g]; simpl; [|intros [= <- <-]; reflexivity].
    destruct (Aes_pbkdf2 _ _ _ _ _) as [key|e]; simpl; [|intros [= <- <-]; reflexivity].
    rewrite Ha. intros [= <- <-]. simpl. rewrite Ha, lookup_insert_eq. reflexivity.
Qed.

Lemma stored_key_set_rng g w : stored_key (set_rng g w) = stored_key w.
Proof. reflexivity. Qed.

Lemma encrypt_stored w k data :
  stored_key w = Some k ->
  encrypt data w =
    let (riv, g) := Aes_randomKey 16 (rng w) in
    match riv with
    | Ok i =>
        match Aes_encrypt data k i (js "aes-256-cbc") with
        | Ok c => (Ok {| encrypted := c; iv := i |}, set_rng g w)
        | Err _ => (Err (JsError "Failed to encrypt data"), set_rng g w)
        end
    | Err _ => (Err (JsError "Failed to encrypt data"), set_rng g w)
    end.
Proof.
  intros Hk. unfold encrypt, try_catch, bind. rewrite (getEncryptionKey_stored _ _ Hk).
  unfold zoom, call, ret, throw.
  destruct (Aes_randomKey 16 (rng w)) as [[i|e] g]; [|reflexivity].
  destruct (Aes_encrypt _ _ _ _); reflexivity.
Qed.

Lemma decrypt_stored1 w k c i :
  stored_key w = Some k -> decrypt c i w = (decrypt_with1 k c i, w).
Proof.
  intros Hk. unfold decrypt, try_catch, bind. rewrite (getEncryptionKey_stored _ _ Hk).
  unfold call, ret, throw, decrypt_with1.
  destruct (Aes_decrypt _ _ _ _); reflexivity.
Qed.

Lemma encrypt_keeps_key1 w k data r w' :
  stored_key w = Some k -> encrypt data w = (r, w') -> stored_key w' = Some k.
Proof.
  intros Hk. rewrite (encrypt_stored _ _ _ Hk).
  destruct (Aes_randomKey 16 (rng w)) as [[i|e] g].
  - destruct (Aes_encrypt _ _ _ _); intros [= <- <-]; exact Hk.
  - intros [= <- <-]; exact Hk.
Qed.

Lemma encrypt_result w data r w' :
  encrypt data w = (r, w') ->
  match r with
  | Ok e => exists k, stored_key w' = Some k /\
                      Aes_encrypt data k (iv e) (js "aes-256-cbc") = Ok (encrypted e)
  | Err e => e = JsError "Failed to encrypt data"
  end.
Proof.
  unfold encrypt, try_catch, bind.
  destruct (getEncryptionKey w) as [[k|e] w1] eqn:Hg; [|intros [= <- <-]; reflexivity].
  apply getEncryptionKey_result in Hg.
  unfold zoom, call, ret, throw.
  destruct (Aes_randomKey 16 (rng w1)) as [[i|e] g]; [|intros [= <- <-]; reflexivity].
  destruct (Aes_encrypt _ _ _ _) as [c|e] eqn:He; intros [= <- <-]; [|reflexivity].
  exists k. split; [exact Hg | exact He].
Qed.

Lemma after_request_keeps_key w k r :
  stored_key w = Some k -> stored_key (after_request w r) = Some k.
Proof.
  intros Hk. destruct r as [|data|c i]; simpl.
  - rewrite (getEncryptionKey_stored _ _ Hk). exact Hk.
  - destruct (encrypt data w) as [r w'] eqn:He. simpl.
    exact (encrypt_keeps_key1 _ _ _ _ _ Hk He).
  - rewrite (decrypt_stored1 _ _ _ _ Hk). exact Hk.
Qed.

Lemma after_requests_keep_key rs : forall w k,
  stored_key w = Some k -> stored_key (after_requests rs w) = Some k.
Proof.
  induction rs as [|r rs IH]; intros w k Hk; [exact Hk|].
  simpl. apply IH. apply after_request_keeps_key. exact Hk.
Qed.

(** Claim C6. From any state of the secure storage, once a call of
    [getEncryptionKey] has returned a key, every later call returns
    that same key, whatever requests were served in between (the
    revision has no reset). If the keychain held an entry, the key is
    its password and the state is untouched; if it held none, the key
    is the PBKDF2 derivation of 32 fresh random bytes and the call
    stored it in the keychain under the service name. *)
Theorem getEncryptionKey_same_key w k w1 :
  getEncryptionKey w = (Ok k, w1) ->
  (forall rs, getEncryptionKey (after_requests rs w1) = (Ok k, after_requests rs w1))
  /\ (forall c, keychain w !! KEYCHAIN_SERVICE = Some c -> k = password c /\ w1 = w)
  /\ (keychain w !! KEYCHAIN_SERVICE = None ->
      keychain w1 = <[KEYCHAIN_SERVICE := {| username := KEYCHAIN_USERNAME; password := k |}]> (keychain w)
      /\ exists randomBytes g,
           Aes_randomKey 32 (rng w) = (Ok randomBytes, g)
           /\ Aes_pbkdf2 randomBytes SALT 10000 32 (js "sha512") = Ok k).
Proof.
  intros Hg. split; [|split].
  - intros rs. apply getEncryptionKey_stored, after_requests_keep_key.
    exact (getEncryptionKey_result _ _ _ Hg).
  - intros c Hc. revert Hg.
    unfold getEncryptionKey, try_catch, bind, Keychain_getGenericPassword, keychain_guard, throw.
    destruct (keychain_available w); [|discriminate].
    rewrite Hc. simpl. intros [= <- <-]. split; reflexivity.
  - intros Hn. revert Hg.
    unfold getEncryptionKey, try_catch, bind, Keychain_getGenericPassword,
      Keychain_setGenericPassword, keychain_guard, zoom, call, ret, throw.
    destruct (keychain_available w) eqn:Ha; [|discriminate].
    rewrite Hn. simpl.
    change (ENCRYPTION_KEY_SIZE / 8) with 32.
    destruct (Aes_randomKey 32 (rng w)) as [[rb|e] g]; simpl; [|discriminate].
    destruct (Aes_pbkdf2 _ _ _ _ _) as [key|e] eqn:Hp; simpl; [|discriminate].
    rewrite Ha. intros [= <- <-]. split; [reflexivity|].
    exists rb, g. split; [reflexivity | exact Hp].
Qed.

(** Claim C1. For every string [s] (any sequence of code units: empty,
    with null characters, with surrogate pairs), when [encrypt s]
    returns a ciphertext and an IV, [decrypt] applied to them returns
    [s], right away and after any further requests to the service: the
    key both operations read from the keychain is the same. The AES
    primitive is assumed to decrypt what it encrypted. *)
Theorem decrypt_encrypt_round_trip (round_trip : AesRoundTrip aes) s w e w1 rs :
  encrypt s w = (Ok e, w1) ->
  decrypt (encrypted e) (iv e) (after_requests rs w1) = (Ok s, after_requests rs w1).
Proof.
  intros He. apply encrypt_result in He. destruct He as (k & Hk & Hc).
  rewrite (decrypt_stored1 _ k); [|apply after_requests_keep_key; exact Hk].
  unfold decrypt_with1. rewrite (round_trip _ _ _ _ _ Hc). reflexivity.
Qed.

Lemma service1_laws (round_trip : AesRoundTrip aes) :
  EncryptionLaws (service1 aes) stored_key decrypt_with1.
Proof.
  split; simpl.
  - apply decrypt_stored1.
  - apply encrypt_keeps_key1.
  - intros w data e w' He. apply encrypt_result in He. destruct He as (k & Hk & Hc).
    exists k. split; [exact Hk|]. unfold decrypt_with1.
    rewrite (round_trip _ _ _ _ _ Hc). reflexivity.
Qed.
End Revision1.

Section Revision2.
Variable Aes : option RNAes.
Import EncryptionService2.

Lemma set_rng_set_rng g g' w : set_rng g (set_rng g' w) = set_rng g w.
Proof. reflexivity. Qed.

Lemma push_random_bytes_run n : forall acc w,
  exists bytes g,
    push_random_bytes n acc w = (Ok (acc ++ bytes), set_rng g w)
    /\ length bytes = n.
Proof.
  induction n as [|n IH]; intros acc w; cbn [push_random_bytes].
  - exists [], (rng w). rewrite app_nil_r. split; [|reflexivity].
    unfold ret. destruct w; reflexivity.
  - unfold bind, Math_floor_random_times. cbv beta zeta iota.
    destruct (IH (acc ++ [String_padStart 2 (js "0")
                            (Number_toString16 (draws (rng w) (cursor (rng w)) mod 256))])
                 (set_rng {| draws := draws (rng w); cursor := S (cursor (rng w)) |} w))
      as (bytes & g & Hrun & Hlen).
    rewrite Hrun. eexists (_ :: bytes), g. rewrite <- app_assoc. simpl.
    split; [reflexivity | rewrite Hlen; reflexivity].
Qed.

(** An IV that is absent (the empty string) or not of 32 characters,
    in the words of the specification, is what the test of the source
    rejects. *)
Lemma invalid_iv_test i :
  i = [] \/ js_length i <> 32 <->
  negb (truthy_string i) || negb (js_length i =? IV_SIZE * 2) = true.
Proof.
  change (IV_SIZE * 2) with 32. split.
  - intros [->|Hlen]; [reflexivity|].
    apply orb_true_iff. right. apply negb_true_iff, Z.eqb_neq. exact Hlen.
  - intros H. apply orb_true_iff in H. destruct H as [H|H].
    + left. destruct i; [reflexivity | discriminate].
    + right. apply negb_true_iff, Z.eqb_neq in H. exact H.
Qed.

Lemma decrypt_error c i w e w' :
  decrypt Aes c i w = (Err e, w') -> e = JsError "Failed to decrypt data".
Proof.
  unfold decrypt, try_catch, throw.
  destruct (bind _ _ w) as [[d|x] w1]; intros [= <- <-] || intros [=]; reflexivity.
Qed.

Lemma decrypt_invalid_iv c i w :
  i = [] \/ js_length i <> 32 ->
  decrypt Aes c i w = (Err (JsError "Failed to decrypt data"), snd (getEncryptionKey Aes w)).
Proof.
  intros Hi. apply invalid_iv_test in Hi.
  unfold decrypt, try_catch, bind.
  destruct (getEncryptionKey Aes w) as [[k|x] w1]; [|reflexivity].
  rewrite Hi. reflexivity.
Qed.

Lemma decrypt_valid_iv c i w k w1 :
  getEncryptionKey Aes w = (Ok k, w1) ->
  i <> [] -> js_length i = 32 ->
  decrypt Aes c i w =
    (match native_function Aes RNAes_decrypt with
     | Some aes_decrypt =>
         match aes_decrypt c k i (js "aes-256-cbc") with
         | Ok text => Ok text
         | Err _ => Err (JsError "Failed to decrypt data")
         end
     | None => Ok (simpleFallbackDecrypt c)
     end, w1).
Proof.
  intros Hk Hne Hlen.
  assert (Hi : negb (truthy_string i) || negb (js_length i =? IV_SIZE * 2) = false).
  { destruct (negb (truthy_string i) || negb (js_length i =? IV_SIZE * 2)) eqn:E; [|reflexivity].
    apply invalid_iv_test in E. destruct E; contradiction. }
  unfold decrypt, try_catch, bind. rewrite Hk, Hi. unfold ret at 1. cbv iota.
  destruct (native_function Aes RNAes_decrypt) as [f|]; [|reflexivity].
  unfold call. destruct (f c k i (js "aes-256-cbc")); reflexivity.
Qed.

Lemma encrypt_run data w k w1 :
  getEncryptionKey Aes w = (Ok k, w1) ->
  exists ivBytes g,
    push_random_bytes 16 [] w1 = (Ok ivBytes, set_rng g w1)
    /\ encrypt Aes data w =
         (match match native_function Aes RNAes_encrypt with
                | Some aes_encrypt =>
                    aes_encrypt data k (Array_join_empty ivBytes) (js "aes-256-cbc")
                | None => simpleFallbackEncrypt data
                end with
          | Ok c => Ok {| encrypted := c; iv := Array_join_empty ivBytes |}
          | Err _ => Err (JsError "Failed to encrypt data")
          end, set_rng g w1).
Proof.
  intros Hk.
  destruct (push_random_bytes_run 16 [] w1) as (ivBytes & g & Hrun & _).
  exists ivBytes, g. split; [exact Hrun|].
  unfold encrypt, try_catch, bind. rewrite Hk.
  change (Z.to_nat IV_SIZE) with 16%nat. rewrite Hrun.
  destruct (native_function Aes RNAes_encrypt) as [f|]; unfold call, ret, throw.
  - destruct (f data k _ _); reflexivity.
  - destruct (simpleFallbackEncrypt data); reflexivity.
Qed.

(** The catch of [simpleFallbackDecrypt] that retries with
    [decodeURIComponent] cannot succeed: it calls [atob] on the input
    that just made [atob] throw. *)
Lemma simpleFallbackDecrypt_unfold c :
  simpleFallbackDecrypt c =
    match atob c with
    | Ok data => xor_with_key (js "SecureNotesDevKey") data
    | Err _ => c
    end.
Proof. unfold simpleFallbackDecrypt. destruct (atob c); reflexivity. Qed.

End Revision2.

Lemma log2_byte a : 0 <= a < 256 -> Z.log2 a < 8.
Proof.
  intros Ha. destruct (Z.eq_dec a 0) as [->|Hnz]; [reflexivity|].
  apply Z.log2_lt_pow2; lia.
Qed.

Lemma lxor_byte a b : 0 <= a < 256 -> 0 <= b < 256 -> 0 <= Z.lxor a b < 256.
Proof.
  intros Ha Hb.
  assert (Hnn : 0 <= Z.lxor a b) by (apply Z.lxor_nonneg; lia).
  split; [exact Hnn|].
  destruct (Z.eq_dec (Z.lxor a b) 0) as [->|Hnz]; [lia|].
  change 256 with (2 ^ 8). apply Z.log2_lt_pow2; [lia|].
  pose proof (Z.log2_lxor a b ltac:(lia) ltac:(lia)) as Hl.
  pose proof (log2_byte a Ha). pose proof (log2_byte b Hb). lia.
Qed.

Section Revision2Linked.
Variable Aes : option RNAes.
Import EncryptionService2.

Lemma hex_byte_length b :
  0 <= b < 256 -> length (String_padStart 2 (js "0") (Number_toString16 b)) = 2%nat.
Proof.
  intros Hb.
  assert (Hall : forallb (fun n => Nat.eqb (length (String_padStart 2 (js "0")
                                     (Number_toString16 (Z.of_nat n)))) 2)
                         (seq 0 256) = true) by (vm_compute; reflexivity).
  rewrite forallb_forall in Hall.
  specialize (Hall (Z.to_nat b)). rewrite Z2Nat.id in Hall by lia.
  apply Nat.eqb_eq, Hall. apply in_seq. lia.
Qed.

Lemma push_random_bytes_hex n : forall acc w bytes w',
  push_random_bytes n acc w = (Ok bytes, w') ->
  Forall (fun s => length s = 2%nat) acc ->
  Forall (fun s => length s = 2%nat) bytes /\ length bytes = (length acc + n)%nat.
Proof.
  induction n as [|n IH]; intros acc w bytes w'; cbn [push_random_bytes].
  - intros [= <- <-] Hacc. split; [exact Hacc | lia].
  - unfold bind, Math_floor_random_times. cbv beta zeta iota. intros Hrun Hacc.
    apply IH in Hrun.
    + destruct Hrun as [Hall Hlen]. split; [exact Hall|].
      rewrite Hlen, length_app. simpl. lia.
    + apply Forall_app. split; [exact Hacc|]. constructor; [|constructor].
      apply hex_byte_length. apply Z.mod_pos_bound. lia.
Qed.

Lemma join_length (parts : list jsstring) :
  Forall (fun s => length s = 2%nat) parts ->
  length (Array_join_empty parts) = (2 * length parts)%nat.
Proof.
  unfold Array_join_empty. induction 1 as [|s parts Hs _ IH]; [reflexivity|].
  simpl. rewrite length_app, Hs, IH. lia.
Qed.

Lemma stored_key_frame w w' :
  keychain_available w' = keychain_available w -> keychain w' = keychain w ->
  stored_key w' = stored_key w.
Proof. unfold stored_key. intros -> ->. reflexivity. Qed.

Lemma push_random_bytes_frame n acc w r w' :
  push_random_bytes n acc w = (r, w') ->
  keychain_available w' = keychain_available w /\ keychain w' = keychain w.
Proof.
  destruct (push_random_bytes_run n acc w) as (bytes & g & Hrun & _).
  rewrite Hrun. intros [= <- <-]. split; reflexivity.
Qed.

Lemma getSalt_frame w r w' :
  getSalt w = (r, w') ->
  keychain_available w' = keychain_available w /\ keychain w' = keychain w.
Proof.
  unfold getSalt, try_catch, bind, AsyncStorage_getItem, AsyncStorage_setItem, ret, throw.
  destruct (push_random_bytes_run 16 [] w) as (bytes & g & Hrun & _).
  destruct (async_storage w !! SALT_KEY) as [stored|];
    [destruct (truthy_string stored)|]; try rewrite Hrun;
    intros [= <- <-]; split; reflexivity.
Qed.

Lemma getEncryptionKey2_stored w k :
  stored_key w = Some k -> getEncryptionKey Aes w = (Ok k, w).
Proof.
  unfold stored_key, getEncryptionKey, try_catch, bind, Keychain_getGenericPassword, keychain_guard.
  destruct (keychain_available w); [|discriminate].
  change KEYCHAIN_SERVICE with EncryptionService1.KEYCHAIN_SERVICE.
  destruct (keychain w !! EncryptionService1.KEYCHAIN_SERVICE) as [c|]; [|discriminate].
  cbn [fmap option_fmap option_map]. intros [= <-]. reflexivity.
Qed.

Lemma getEncryptionKey2_result w k w' :
  getEncryptionKey Aes w = (Ok k, w') -> stored_key w' = Some k.
Proof.
  unfold getEncryptionKey, try_catch, bind at 1, Keychain_getGenericPassword, keychain_guard.
  destruct (keychain_available w) eqn:Ha; [|discriminate].
  change KEYCHAIN_SERVICE with EncryptionService1.KEYCHAIN_SERVICE.
  destruct (keychain w !! EncryptionService1.KEYCHAIN_SERVICE) as [c|] eqn:Hk.
  - unfold ret. intros [= <- <-]. unfold stored_key. rewrite Ha, Hk. reflexivity.
  - unfold bind at 1.
    destruct (getSalt w) as [[salt|x] w1] eqn:Hsalt; [|discriminate].
    apply getSalt_frame in Hsalt. destruct Hsalt as [Ha1 Hk1].
    unfold bind at 1.
    destruct (push_random_bytes (Z.to_nat KEY_SIZE) [] w1) as [[bytes|x] w2] eqn:Hrun;
      [|discriminate].
    apply push_random_bytes_frame in Hrun. destruct Hrun as [Ha2 Hk2].
    unfold bind at 1.
    assert (Hstore : forall key a s',
      (Keychain_setGenericPassword KEYCHAIN_USERNAME key EncryptionService1.KEYCHAIN_SERVICE ;;;
       ret key) w2 = (Ok a, s') -> stored_key s' = Some a).
    { intros key a s'. unfold bind, Keychain_setGenericPassword, keychain_guard, ret.
      rewrite Ha2, Ha1, Ha. intros [= <- <-]. unfold stored_key. simpl.
      rewrite Ha2, Ha1, Ha, lookup_insert_eq. reflexivity. }
    destruct (native_function Aes RNAes_pbkdf2) as [pbkdf2|].
    + unfold call. destruct (pbkdf2 _ _ _ _ _) as [key|x]; [|discriminate].
      destruct ((Keychain_setGenericPassword KEYCHAIN_USERNAME key
                   EncryptionService1.KEYCHAIN_SERVICE ;;; ret key) w2)
        as [[a|x] s'] eqn:E; [|discriminate].
      intros [= <- <-]. exact (Hstore _ _ _ E).
    + unfold ret at 1.
      destruct ((Keychain_setGenericPassword KEYCHAIN_USERNAME (Array_join_empty bytes)
                   EncryptionService1.KEYCHAIN_SERVICE ;;; ret (Array_join_empty bytes)) w2)
        as [[a|x] s'] eqn:E; [|discriminate].
      intros [= <- <-]. exact (Hstore _ _ _ E).
Qed.

Variable aes_encrypt aes_decrypt : jsstring -> jsstring -> jsstring -> jsstring -> result jsstring.
Hypothesis native_encrypt : native_function Aes RNAes_encrypt = Some aes_encrypt.
Hypothesis native_decrypt : native_function Aes RNAes_decrypt = Some aes_decrypt.
Hypothesis round_trip : forall text key i algorithm c,
  aes_encrypt text key i algorithm = Ok c -> aes_decrypt c key i algorithm = Ok text.

Lemma decrypt_stored2 w k c i :
  stored_key w = Some k ->
  EncryptionService2.decrypt Aes c i w = (decrypt_with2 Aes k c i, w).
Proof.
  intros Hk. unfold decrypt_with2.
  destruct (negb (truthy_string i) || negb (js_length i =? IV_SIZE * 2)) eqn:Hi.
  - apply invalid_iv_test in Hi. rewrite (decrypt_invalid_iv Aes c i w Hi).
    rewrite (getEncryptionKey2_stored _ _ Hk). reflexivity.
  - apply (decrypt_valid_iv Aes c i w k w (getEncryptionKey2_stored _ _ Hk)).
    + intros ->. discriminate.
    + apply orb_false_iff in Hi. destruct Hi as [_ Hi].
      apply negb_false_iff, Z.eqb_eq in Hi. exact Hi.
Qed.

Lemma encrypt_keeps_key2 w k data r w' :
  stored_key w = Some k ->
  EncryptionService2.encrypt Aes data w = (r, w') ->
  stored_key w' = Some k.
Proof.
  intros Hk.
  destruct (encrypt_run Aes data w k w (getEncryptionKey2_stored _ _ Hk))
    as (ivBytes & g & _ & Henc).
  rewrite Henc. intros [= _ <-]. exact Hk.
Qed.

Lemma drawn_iv_valid w ivBytes w' :
  push_random_bytes 16 [] w = (Ok ivBytes, w') ->
  negb (truthy_string (Array_join_empty ivBytes))
  || negb (js_length (Array_join_empty ivBytes) =? IV_SIZE * 2) = false.
Proof.
  intros Hrun. apply push_random_bytes_hex in Hrun; [|constructor].
  destruct Hrun as [Hall Hlen].
  pose proof (join_length _ Hall) as Hjoin. rewrite Hlen in Hjoin.
  unfold js_length. rewrite Hjoin.
  destruct (Array_join_empty ivBytes); [discriminate Hjoin | reflexivity].
Qed.

Lemma encrypt_key_fails data w x w1 :
  getEncryptionKey Aes w = (Err x, w1) ->
  EncryptionService2.encrypt Aes data w = (Err (JsError "Failed to encrypt data"), w1).
Proof.
  intros Hg. unfold encrypt, try_catch, bind at 1. rewrite Hg. reflexivity.
Qed.

Lemma encrypt_decrypts2 w data e w' :
  EncryptionService2.encrypt Aes data w = (Ok e, w') ->
  exists k, stored_key w' = Some k /\ decrypt_with2 Aes k (encrypted e) (iv e) = Ok data.
Proof.
  destruct (getEncryptionKey Aes w) as [[k|x] w1] eqn:Hg.
  - pose proof (getEncryptionKey2_result _ _ _ Hg) as Hk.
    destruct (encrypt_run Aes data w k w1 Hg) as (ivBytes & g & Hrun & ->).
    rewrite native_encrypt.
    destruct (aes_encrypt data k (Array_join_empty ivBytes) (js "aes-256-cbc")) as [c|x] eqn:Hc;
      [|discriminate].
    intros [= <- <-]. exists k. split; [exact Hk|].
    unfold decrypt_with2. cbn [encrypted iv].
    rewrite native_decrypt, (drawn_iv_valid _ _ _ Hrun), (round_trip _ _ _ _ _ Hc).
    reflexivity.
  - rewrite (encrypt_key_fails _ _ _ _ Hg). discriminate.
Qed.

Lemma service2_laws : EncryptionLaws (service2 Aes) stored_key (decrypt_with2 Aes).
Proof.
  split.
  - exact decrypt_stored2.
  - exact encrypt_keeps_key2.
  - exact encrypt_decrypts2.
Qed.

End Revision2Linked.

Section Revision3.
Context {aes : AesLib}.

(** The third revision generates the key and encrypts as the first
    does; it differs in [decrypt] and in having a reset. *)
Lemma getEncryptionKey3_same :
  EncryptionService3.getEncryptionKey = EncryptionService1.getEncryptionKey.
Proof. reflexivity. Qed.

Lemma encrypt3_same : EncryptionService3.encrypt = EncryptionService1.encrypt.
Proof. reflexivity. Qed.

Lemma encrypt_iv_drawn w data e w' :
  EncryptionService1.encrypt data w = (Ok e, w') ->
  exists r r', Aes_randomKey 16 r = (Ok (iv e), r').
Proof.
  unfold EncryptionService1.encrypt, try_catch, bind.
  destruct (EncryptionService1.getEncryptionKey w) as [[k|x] w1]; [|discriminate].
  unfold zoom, call, ret, throw.
  destruct (Aes_randomKey 16 (rng w1)) as [[i|x] g] eqn:Hr; [|discriminate].
  destruct (Aes_encrypt _ _ _ _) as [c|x]; [|discriminate].
  intros [= <- <-]. exists (rng w1), g. exact Hr.
Qed.

Lemma decrypt_stored3 w k c i :
  stored_key w = Some k -> EncryptionService3.decrypt c i w = (decrypt_with3 k c i, w).
Proof.
  intros Hk. unfold EncryptionService3.decrypt, try_catch, bind.
  rewrite getEncryptionKey3_same, (getEncryptionKey_stored _ _ Hk).
  unfold decrypt_with3.
  destruct (negb (truthy_string i) || (js_length i <? 16)); [reflexivity|].
  unfold ret at 1, call, throw. cbv iota.
  destruct (Aes_decrypt _ _ _ _); reflexivity.
Qed.

Hypothesis round_trip : AesRoundTrip aes.
Hypothesis iv_length : forall r s r', Aes_randomKey 16 r = (Ok s, r') -> 16 <= js_length s.

Lemma service3_laws : EncryptionLaws (service3 aes) stored_key decrypt_with3.
Proof.
  split; simpl.
  - apply decrypt_stored3.
  - rewrite encrypt3_same. apply encrypt_keeps_key1.
  - rewrite encrypt3_same. intros w data e w' He.
    destruct (encrypt_iv_drawn _ _ _ _ He) as (r & r' & Hr). apply iv_length in Hr.
    apply encrypt_result in He. destruct He as (k & Hk & Hc).
    exists k. split; [exact Hk|]. unfold decrypt_with3.
    assert (Hvalid : negb (truthy_string (iv e)) || (js_length (iv e) <? 16) = false).
    { apply orb_false_iff. split; [|apply Z.ltb_ge; exact Hr].
      destruct (iv e); [unfold js_length in Hr; simpl in Hr; lia | reflexivity]. }
    rewrite Hvalid, (round_trip _ _ _ _ _ Hc). reflexivity.
Qed.

End Revision3.

(** *** The database service *)

Lemma set_crypto_same w : set_crypto (crypto w) w = w.
Proof. destruct w; reflexivity. Qed.

Lemma set_db_same w : set_db (db w) w = w.
Proof. destruct w; reflexivity. Qed.

Lemma set_table_same d t : table d = Some t -> set_table (Some t) d = d.
Proof. destruct d; simpl; intros ->; reflexivity. Qed.

Lemma opened_database d : operational d -> database (opened d) = true.
Proof. unfold opened. destruct (database d) eqn:E; [intros; exact E | reflexivity]. Qed.

Lemma opened_table d : operational d -> table (opened d) = Some (current_table d).
Proof.
  unfold opened, operational, current_table.
  destruct (database d); [|reflexivity].
  intros [t ->]. reflexivity.
Qed.

Lemma opened_idem d : database d = true -> opened d = d.
Proof. unfold opened. intros ->. reflexivity. Qed.

Lemma operational_open d t : database d = true -> table d = Some t -> operational d.
Proof. unfold operational. intros -> ->. eexists; reflexivity. Qed.

Lemma with_table_db t w : operational (db w) ->
  database (db (with_table t w)) = true /\ table (db (with_table t w)) = Some t.
Proof. intros Hop. unfold with_table. simpl. split; [apply opened_database, Hop | reflexivity]. Qed.

Section Database.
Context {ES : EncryptionService.API}.
Import DatabaseService.

Lemma ensure_init_operational w :
  operational (db w) -> ensure_init w = (Ok tt, set_db (opened (db w)) w).
Proof.
  destruct w as [c [b t o] n].
  unfold operational, ensure_init, opened, current_table, init, try_catch, bind, in_db, zoom,
    SQLite_openDatabase, createTables, executeSql_create_table. simpl.
  destruct b; simpl; [reflexivity|].
  intros ->. destruct t; reflexivity.
Qed.

(** When the database cannot serve, the guard either throws or leaves a
    connection without table behind, on which every statement is
    rejected. *)
Lemma ensure_init_result w r w0 :
  ensure_init w = (r, w0) ->
  match r with
  | Ok _ => database (db w0) = true /\
            (operational (db w) /\ w0 = set_db (opened (db w)) w
             \/ table (db w0) = None)
  | Err e => e = JsError "Failed to initialize database"
  end.
Proof.
  destruct (database (db w)) eqn:Hd.
  - unfold ensure_init. rewrite Hd. simpl. intros [= <- <-]. split; [exact Hd|].
    destruct (table (db w)) eqn:Ht; [left|right; reflexivity].
    split; [eapply operational_open; eassumption|].
    rewrite opened_idem by exact Hd. symmetry. apply set_db_same.
  - destruct (openable (db w)) eqn:Ho.
    + assert (Hop : operational (db w)) by (unfold operational; rewrite Hd; exact Ho).
      rewrite (ensure_init_operational _ Hop). intros [= <- <-].
      split; [apply opened_database, Hop|]. left. split; [exact Hop | reflexivity].
    + unfold ensure_init, init, try_catch, bind, in_db, zoom, SQLite_openDatabase, throw.
      rewrite Hd, Ho. simpl. intros [= <- <-]. reflexivity.
Qed.

Lemma executeSql_on_table {A} (statement : Table -> A * Table) w t :
  table (db w) = Some t ->
  in_db (executeSql statement) w =
    (Ok (fst (statement t)), set_db (set_table (Some (snd (statement t))) (db w)) w).
Proof.
  intros Ht. unfold in_db, zoom, executeSql. rewrite Ht.
  destruct (statement t); reflexivity.
Qed.

Lemma executeSql_no_table {A} (statement : Table -> A * Table) w :
  table (db w) = None ->
  in_db (executeSql statement) w = (Err (Rejected "no such table: notes"), set_db (db w) w).
Proof. intros Ht. unfold in_db, zoom, executeSql. rewrite Ht. reflexivity. Qed.

Lemma executeSql_query {A} (q : Table -> A) w t :
  table (db w) = Some t ->
  in_db (executeSql (fun tb => (q tb, tb))) w = (Ok (q t), w).
Proof.
  intros Ht. rewrite (executeSql_on_table _ _ _ Ht). simpl.
  rewrite (set_table_same _ _ Ht), set_db_same. reflexivity.
Qed.

(** *** decryptNote *)

Lemma decryptNote_result e w r w' :
  decryptNote e w = (r, w') ->
  db w' = db w /\ now w' = now w /\
  match r with
  | Ok n => id n = enc_id e /\ createdAt n = Some (enc_createdAt e)
            /\ updatedAt n = Some (enc_updatedAt e)
            /\ exists c1,
                 EncryptionService.decrypt (titleEncrypted e) (titleIv e) (crypto w) = (Ok (title n), c1)
                 /\ EncryptionService.decrypt (contentEncrypted e) (contentIv e) c1 = (Ok (content n), crypto w')
  | Err x => x = JsError "Failed to decrypt note data"
  end.
Proof.
  unfold decryptNote, try_catch, bind, in_crypto, zoom, ret, throw.
  destruct (EncryptionService.decrypt (titleEncrypted e) (titleIv e) (crypto w)) as [[t|x] c1] eqn:H1;
    simpl; [|intros [= <- <-]; auto].
  destruct (EncryptionService.decrypt (contentEncrypted e) (contentIv e) c1) as [[c|x] c2] eqn:H2;
    simpl; intros [= <- <-]; simpl; [|auto].
  repeat split; try reflexivity. exists c1. split; [reflexivity | exact H2].
Qed.

(** The two ways a single-note decoding fails. *)
Lemma decryptNote_title_fails e w x c1 :
  EncryptionService.decrypt (titleEncrypted e) (titleIv e) (crypto w) = (Err x, c1) ->
  decryptNote e w = (Err (JsError "Failed to decrypt note data"), set_crypto c1 w).
Proof.
  intros H. unfold decryptNote, try_catch, bind, in_crypto, zoom, throw. rewrite H. reflexivity.
Qed.

Lemma decryptNote_content_fails e w t c1 x c2 :
  EncryptionService.decrypt (titleEncrypted e) (titleIv e) (crypto w) = (Ok t, c1) ->
  EncryptionService.decrypt (contentEncrypted e) (contentIv e) c1 = (Err x, c2) ->
  decryptNote e w = (Err (JsError "Failed to decrypt note data"), set_crypto c2 (set_crypto c1 w)).
Proof.
  intros H1 H2. unfold decryptNote, try_catch, bind, in_crypto, zoom, throw.
  rewrite H1. simpl. rewrite H2. reflexivity.
Qed.

Lemma decryptNote_succeeds e w t c1 c c2 :
  EncryptionService.decrypt (titleEncrypted e) (titleIv e) (crypto w) = (Ok t, c1) ->
  EncryptionService.decrypt (contentEncrypted e) (contentIv e) c1 = (Ok c, c2) ->
  decryptNote e w =
    (Ok {| id := enc_id e; title := t; content := c;
           createdAt := Some (enc_createdAt e); updatedAt := Some (enc_updatedAt e) |},
     set_crypto c2 (set_crypto c1 w)).
Proof.
  intros H1 H2. unfold decryptNote, try_catch, bind, in_crypto, zoom, ret.
  rewrite H1. simpl. rewrite H2. reflexivity.
Qed.


(** *** saveNote *)

Lemma saveNote_run note w e1 c1 e2 c2 :
  operational (db w) ->
  EncryptionService.encrypt (title note) (crypto w) = (Ok e1, c1) ->
  EncryptionService.encrypt (content note) c1 = (Ok e2, c2) ->
  saveNote note w =
    match truthy_id (id note) with
    | Some i =>
        (Ok i,
         with_table (table_update (encrypted e1) (iv e1) (encrypted e2) (iv e2)
                                  (now w) i (current_table (db w)))
                    (set_crypto c2 w))
    | None =>
        let (n, t') := table_insert (encrypted e1) (iv e1) (encrypted e2) (iv e2)
                         (or_else (createdAt note) (now w)) (now w)
                         (current_table (db w)) in
        (Ok n, with_table t' (set_crypto c2 w))
    end.
Proof.
  intros Hop H1 H2. unfold saveNote, bind at 1.
  rewrite (ensure_init_operational _ Hop).
  unfold bind at 1, Date_now. unfold bind at 1, in_crypto at 1, zoom at 1. simpl.
  rewrite H1. unfold bind at 1, in_crypto at 1, zoom at 1. simpl. rewrite H2. simpl.
  destruct (truthy_id (id note)) as [i|].
  - unfold bind. erewrite executeSql_on_table by (simpl; apply opened_table, Hop).
    reflexivity.
  - unfold bind. erewrite executeSql_on_table by (simpl; apply opened_table, Hop).
    unfold table_insert. reflexivity.
Qed.

Lemma saveNote_returns note w n w' :
  saveNote note w = (Ok n, w') ->
  operational (db w) /\
  exists e1 c1 e2 c2,
    EncryptionService.encrypt (title note) (crypto w) = (Ok e1, c1)
    /\ EncryptionService.encrypt (content note) c1 = (Ok e2, c2).
Proof.
  unfold saveNote, bind at 1.
  destruct (ensure_init w) as [[[]|x] w0] eqn:Hi; [|discriminate].
  apply ensure_init_result in Hi. destruct Hi as [Hd Hcase].
  unfold bind at 1, Date_now. unfold bind at 1, in_crypto at 1, zoom at 1.
  destruct (EncryptionService.encrypt (title note) (crypto w0)) as [[e1|x] c1] eqn:H1;
    [|discriminate].
  unfold bind at 1, in_crypto at 1, zoom at 1. simpl.
  destruct (EncryptionService.encrypt (content note) c1) as [[e2|x] c2] eqn:H2;
    [|discriminate].
  destruct Hcase as [[Hop ->]|Hnone].
  - intros _. split; [exact Hop|]. exists e1, c1, e2, c2. split; [exact H1 | exact H2].
  - destruct (truthy_id (id note)); unfold bind;
      rewrite executeSql_no_table by (simpl; exact Hnone); discriminate.
Qed.

(** *** getNote, getAllNotes, deleteNote *)

Lemma getNote_run i w :
  operational (db w) ->
  getNote i w =
    match table_select_by_id i (current_table (db w)) with
    | [] => (Ok None, set_db (opened (db w)) w)
    | row :: _ =>
        (note <- decryptNote (as_EncryptedNote row) ;; ret (Some note))
          (set_db (opened (db w)) w)
    end.
Proof.
  intros Hop. unfold getNote, bind at 1. rewrite (ensure_init_operational _ Hop).
  unfold bind at 1.
  rewrite (executeSql_query _ _ (current_table (db w))) by (simpl; apply opened_table, Hop).
  destruct (table_select_by_id i (current_table (db w))); reflexivity.
Qed.

Lemma getAllNotes_run w :
  operational (db w) ->
  getAllNotes w =
    decrypt_rows (table_select_all_ordered (current_table (db w))) []
                 (set_db (opened (db w)) w).
Proof.
  intros Hop. unfold getAllNotes, bind at 1. rewrite (ensure_init_operational _ Hop).
  unfold bind at 1.
  rewrite (executeSql_query _ _ (current_table (db w))) by (simpl; apply opened_table, Hop).
  reflexivity.
Qed.

Lemma deleteNote_run i w :
  operational (db w) ->
  deleteNote i w = (Ok tt, with_table (table_delete i (current_table (db w))) w).
Proof.
  intros Hop. unfold deleteNote, bind at 1. rewrite (ensure_init_operational _ Hop).
  erewrite executeSql_on_table by (simpl; apply opened_table, Hop). reflexivity.
Qed.

Lemma decrypt_rows_listing rs : forall acc w,
  exists notes w',
    decrypt_rows rs acc w = (Ok (acc ++ notes), w') /\ listing w rs notes w'.
Proof.
  induction rs as [|row rest IH]; intros acc w; simpl.
  - exists [], w. rewrite app_nil_r. split; [reflexivity | constructor].
  - unfold bind at 1, try_catch, bind at 1.
    destruct (decryptNote (as_EncryptedNote row) w) as [[note|x] w1] eqn:Hd; simpl.
    + destruct (IH (acc ++ [note]) w1) as (notes & w' & Hrun & Hl).
      exists (note :: notes), w'. rewrite Hrun, <- app_assoc. split; [reflexivity|].
      econstructor; eassumption.
    + destruct (IH acc w1) as (notes & w' & Hrun & Hl).
      exists notes, w'. split; [exact Hrun|].
      eapply listing_omitted; eassumption.
Qed.

Lemma listing_from_rows w rs notes w' :
  listing w rs notes w' ->
  Forall (fun n => exists r, r ∈ rs /\ id n = Some (col_id r)
                             /\ updatedAt n = Some (col_updatedAt r)) notes.
Proof.
  induction 1 as [w|w row note w1 rest notes w2 Hd _ IH|w row x w1 rest notes w2 _ _ IH].
  - constructor.
  - constructor.
    + apply decryptNote_result in Hd. destruct Hd as (_ & _ & Hid & _ & Hu & _).
      exists row. split; [left|]. split; [exact Hid | exact Hu].
    + eapply Forall_impl; [exact IH|]. intros n (r & Hr & Hn). exists r. split; [right; exact Hr | exact Hn].
  - eapply Forall_impl; [exact IH|]. intros n (r & Hr & Hn). exists r. split; [right; exact Hr | exact Hn].
Qed.

Lemma listing_sorted w rs notes w' :
  listing w rs notes w' ->
  StronglySorted updated_not_before rs ->
  StronglySorted modified_not_before notes.
Proof.
  induction 1 as [w|w row note w1 rest notes w2 Hd Hl IH|w row x w1 rest notes w2 _ _ IH];
    intros Hs.
  - constructor.
  - apply StronglySorted_inv in Hs. destruct Hs as [Hs Hall].
    constructor; [apply IH, Hs|].
    apply decryptNote_result in Hd. destruct Hd as (_ & _ & _ & _ & Hu & _).
    apply listing_from_rows in Hl.
    eapply Forall_impl; [exact Hl|]. intros n (r & Hr & _ & Hn).
    unfold modified_not_before. rewrite Hu, Hn. simpl.
    rewrite Forall_forall in Hall. apply (Hall r). exact Hr.
  - apply StronglySorted_inv in Hs. destruct Hs as [Hs _]. apply IH, Hs.
Qed.

End Database.

#[global] Instance updated_not_before_trans : Transitive updated_not_before.
Proof. intros a b c. unfold updated_not_before. lia. Qed.

#[global] Instance updated_not_before_total : Total updated_not_before.
Proof. intros a b. unfold updated_not_before. lia. Qed.

(** *** The table *)

Lemma max_rowid_bound rs r : r ∈ rs -> col_id r <= max_rowid rs.
Proof.
  induction rs as [|x rs IH]; intros Hr; [inversion Hr|].
  simpl. apply elem_of_cons in Hr. destruct Hr as [->|Hr]; [lia|].
  specialize (IH Hr). lia.
Qed.

Lemma next_rowid_fresh t r : r ∈ rows t -> col_id r < next_rowid t.
Proof. intros Hr. apply max_rowid_bound in Hr. unfold next_rowid. lia. Qed.

Lemma next_rowid_positive t : 0 <= sqlite_sequence t -> 1 <= next_rowid t.
Proof. unfold next_rowid. lia. Qed.

Lemma select_none i rs :
  (forall r, r ∈ rs -> col_id r <> i) -> filter (fun r => col_id r = i) rs = [].
Proof.
  induction rs as [|x rs IH]; intros H; [reflexivity|].
  rewrite filter_cons. destruct (decide (col_id x = i)) as [E|_].
  - exfalso. apply (H x); [left | exact E].
  - apply IH. intros r Hr. apply H. right. exact Hr.
Qed.

Lemma select_inserted te ti ce ci cr up t :
  table_select_by_id (fst (table_insert te ti ce ci cr up t))
                     (snd (table_insert te ti ce ci cr up t))
  = [{| col_id := next_rowid t;
        col_titleEncrypted := te; col_titleIv := ti;
        col_contentEncrypted := ce; col_contentIv := ci;
        col_createdAt := cr; col_updatedAt := up |}].
Proof.
  unfold table_select_by_id, table_insert. simpl.
  rewrite filter_app, select_none.
  - rewrite filter_cons. simpl. destruct (decide (next_rowid t = next_rowid t)); [reflexivity|congruence].
  - intros r Hr. apply next_rowid_fresh in Hr. lia.
Qed.

Lemma update_absent te ti ce ci up i rs :
  (forall r, r ∈ rs -> col_id r <> i) -> map (update_row te ti ce ci up i) rs = rs.
Proof.
  induction rs as [|x rs IH]; intros H; [reflexivity|].
  simpl. rewrite IH by (intros r Hr; apply H; right; exact Hr).
  unfold update_row. destruct (col_id x =? i) eqn:E; [|reflexivity].
  apply Z.eqb_eq in E. exfalso. apply (H x); [left | exact E].
Qed.

Lemma table_update_absent te ti ce ci up i t :
  (forall r, r ∈ rows t -> col_id r <> i) -> table_update te ti ce ci up i t = t.
Proof.
  intros H. unfold table_update. rewrite update_absent by exact H. destruct t; reflexivity.
Qed.

Lemma set_db_opened w : database (db w) = true -> set_db (opened (db w)) w = w.
Proof. intros H. rewrite opened_idem by exact H. apply set_db_same. Qed.

Section LinkedService.
Context {ES : EncryptionService.API}.
Variable stored : CryptoWorld -> option jsstring.
Variable decrypt_with : jsstring -> jsstring -> jsstring -> result jsstring.
Hypothesis laws : EncryptionLaws ES stored decrypt_with.
Import DatabaseService.

Lemma decryptNote_stored r w k :
  stored (crypto w) = Some k ->
  decryptNote (as_EncryptedNote r) w =
    (match decode decrypt_with k r with
     | Some n => Ok n
     | None => Err (JsError "Failed to decrypt note data")
     end, w).
Proof.
  intros Hk. unfold decryptNote, try_catch, bind, in_crypto, zoom, decode. simpl.
  rewrite (decrypt_stored _ _ _ laws _ _ _ _ Hk).
  destruct (decrypt_with k (col_titleEncrypted r) (col_titleIv r)) as [t|x]; simpl.
  - rewrite (decrypt_stored _ _ _ laws _ _ _ _ Hk).
    destruct (decrypt_with k (col_contentEncrypted r) (col_contentIv r)) as [c|x]; simpl;
      unfold ret, throw; simpl; rewrite !set_crypto_same; reflexivity.
  - unfold throw. rewrite set_crypto_same. reflexivity.
Qed.

Lemma listing_stored w rs notes w' k :
  listing w rs notes w' ->
  stored (crypto w) = Some k ->
  notes = omap (decode decrypt_with k) rs /\ w' = w.
Proof.
  induction 1 as [w|w row note w1 rest notes w2 Hd _ IH|w row x w1 rest notes w2 Hd _ IH];
    intros Hk.
  - split; reflexivity.
  - rewrite (decryptNote_stored _ _ _ Hk) in Hd.
    destruct (decode decrypt_with k row) as [n|] eqn:E; [|discriminate].
    injection Hd as -> ->. destruct (IH Hk) as [-> ->].
    simpl. rewrite E. split; reflexivity.
  - rewrite (decryptNote_stored _ _ _ Hk) in Hd.
    destruct (decode decrypt_with k row) as [n|] eqn:E; [discriminate|].
    injection Hd as _ ->. destruct (IH Hk) as [-> ->].
    simpl. rewrite E. split; reflexivity.
Qed.

(** With a key in place the listing is a function of the table. *)
Lemma getAllNotes_stored w k :
  operational (db w) ->
  stored (crypto w) = Some k ->
  getAllNotes w =
    (Ok (omap (decode decrypt_with k) (table_select_all_ordered (current_table (db w)))),
     set_db (opened (db w)) w).
Proof.
  intros Hop Hk. rewrite (getAllNotes_run _ Hop).
  destruct (decrypt_rows_listing (table_select_all_ordered (current_table (db w))) []
              (set_db (opened (db w)) w)) as (notes & w' & Hrun & Hl).
  rewrite Hrun. apply listing_stored with (k := k) in Hl; [|exact Hk].
  destruct Hl as [-> ->]. reflexivity.
Qed.

End LinkedService.

Section Claims.
Context {ES : EncryptionService.API}.
Import DatabaseService.

(** Claim C3. For every table of a database that can serve the
    request, [getAllNotes] returns a list and does not throw; the rows are gone through in the order of
    [ORDER BY updatedAt DESC], a permutation of the table sorted most
    recently modified first; the result holds the decoded form of
    exactly the rows whose decoding succeeded, in that order, a row
    whose decoding throws being left out without stopping the loop;
    and the result is itself sorted most recently modified first. *)
Theorem getAllNotes_lists_decodable w :
  operational (db w) ->
  exists notes w',
    getAllNotes w = (Ok notes, w')
    /\ listing (set_db (opened (db w)) w)
               (table_select_all_ordered (current_table (db w))) notes w'
    /\ table_select_all_ordered (current_table (db w)) ≡ₚ rows (current_table (db w))
    /\ Sorted updated_not_before (table_select_all_ordered (current_table (db w)))
    /\ Sorted modified_not_before notes.
Proof.
  intros Hop.
  destruct (decrypt_rows_listing (table_select_all_ordered (current_table (db w))) []
              (set_db (opened (db w)) w)) as (notes & w' & Hrun & Hl).
  exists notes, w'. split; [|split; [|split; [|split]]].
  - rewrite (getAllNotes_run _ Hop). exact Hrun.
  - exact Hl.
  - apply merge_sort_Permutation.
  - apply Sorted_merge_sort. apply _.
  - apply StronglySorted_Sorted. eapply listing_sorted; [exact Hl|].
    apply StronglySorted_merge_sort; apply _.
Qed.

(** Claim C4. For every [i], on a database that can serve the request,
    [getNote i] returns [null] (here [None]), not an error, when no
    row has id [i]; when the query returns a row
    and the decryption of its title, or of its content after the
    title decrypted, throws, [getNote] throws
    [Error('Failed to decrypt note data')]: no partial note is
    returned and the failure is not swallowed. *)
Theorem getNote_absent_or_fails i w :
  operational (db w) ->
  ((forall r, r ∈ rows (current_table (db w)) -> col_id r <> i) ->
   getNote i w = (Ok None, set_db (opened (db w)) w))
  /\ (forall row others,
        table_select_by_id i (current_table (db w)) = row :: others ->
        (forall x c1,
           EncryptionService.decrypt (col_titleEncrypted row) (col_titleIv row) (crypto w)
             = (Err x, c1) ->
           fst (getNote i w) = Err (JsError "Failed to decrypt note data"))
        /\ (forall t c1 x c2,
              EncryptionService.decrypt (col_titleEncrypted row) (col_titleIv row) (crypto w)
                = (Ok t, c1) ->
              EncryptionService.decrypt (col_contentEncrypted row) (col_contentIv row) c1
                = (Err x, c2) ->
              fst (getNote i w) = Err (JsError "Failed to decrypt note data"))).
Proof.
  intros Hop. split.
  - intros Hnone. rewrite (getNote_run _ _ Hop).
    unfold table_select_by_id. rewrite select_none by exact Hnone. reflexivity.
  - intros row others Hsel. split.
    + intros x c1 H1. rewrite (getNote_run _ _ Hop), Hsel. unfold bind.
      erewrite decryptNote_title_fails by (simpl; exact H1). reflexivity.
    + intros t c1 x c2 H1 H2. rewrite (getNote_run _ _ Hop), Hsel. unfold bind.
      erewrite decryptNote_content_fails by (simpl; eassumption). reflexivity.
Qed.

(** Claim C5, as amended. For every note whose id [i] is present and
    not 0, [saveNote] returns [i] and leaves a table with the same
    rows in the same order (no row is inserted): every row keeps its
    id and its [createdAt]; a row with id [i] gets the new encrypted
    fields and IVs and [updatedAt] set to the clock reading of the
    call, so that its [updatedAt] increases strictly exactly when
    that reading is later than the stored value; every other row is
    unchanged. *)
Theorem saveNote_updates_in_place note i w e1 c1 e2 c2 :
  id note = Some i -> i <> 0 ->
  operational (db w) ->
  EncryptionService.encrypt (title note) (crypto w) = (Ok e1, c1) ->
  EncryptionService.encrypt (content note) c1 = (Ok e2, c2) ->
  exists w',
    saveNote note w = (Ok i, w')
    /\ Forall2 (fun r r' =>
                  col_id r' = col_id r
                  /\ col_createdAt r' = col_createdAt r
                  /\ (col_id r = i ->
                      col_titleEncrypted r' = encrypted e1 /\ col_titleIv r' = iv e1
                      /\ col_contentEncrypted r' = encrypted e2 /\ col_contentIv r' = iv e2
                      /\ col_updatedAt r' = now w
                      /\ (col_updatedAt r < col_updatedAt r' <-> col_updatedAt r < now w))
                  /\ (col_id r <> i -> r' = r))
               (rows (current_table (db w))) (rows (current_table (db w'))).
Proof.
  intros Hid Hnz Hop H1 H2.
  rewrite (saveNote_run note w e1 c1 e2 c2 Hop H1 H2), Hid. simpl truthy_id.
  unfold truthy_number. destruct (i =? 0) eqn:E; [apply Z.eqb_eq in E; contradiction|].
  simpl negb. cbv iota. eexists. split; [reflexivity|].
  unfold current_table at 2. unfold with_table. simpl.
  induction (rows (current_table (db w))) as [|r rs IH]; [constructor|].
  simpl. constructor; [|exact IH].
  unfold update_row. destruct (col_id r =? i) eqn:Er.
  - apply Z.eqb_eq in Er. simpl. repeat split; try reflexivity; try tauto; congruence.
  - apply Z.eqb_neq in Er. repeat split; try reflexivity; intros; try tauto; contradiction.
Qed.

(** Claim C10, as amended. For every note carrying an id [i] other
    than 0 for which the table has no row, [saveNote] succeeds and
    returns [i], the table is unchanged, and [getNote i] afterwards
    returns [null]. *)
Theorem saveNote_absent_id note i w e1 c1 e2 c2 :
  id note = Some i -> i <> 0 ->
  operational (db w) ->
  EncryptionService.encrypt (title note) (crypto w) = (Ok e1, c1) ->
  EncryptionService.encrypt (content note) c1 = (Ok e2, c2) ->
  (forall r, r ∈ rows (current_table (db w)) -> col_id r <> i) ->
  exists w',
    saveNote note w = (Ok i, w')
    /\ current_table (db w') = current_table (db w)
    /\ getNote i w' = (Ok None, w').
Proof.
  intros Hid Hnz Hop H1 H2 Hnone.
  rewrite (saveNote_run note w e1 c1 e2 c2 Hop H1 H2), Hid. simpl truthy_id.
  unfold truthy_number. destruct (i =? 0) eqn:E; [apply Z.eqb_eq in E; contradiction|].
  simpl negb. cbv iota. eexists. split; [reflexivity|].
  rewrite (table_update_absent _ _ _ _ _ _ _ Hnone).
  set (w' := with_table (current_table (db w)) (set_crypto c2 w)).
  destruct (with_table_db (current_table (db w)) (set_crypto c2 w) Hop) as [Hd Ht].
  fold w' in Hd, Ht.
  assert (Hcur : current_table (db w') = current_table (db w))
    by (unfold current_table at 1; rewrite Ht; reflexivity).
  split; [exact Hcur|].
  assert (Hop' : operational (db w')) by (eapply operational_open; eassumption).
  rewrite (getNote_run _ _ Hop'), Hcur.
  unfold table_select_by_id. rewrite select_none by exact Hnone.
  rewrite (set_db_opened _ Hd). reflexivity.
Qed.

End Claims.

Section PresenterFacts.
Context {ES : EncryptionService.API}.


Import NotePresenter.


Lemma notify_registered n p v :
  view p = Some v ->
  notify n p = (Ok tt, {| world := world p; view := view p;
                          received := received p ++ [(v, n)] |}).
Proof. intros Hv. unfold notify. rewrite Hv. reflexivity. Qed.


End PresenterFacts.

(** *** The fallback cipher on Latin-1 data *)



Lemma charCodeAt_byte (key : jsstring) j : Forall is_byte key -> is_byte (charCodeAt key j).
Proof.
  intros Hkey. unfold charCodeAt. destruct (key !! j) as [c|] eqn:E; simpl.
  - rewrite Forall_forall in Hkey. apply Hkey. eapply list_elem_of_lookup_2. exact E.
  - unfold is_byte. lia.
Qed.

Lemma xor_at_bytes (key : jsstring) (data : jsstring) : forall g : nat -> nat,
  Forall is_byte key -> Forall is_byte data ->
  Forall is_byte
    (imap (fun i c => String_fromCharCode (Z.lxor c (charCodeAt key (g i)))) data).
Proof.
  induction data as [|c data IH]; intros g Hkey Hdata; [constructor|].
  apply Forall_cons in Hdata. destruct Hdata as [Hc Hdata].
  change (imap ?f (c :: data)) with (f 0%nat c :: imap (f ∘ S) data).
  constructor.
  - pose proof (lxor_byte c (charCodeAt key (g 0%nat)) Hc (charCodeAt_byte key _ Hkey)) as Hx.
    unfold String_fromCharCode, is_byte in *. rewrite Z.mod_small; lia.
  - apply (IH (fun i => g (S i)) Hkey Hdata).
Qed.

Lemma xor_with_key_bytes (key data : jsstring) :
  Forall is_byte key -> Forall is_byte data ->
  Forall is_byte (EncryptionService2.xor_with_key key data).
Proof. apply (xor_at_bytes key data (fun i => (i mod length key)%nat)). Qed.

Lemma btoa_bytes (s : jsstring) : Forall is_byte s -> btoa s = Ok (base64_encode s).
Proof.
  intros Hs. unfold btoa.
  assert (H : forallb (fun c => c <=? 255) s = true).
  { induction Hs as [|c s Hc _ IH]; [reflexivity|]. simpl. rewrite IH.
    unfold is_byte in Hc. rewrite andb_true_r. apply Z.leb_le. lia. }
  rewrite H. reflexivity.
Qed.

Lemma fallback_key_bytes : Forall is_byte (js "SecureNotesDevKey").
Proof. apply Forall_forall. intros c Hc. apply list_elem_of_In in Hc. simpl in Hc.
  unfold is_byte. intuition lia. Qed.

Lemma simpleFallbackEncrypt_bytes (data : jsstring) :
  Forall is_byte data ->
  EncryptionService2.simpleFallbackEncrypt data =
    Ok (base64_encode (EncryptionService2.xor_with_key (js "SecureNotesDevKey") data)).
Proof.
  intros Hdata. unfold EncryptionService2.simpleFallbackEncrypt.
  rewrite btoa_bytes; [reflexivity|].
  apply xor_with_key_bytes; [exact fallback_key_bytes | exact Hdata].
Qed.

(** Claim C7, as amended. In the second revision, for every ciphertext,
    an IV that is absent (empty) or not 32 characters long makes
    [decrypt] throw whatever the cipher is, after the key was fetched
    and before any decryption; what it throws is the generic
    [Error('Failed to decrypt data')], as does every failure of that
    [decrypt], and this differs from a successful empty string. The
    first revision does not test the IV: with a key in place the
    outcome is that of the AES primitive on the IV it was given. *)
Theorem decrypt_iv_validation (Aes : option RNAes) (aes : AesLib) c i w :
  i = [] \/ js_length i <> 32 ->
  EncryptionService2.decrypt Aes c i w =
    (Err (JsError "Failed to decrypt data"), snd (EncryptionService2.getEncryptionKey Aes w))
  /\ fst (EncryptionService2.decrypt Aes c i w) <> Ok []
  /\ (forall c' i' w0 e w',
        EncryptionService2.decrypt Aes c' i' w0 = (Err e, w') ->
        e = JsError "Failed to decrypt data")
  /\ (forall k, stored_key w = Some k ->
        EncryptionService1.decrypt c i w =
          (match Aes_decrypt c k i (js "aes-256-cbc") with
           | Ok text => Ok text
           | Err _ => Err (JsError "Failed to decrypt data")
           end, w)).
Proof.
  intros Hi. pose proof (decrypt_invalid_iv Aes c i w Hi) as H.
  split; [exact H|]. split; [rewrite H; discriminate|]. split.
  - intros c' i' w0 e w'. apply decrypt_error.
  - intros k Hk. apply (decrypt_stored1 w k c i Hk).
Qed.

(* ================================================================= *)
(** ** The statements on concrete runs *)

Lemma drop_prefix_app p s : ModelCipher.drop_prefix p (p ++ s) = Some s.
Proof.
  induction p as [|x p IH]; simpl; [reflexivity|].
  rewrite Z.eqb_refl. exact IH.
Qed.

Lemma model_cipher_round_trip : AesRoundTrip ModelCipher.lib.
Proof.
  intros text key i alg c. simpl. unfold ModelCipher.encrypt, ModelCipher.decrypt.
  intros [= <-]. rewrite app_assoc, drop_prefix_app. reflexivity.
Qed.


Lemma linked_laws : EncryptionLaws Scenario.linked stored_key (@decrypt_with1 ModelCipher.lib).
Proof. apply (@service1_laws ModelCipher.lib). exact model_cipher_round_trip. Qed.

Lemma operational_computed d :
  database d = true -> table d = Some (current_table d) -> operational d.
Proof. intros Hd Ht. eapply operational_open; eassumption. Qed.

Ltac evaluated := vm_compute; reflexivity.

Lemma scenario_operational :
  operational (db ModelCipher.fresh_world)
  /\ operational (db Scenario.one_note)
  /\ operational (db (Scenario.at_time 4000 Scenario.three_notes))
  /\ operational (db (Scenario.corrupted 3 Scenario.three_notes_edited)).
Proof.
  split; [reflexivity|].
  split; [|split]; apply operational_computed; evaluated.
Qed.

(** *** The built-ins on known values *)

Example btoa_hello : btoa (js "hello") = Ok (js "aGVsbG8=").
Proof. reflexivity. Qed.

Example atob_hello : atob (js "aGVsbG8=") = Ok (js "hello").
Proof. reflexivity. Qed.

Example atob_unpadded : atob (js "aGk") = Ok (js "hi").
Proof. reflexivity. Qed.

Example atob_rejects : atob (js "a$bc") = Err (JsError "InvalidCharacterError").
Proof. reflexivity. Qed.

Example btoa_rejects_wide : btoa [8364] = Err (JsError "InvalidCharacterError").
Proof. reflexivity. Qed.

Example encodeURIComponent_text :
  encodeURIComponent (js "a b&c" ++ [233; 8364; 55357; 56832])
  = Ok (js "a%20b%26c%C3%A9%E2%82%AC%F0%9F%98%80").
Proof. reflexivity. Qed.

Example decodeURIComponent_text :
  decodeURIComponent (js "a%20b%26c%C3%A9%E2%82%AC%F0%9F%98%80")
  = Ok (js "a b&c" ++ [233; 8364; 55357; 56832]).
Proof. reflexivity. Qed.

Example decodeURIComponent_overlong : decodeURIComponent (js "%C0%80") = Err (JsError "URIError").
Proof. reflexivity. Qed.

Example encodeURIComponent_lone_surrogate :
  encodeURIComponent [55357] = Err (JsError "URIError").
Proof. reflexivity. Qed.

Example toString16_values :
  map Number_toString16 [0; 9; 10; 255; 256] = [js "0"; js "9"; js "a"; js "ff"; js "100"].
Proof. reflexivity. Qed.

Example padStart_values :
  (String_padStart 2 (js "0") (js "a"), String_padStart 2 (js "0") (js "abc"))
  = (js "0a", js "abc").
Proof. reflexivity. Qed.

(** The fallback pair of the second revision inverts on Latin-1 text
    and not beyond it: a character above 255 takes the
    [encodeURIComponent] path on the way in, which the way back never
    undoes. *)
Example fallback_round_trip_latin1 :
  EncryptionService2.simpleFallbackEncrypt (js "hi") = Ok (js "Oww=")
  /\ EncryptionService2.simpleFallbackDecrypt (js "Oww=") = js "hi".
Proof. split; reflexivity. Qed.

Example fallback_round_trip_wide :
  EncryptionService2.simpleFallbackEncrypt [8364] = Ok (js "JUUyJTgzJUJG")
  /\ EncryptionService2.simpleFallbackDecrypt (js "JUUyJTgzJUJG") <> [8364].
Proof. split; [reflexivity | discriminate]. Qed.

(** *** Evaluations on the concrete runs *)

Example scenario_rows :
  map (fun r => (col_id r, col_createdAt r, col_updatedAt r))
      (Scenario.rows_of Scenario.three_notes_edited)
  = [(1, 1000, 4000); (2, 2000, 2000); (3, 3000, 3000)].
Proof. evaluated. Qed.

Example listing_order :
  map (fun n => (id n, updatedAt n))
      (match fst (@DatabaseService.getAllNotes Scenario.linked Scenario.three_notes_edited) with
       | Ok notes => notes
       | Err _ => []
       end)
  = [(Some 1, Some 4000); (Some 3, Some 3000); (Some 2, Some 2000)].
Proof. evaluated. Qed.

Example listing_skips_corrupted :
  map (fun n => (id n, title n, content n))
      (match fst (@DatabaseService.getAllNotes Scenario.linked
                    (Scenario.corrupted 3 Scenario.three_notes_edited)) with
       | Ok notes => notes
       | Err _ => []
       end)
  = [(Some 1, js "A", js "a2"); (Some 2, js "B", js "b")].
Proof. evaluated. Qed.

Example getNote_corrupted :
  fst (@DatabaseService.getNote Scenario.linked 3
         (Scenario.corrupted 3 Scenario.three_notes_edited))
  = Err (JsError "Failed to decrypt note data").
Proof. evaluated. Qed.

(** *** Instances *)

Lemma getEncryptionKey_same_key_witness :
  Scenario.first_run = (Ok Scenario.first_key, snd Scenario.first_run) /\
  forall rs,
    @EncryptionService1.getEncryptionKey ModelCipher.lib
        (@after_requests ModelCipher.lib rs (snd Scenario.first_run))
    = (Ok Scenario.first_key, @after_requests ModelCipher.lib rs (snd Scenario.first_run)).
Proof.
  assert (H : Scenario.first_run = (Ok Scenario.first_key, snd Scenario.first_run))
    by evaluated.
  split; [exact H|].
  exact (proj1 (@getEncryptionKey_same_key ModelCipher.lib _ _ _ H)).
Defined.

Lemma decrypt_encrypt_round_trip_witness :
  Scenario.first_encrypt = (Ok Scenario.first_encrypted, snd Scenario.first_encrypt) /\
  @EncryptionService1.decrypt ModelCipher.lib
      (encrypted Scenario.first_encrypted) (iv Scenario.first_encrypted)
      (snd Scenario.first_encrypt)
  = (Ok Scenario.unicode_text, snd Scenario.first_encrypt).
Proof.
  assert (H : Scenario.first_encrypt = (Ok Scenario.first_encrypted, snd Scenario.first_encrypt))
    by evaluated.
  split; [exact H|].
  exact (@decrypt_encrypt_round_trip ModelCipher.lib model_cipher_round_trip _ _ _ _ [] H).
Defined.

Lemma getAllNotes_lists_decodable_witness :
  exists notes w',
    @DatabaseService.getAllNotes Scenario.linked
        (Scenario.corrupted 3 Scenario.three_notes_edited) = (Ok notes, w')
    /\ Sorted modified_not_before notes.
Proof.
  destruct (@getAllNotes_lists_decodable Scenario.linked
              (Scenario.corrupted 3 Scenario.three_notes_edited)
              (proj2 (proj2 (proj2 scenario_operational))))
    as (notes & w' & Hrun & _ & _ & _ & Hsorted).
  exists notes, w'. split; assumption.
Defined.

Lemma getNote_absent_or_fails_witness :
  @DatabaseService.getNote Scenario.linked 9 (Scenario.corrupted 3 Scenario.three_notes_edited)
    = (Ok None,
       set_db (opened (db (Scenario.corrupted 3 Scenario.three_notes_edited)))
              (Scenario.corrupted 3 Scenario.three_notes_edited))
  /\ fst (@DatabaseService.getNote Scenario.linked 3
            (Scenario.corrupted 3 Scenario.three_notes_edited))
     = Err (JsError "Failed to decrypt note data").
Proof.
  set (w := Scenario.corrupted 3 Scenario.three_notes_edited).
  assert (Hop : operational (db w)) by exact (proj2 (proj2 (proj2 scenario_operational))).
  split.
  - apply (proj1 (@getNote_absent_or_fails Scenario.linked 9 w Hop)).
    apply Forall_forall.
    apply (bool_decide_unpack (Forall (fun r => col_id r <> 9) (rows (current_table (db w))))).
    vm_compute. exact I.
  - set (row := Scenario.row_with_id 3 w).
    set (t := @EncryptionService.decrypt Scenario.linked (col_titleEncrypted row) (col_titleIv row) (crypto w)).
    set (c := @EncryptionService.decrypt Scenario.linked (col_contentEncrypted row) (col_contentIv row) (snd t)).
    apply (proj2 (proj2 (@getNote_absent_or_fails Scenario.linked 3 w Hop) row
                   (tail (table_select_by_id 3 (current_table (db w)))) ltac:(evaluated))
             (Scenario.value_of [] (fst t)) (snd t) (Scenario.error_of (fst c)) (snd c));
      evaluated.
Defined.

Lemma saveNote_updates_in_place_witness :
  exists w',
    @DatabaseService.saveNote Scenario.linked (Scenario.edited_note 1 (js "A") (js "a2"))
        (Scenario.at_time 4000 Scenario.three_notes) = (Ok 1, w')
    /\ length (rows (current_table (db w'))) = 3%nat.
Proof.
  set (w := Scenario.at_time 4000 Scenario.three_notes).
  set (t := @EncryptionService.encrypt Scenario.linked (js "A") (crypto w)).
  set (c := @EncryptionService.encrypt Scenario.linked (js "a2") (snd t)).
  destruct (@saveNote_updates_in_place Scenario.linked
              (Scenario.edited_note 1 (js "A") (js "a2")) 1 w
              (Scenario.value_of Scenario.first_encrypted (fst t)) (snd t)
              (Scenario.value_of Scenario.first_encrypted (fst c)) (snd c)
              eq_refl ltac:(discriminate)
              (proj1 (proj2 (proj2 scenario_operational)))
              ltac:(evaluated) ltac:(evaluated))
    as (w' & Hsave & Hrows).
  exists w'. split; [exact Hsave|].
  rewrite <- (Forall2_length _ _ _ Hrows). evaluated.
Defined.

Lemma saveNote_absent_id_witness :
  exists w',
    @DatabaseService.saveNote Scenario.linked (Scenario.edited_note 7 (js "T") (js "C"))
        Scenario.one_note = (Ok 7, w')
    /\ current_table (db w') = current_table (db Scenario.one_note)
    /\ @DatabaseService.getNote Scenario.linked 7 w' = (Ok None, w').
Proof.
  set (w := Scenario.one_note).
  set (t := @EncryptionService.encrypt Scenario.linked (js "T") (crypto w)).
  set (c := @EncryptionService.encrypt Scenario.linked (js "C") (snd t)).
  apply (@saveNote_absent_id Scenario.linked
           (Scenario.edited_note 7 (js "T") (js "C")) 7 w
           (Scenario.value_of Scenario.first_encrypted (fst t)) (snd t)
           (Scenario.value_of Scenario.first_encrypted (fst c)) (snd c)
           eq_refl ltac:(discriminate)
           (proj1 (proj2 scenario_operational))
           ltac:(evaluated) ltac:(evaluated)).
  apply Forall_forall.
  apply (bool_decide_unpack (Forall (fun r => col_id r <> 7) (rows (current_table (db w))))).
  vm_compute. exact I.
Defined.


Lemma decrypt_iv_validation_witness :
  EncryptionService2.decrypt (Some ModelCipher.native) (js "x") [] ModelCipher.fresh_crypto =
    (Err (JsError "Failed to decrypt data"),
     snd (EncryptionService2.getEncryptionKey (Some ModelCipher.native) ModelCipher.fresh_crypto)).
Proof.
  exact (proj1 (decrypt_iv_validation (Some ModelCipher.native) ModelCipher.lib (js "x") []
                  ModelCipher.fresh_crypto (or_introl eq_refl))).
Defined.

(** *** Where the code departs from the specification *)

Lemma saveNote_update_counterexample :
  (* the id 0 is present, yet a row is inserted and another id returned *)
  (map col_id (Scenario.rows_of Scenario.one_note) = [1]
   /\ fst (@DatabaseService.saveNote Scenario.linked
             (Scenario.edited_note 0 (js "T") (js "C")) Scenario.one_note) = Ok 2
   /\ map col_id (Scenario.rows_of
                    (Scenario.saved (Scenario.edited_note 0 (js "T") (js "C")) Scenario.one_note))
      = [1; 2])
  (* an update at the clock reading of the insert: updatedAt stays *)
  /\ (now Scenario.one_note = 1000
      /\ map col_updatedAt (Scenario.rows_of Scenario.one_note) = [1000]
      /\ fst (@DatabaseService.saveNote Scenario.linked
                (Scenario.edited_note 1 (js "T") (js "C")) Scenario.one_note) = Ok 1
      /\ map col_updatedAt
           (Scenario.rows_of
              (Scenario.saved (Scenario.edited_note 1 (js "T") (js "C")) Scenario.one_note))
         = [1000]).
Proof. repeat (match goal with |- _ /\ _ => split end); evaluated. Qed.

Lemma saveNote_zero_id_counterexample :
  Scenario.rows_of ModelCipher.fresh_world = []
  /\ fst (@DatabaseService.saveNote Scenario.linked
            (Scenario.edited_note 0 (js "T") (js "C")) ModelCipher.fresh_world) = Ok 1
  /\ map col_id (Scenario.rows_of
                   (Scenario.saved (Scenario.edited_note 0 (js "T") (js "C"))
                                   ModelCipher.fresh_world)) = [1].
Proof. repeat (match goal with |- _ /\ _ => split end); evaluated. Qed.

Lemma decrypt_unchecked_iv_counterexample :
  (* first revision: the empty IV reaches the primitive, and the call succeeds *)
  @EncryptionService1.decrypt ModelCipher.lib (Scenario.first_key ++ js "secret") []
      (snd Scenario.first_run)
  = (Ok (js "secret"), snd Scenario.first_run)
  (* second revision: a rejected IV and a failed decryption throw the same error *)
  /\ fst (EncryptionService2.decrypt (Some ModelCipher.native) (js "x") []
            (snd Scenario.first_run))
     = Err (JsError "Failed to decrypt data")
  /\ fst (EncryptionService2.decrypt (Some ModelCipher.native) (js "x")
            (js "000102030405060708090a0b0c0d0e0f") (snd Scenario.first_run))
     = Err (JsError "Failed to decrypt data").
Proof. repeat (match goal with |- _ /\ _ => split end); evaluated. Qed.

Lemma encrypt_fallback_counterexample :
  EncryptionService2.native_function Scenario.no_native RNAes_encrypt = None
  /\ fst (EncryptionService2.encrypt Scenario.no_native (js "hi") ModelCipher.fresh_crypto)
     = Ok {| encrypted := js "Oww=";
             iv := js "303132333435363738393a3b3c3d3e3f" |}
  /\ base64_encode (EncryptionService2.xor_with_key (js "SecureNotesDevKey") (js "hi"))
     = js "Oww=".
Proof. repeat (match goal with |- _ /\ _ => split end); evaluated. Qed.


(* ================================================================= *)
(** ** Further properties of the database service *)

(** *** Further facts on the table *)

Lemma with_table_same t w :
  database (db w) = true -> table (db w) = Some t -> with_table t w = w.
Proof.
  intros Hd Ht. unfold with_table. rewrite (opened_idem _ Hd), (set_table_same _ _ Ht).
  apply set_db_same.
Qed.

Lemma current_table_with_table t w : current_table (db (with_table t w)) = t.
Proof. reflexivity. Qed.

Lemma table_delete_rows i t :
  rows (table_delete i t) = filter (fun r => col_id r <> i) (rows t).
Proof. reflexivity. Qed.

Lemma table_delete_idem i t : table_delete i (table_delete i t) = table_delete i t.
Proof.
  unfold table_delete. simpl. f_equal.
  induction (rows t) as [|r rs IH]; [reflexivity|].
  rewrite filter_cons. destruct (decide (col_id r <> i)) as [Hne|He].
  - rewrite !filter_cons. destruct (decide (col_id r <> i)); [|contradiction].
    f_equal. exact IH.
  - exact IH.
Qed.

Lemma table_delete_absent i t :
  (forall r, r ∈ rows t -> col_id r <> i) -> table_delete i t = t.
Proof.
  intros H. unfold table_delete. destruct t as [rs s]. simpl in *. f_equal.
  induction rs as [|r rs IH]; [reflexivity|].
  rewrite filter_cons. destruct (decide (col_id r <> i)) as [_|He].
  - f_equal. apply IH. intros x Hx. apply H. right. exact Hx.
  - exfalso. apply He. apply H. left.
Qed.

Lemma table_delete_gone i t r : r ∈ rows (table_delete i t) -> col_id r <> i.
Proof. rewrite table_delete_rows. intros H. apply list_elem_of_filter in H. tauto. Qed.

Section DatabaseMore.
Context {ES : EncryptionService.API}.
Import DatabaseService.

(** Property X1. On a database that can serve the request,
    [deleteNote i] succeeds whatever [i] is: it removes exactly the
    rows with that id and keeps the others in their order, leaves the
    encryption service's state alone, and afterwards [getNote i]
    returns [null] and a second [deleteNote i] succeeds again; with no
    row of that id the table is unchanged. *)
Theorem deleteNote_removes i w :
  operational (db w) ->
  exists w',
    deleteNote i w = (Ok tt, w')
    /\ rows (current_table (db w'))
       = filter (fun r => col_id r <> i) (rows (current_table (db w)))
    /\ crypto w' = crypto w
    /\ getNote i w' = (Ok None, w')
    /\ deleteNote i w' = (Ok tt, w')
    /\ ((forall r, r ∈ rows (current_table (db w)) -> col_id r <> i) ->
        current_table (db w') = current_table (db w)).
Proof.
  intros Hop. set (t := current_table (db w)).
  exists (with_table (table_delete i t) w).
  destruct (with_table_db (table_delete i t) w Hop) as [Hd Ht].
  assert (Hop' : operational (db (with_table (table_delete i t) w)))
    by (eapply operational_open; eassumption).
  split; [apply deleteNote_run, Hop|]. split; [reflexivity|]. split; [reflexivity|].
  split; [|split].
  - rewrite (getNote_run _ _ Hop'). rewrite current_table_with_table.
    unfold table_select_by_id. rewrite select_none by apply table_delete_gone.
    rewrite (set_db_opened _ Hd). reflexivity.
  - rewrite (deleteNote_run _ _ Hop'). rewrite current_table_with_table, table_delete_idem.
    rewrite (with_table_same _ _ Hd Ht). reflexivity.
  - intros Habs. rewrite current_table_with_table. apply table_delete_absent. exact Habs.
Qed.


Lemma ensure_init_frame w r w0 :
  ensure_init w = (r, w0) ->
  crypto w0 = crypto w /\ now w0 = now w
  /\ current_table (db w0) = current_table (db w)
  /\ (forall e, r = Err e -> w0 = w).
Proof.
  destruct w as [c [b t o] n].
  unfold ensure_init, init, try_catch, bind, in_db, zoom, SQLite_openDatabase, createTables,
    executeSql_create_table, throw, current_table. simpl.
  destruct b; simpl; [intros [= <- <-]; repeat split; intros; discriminate|].
  destruct o; simpl.
  - destruct t; simpl; intros [= <- <-]; repeat split; intros; discriminate.
  - intros [= <- <-]. repeat split.
Qed.

Lemma current_table_opened d : current_table (opened d) = current_table d.
Proof. unfold opened, current_table. destruct (database d); reflexivity. Qed.

Lemma saveNote_outcome note w r w' :
  saveNote note w = (r, w') ->
  now w' = now w /\
  match r with
  | Err _ => current_table (db w') = current_table (db w)
  | Ok n =>
      exists te ti ce ci,
        match truthy_id (id note) with
        | Some i =>
            n = i /\
            current_table (db w')
            = table_update te ti ce ci (now w) i (current_table (db w))
        | None =>
            (n, current_table (db w'))
            = table_insert te ti ce ci (or_else (createdAt note) (now w)) (now w)
                           (current_table (db w))
        end
  end.
Proof.
  destruct r as [n|e].
  - intros Hsave.
    destruct (saveNote_returns _ _ _ _ Hsave) as (Hop & e1 & c1 & e2 & c2 & H1 & H2).
    rewrite (saveNote_run _ _ _ _ _ _ Hop H1 H2) in Hsave.
    destruct (truthy_id (id note)) as [i|].
    + injection Hsave as <- <-. split; [reflexivity|].
      exists (encrypted e1), (iv e1), (encrypted e2), (iv e2). split; reflexivity.
    + unfold table_insert in Hsave. injection Hsave as <- <-. split; [reflexivity|].
      exists (encrypted e1), (iv e1), (encrypted e2), (iv e2). reflexivity.
  - unfold saveNote, bind at 1.
    destruct (ensure_init w) as [[[]|x] w0] eqn:Hi.
    + pose proof (ensure_init_result _ _ _ Hi) as [Hd Hcase].
      apply ensure_init_frame in Hi. destruct Hi as (Hc0 & Hn0 & Ht0 & _).
      unfold bind at 1, Date_now. unfold bind at 1, in_crypto at 1, zoom at 1.
      destruct (EncryptionService.encrypt (title note) (crypto w0)) as [[e1|x] c1];
        [|intros [= <- <-]; split; assumption].
      unfold bind at 1, in_crypto at 1, zoom at 1. cbn [crypto set_crypto].
      destruct (EncryptionService.encrypt (content note) c1) as [[e2|x] c2];
        [|intros [= <- <-]; split; assumption].
      destruct Hcase as [[Hop ->]|Hnone].
      * destruct (truthy_id (id note)); unfold bind;
          erewrite executeSql_on_table by (simpl; apply opened_table, Hop);
          [discriminate | unfold table_insert; discriminate].
      * destruct (truthy_id (id note)); unfold bind;
          rewrite executeSql_no_table by (simpl; exact Hnone);
          intros [= <- <-]; split; assumption.
    + apply ensure_init_frame in Hi. destruct Hi as (_ & Hn0 & Ht0 & _).
      intros [= <- <-]. split; assumption.
Qed.

(** *** The primary key *)

Lemma well_keyed_empty : well_keyed empty_table.
Proof. split; constructor. Qed.

Lemma max_rowid_nonneg rs : 0 <= max_rowid rs.
Proof. induction rs as [|r rs IH]; simpl; lia. Qed.

Lemma well_keyed_insert te ti ce ci cr up t :
  well_keyed t -> well_keyed (snd (table_insert te ti ce ci cr up t)).
Proof.
  intros [Hnd Hall]. unfold table_insert. simpl.
  pose proof (max_rowid_nonneg (rows t)) as Hmax.
  assert (Hlt : forall r, r ∈ rows t -> col_id r < next_rowid t) by apply next_rowid_fresh.
  split.
  - cbn [rows]. rewrite List.map_app. simpl. apply NoDup_app. split; [exact Hnd|]. split.
    + intros x Hx Hin. apply list_elem_of_singleton in Hin. subst x.
      apply list_elem_of_fmap in Hx. destruct Hx as (r & Hr & Hin).
      apply Hlt in Hin. lia.
    + apply NoDup_singleton.
  - cbn [rows sqlite_sequence]. apply Forall_app. split.
    + eapply Forall_impl; [exact Hall|]. simpl. intros r Hr. unfold next_rowid. lia.
    + constructor; [|constructor]. simpl. unfold next_rowid. lia.
Qed.

Lemma update_row_id te ti ce ci up i r : col_id (update_row te ti ce ci up i r) = col_id r.
Proof. unfold update_row. destruct (col_id r =? i); reflexivity. Qed.

Lemma well_keyed_update te ti ce ci up i t :
  well_keyed t -> well_keyed (table_update te ti ce ci up i t).
Proof.
  intros [Hnd Hall]. unfold table_update. split; simpl.
  - rewrite List.map_map. erewrite List.map_ext; [exact Hnd|]. intros r. apply update_row_id.
  - apply Forall_fmap. eapply Forall_impl; [exact Hall|]. intros r Hr. simpl.
    rewrite update_row_id. exact Hr.
Qed.

Lemma well_keyed_delete i t : well_keyed t -> well_keyed (table_delete i t).
Proof.
  intros [Hnd Hall]. unfold table_delete. split; simpl.
  - clear Hall. induction (rows t) as [|r rs IH]; [constructor|].
    simpl in Hnd. apply NoDup_cons in Hnd. destruct Hnd as [Hnot Hnd].
    rewrite filter_cons. destruct (decide (col_id r <> i)); [|apply IH, Hnd].
    simpl. apply NoDup_cons. split; [|apply IH, Hnd].
    intros Hin. apply Hnot. apply list_elem_of_fmap in Hin. destruct Hin as (x & Hx & Hin).
    apply list_elem_of_filter in Hin. apply list_elem_of_fmap. exists x. tauto.
  - rewrite Forall_forall in Hall. apply Forall_forall. intros r Hr.
    apply list_elem_of_filter in Hr. apply Hall. tauto.
Qed.

(** Property X2. The primary key is an invariant of [saveNote] and
    [deleteNote], whether they succeed or throw: when the ids of the
    table are pairwise distinct, positive and not above the
    AUTOINCREMENT counter, they still are afterwards; the counter never
    decreases; and the id an insert returns is above the counter and
    above every id of the table. *)
Theorem primary_key_kept note i w :
  well_keyed (current_table (db w)) ->
  well_keyed (current_table (db (snd (saveNote note w))))
  /\ well_keyed (current_table (db (snd (deleteNote i w))))
  /\ sqlite_sequence (current_table (db w))
     <= sqlite_sequence (current_table (db (snd (saveNote note w))))
  /\ (forall n, fst (saveNote note w) = Ok n -> truthy_id (id note) = None ->
      sqlite_sequence (current_table (db w)) < n
      /\ forall r, r ∈ rows (current_table (db w)) -> col_id r < n).
Proof.
  intros Hwk.
  destruct (saveNote note w) as [r w'] eqn:Hsave. cbn [fst snd].
  pose proof (saveNote_outcome _ _ _ _ Hsave) as [_ Hout].
  assert (Hdel : well_keyed (current_table (db (snd (deleteNote i w))))).
  { unfold deleteNote, bind.
    destruct (ensure_init w) as [[[]|x] w0] eqn:Hi.
    - apply ensure_init_frame in Hi. destruct Hi as (_ & _ & Ht0 & _).
      unfold in_db, zoom, executeSql.
      destruct (table (db w0)) as [t0|] eqn:Ht; simpl.
      + unfold current_table in Ht0. rewrite Ht in Ht0. simpl in Ht0. subst t0.
        apply well_keyed_delete, Hwk.
      + unfold current_table at 1. simpl. rewrite Ht. simpl.
        unfold current_table in Ht0. rewrite Ht in Ht0. simpl in Ht0. rewrite Ht0. exact Hwk.
    - apply ensure_init_frame in Hi. destruct Hi as (_ & _ & Ht0 & _).
      simpl. rewrite Ht0. exact Hwk. }
  destruct r as [n|e].
  - destruct Hout as (te & ti & ce & ci & Hout).
    destruct (truthy_id (id note)) as [j|].
    + destruct Hout as [-> Ht]. rewrite Ht.
      split; [apply well_keyed_update, Hwk|]. split; [exact Hdel|].
      split; [simpl; lia | discriminate].
    + assert (Ht : current_table (db w')
                   = snd (table_insert te ti ce ci (or_else (createdAt note) (now w)) (now w)
                            (current_table (db w)))) by (rewrite <- Hout; reflexivity).
      assert (Hn : n = next_rowid (current_table (db w)))
        by (unfold table_insert in Hout; congruence).
      rewrite Ht. split; [apply well_keyed_insert, Hwk|]. split; [exact Hdel|].
      pose proof (max_rowid_nonneg (rows (current_table (db w)))).
      split; [simpl; unfold next_rowid; lia|].
      intros n' [= <-] _. rewrite Hn. split; [unfold next_rowid; lia|].
      apply next_rowid_fresh.
  - rewrite Hout. split; [exact Hwk|]. split; [exact Hdel|]. split; [lia | discriminate].
Qed.

(** Property X4. A [saveNote] that throws has written no row: the
    table is as it was (both fields are encrypted before the first SQL
    statement), and the clock is not changed by the call. *)
Theorem saveNote_failure_writes_nothing note w e w' :
  saveNote note w = (Err e, w') ->
  current_table (db w') = current_table (db w) /\ now w' = now w.
Proof.
  intros Hsave. apply saveNote_outcome in Hsave. destruct Hsave as [Hn Ht].
  split; assumption.
Qed.


Lemma deleteNote_table i w :
  current_table (db (snd (deleteNote i w))) = table_delete i (current_table (db w))
  \/ current_table (db (snd (deleteNote i w))) = current_table (db w).
Proof.
  unfold deleteNote, bind.
  destruct (ensure_init w) as [[[]|x] w0] eqn:Hi;
    apply ensure_init_frame in Hi; destruct Hi as (_ & _ & Ht0 & _).
  - unfold in_db, zoom, executeSql.
    destruct (table (db w0)) as [t0|] eqn:Ht; simpl.
    + left. unfold current_table in Ht0. rewrite Ht in Ht0. simpl in Ht0. subst t0.
      reflexivity.
    + right. unfold current_table at 1. simpl. rewrite Ht. simpl.
      unfold current_table in Ht0. rewrite Ht in Ht0. exact Ht0.
  - right. exact Ht0.
Qed.

(** Property X3. The id of a deleted note is not given to a later
    note: after [deleteNote] of a row's id, the id an inserting
    [saveNote] returns is larger (the column is AUTOINCREMENT). *)
Theorem deleted_id_not_reused note row w n :
  well_keyed (current_table (db w)) ->
  row ∈ rows (current_table (db w)) ->
  truthy_id (id note) = None ->
  fst (saveNote note (snd (deleteNote (col_id row) w))) = Ok n ->
  col_id row < n.
Proof.
  intros [_ Hall] Hrow Hid Hsave.
  rewrite Forall_forall in Hall. specialize (Hall row Hrow).
  destruct (saveNote note (snd (deleteNote (col_id row) w))) as [r w'] eqn:Hs.
  simpl in Hsave. subst r.
  apply saveNote_outcome in Hs. destruct Hs as [_ (te & ti & ce & ci & Hout)].
  rewrite Hid in Hout. unfold table_insert in Hout. injection Hout as -> _.
  pose proof (max_rowid_nonneg (rows (current_table (db (snd (deleteNote (col_id row) w)))))).
  assert (Hseq : sqlite_sequence (current_table (db (snd (deleteNote (col_id row) w))))
                 = sqlite_sequence (current_table (db w))).
  { destruct (deleteNote_table (col_id row) w) as [-> | ->]; reflexivity. }
  unfold next_rowid. lia.
Qed.

(** *** Reading *)

Lemma decryptNote_frame e w r w' :
  decryptNote e w = (r, w') -> db w' = db w /\ now w' = now w.
Proof. intros H. apply decryptNote_result in H. tauto. Qed.

Lemma decrypt_rows_frame rs : forall acc w r w',
  decrypt_rows rs acc w = (r, w') -> db w' = db w /\ now w' = now w.
Proof.
  induction rs as [|row rest IH]; intros acc w r w'; simpl.
  - intros [= <- <-]. split; reflexivity.
  - unfold bind at 1, try_catch, bind at 1.
    destruct (decryptNote (as_EncryptedNote row) w) as [[note|x] w1] eqn:Hd;
      apply decryptNote_frame in Hd; destruct Hd as [Hdb Hnow]; simpl;
      intros Hrun; apply IH in Hrun; destruct Hrun as [-> ->]; split; assumption.
Qed.

Lemma query_frame {A} (q : Table -> A) w r w' :
  in_db (executeSql (fun tb => (q tb, tb))) w = (r, w') -> w' = w.
Proof.
  destruct w as [c [b t o] n]. unfold in_db, zoom, executeSql. simpl.
  destruct t; simpl; intros [= <- <-]; reflexivity.
Qed.

Lemma getNote_frame i w r w' :
  getNote i w = (r, w') ->
  current_table (db w') = current_table (db w) /\ now w' = now w.
Proof.
  unfold getNote, bind at 1.
  destruct (ensure_init w) as [[[]|x] w0] eqn:Hi;
    apply ensure_init_frame in Hi; destruct Hi as (_ & Hn0 & Ht0 & _);
    [|intros [= <- <-]; split; assumption].
  unfold bind at 1.
  destruct (in_db (executeSql (fun tb => (table_select_by_id i tb, tb))) w0)
    as [[results|x] w1] eqn:Hq; apply query_frame in Hq; subst w1;
    [|intros [= <- <-]; split; assumption].
  destruct results as [|row others]; [intros [= <- <-]; split; assumption|].
  unfold bind.
  destruct (decryptNote (as_EncryptedNote row) w0) as [[note|x] w2] eqn:Hd;
    apply decryptNote_frame in Hd; destruct Hd as [Hdb Hnow];
    intros [= <- <-]; rewrite Hdb, Hnow; split; assumption.
Qed.

Lemma getAllNotes_frame w r w' :
  getAllNotes w = (r, w') ->
  current_table (db w') = current_table (db w) /\ now w' = now w.
Proof.
  unfold getAllNotes, bind at 1.
  destruct (ensure_init w) as [[[]|x] w0] eqn:Hi;
    apply ensure_init_frame in Hi; destruct Hi as (_ & Hn0 & Ht0 & _);
    [|intros [= <- <-]; split; assumption].
  unfold bind at 1.
  destruct (in_db (executeSql (fun tb => (table_select_all_ordered tb, tb))) w0)
    as [[results|x] w1] eqn:Hq; apply query_frame in Hq; subst w1;
    [|intros [= <- <-]; split; assumption].
  intros Hrun. apply decrypt_rows_frame in Hrun. destruct Hrun as [Hdb Hnow].
  rewrite Hdb, Hnow. split; assumption.
Qed.

(** Property X5. [getNote] and [getAllNotes] are read-only on the
    stored notes, whatever they return: the table after the call is the
    table before it. *)
Theorem reads_change_nothing_stored i w :
  current_table (db (snd (getNote i w))) = current_table (db w)
  /\ now (snd (getNote i w)) = now w
  /\ current_table (db (snd (getAllNotes w))) = current_table (db w)
  /\ now (snd (getAllNotes w)) = now w.
Proof.
  destruct (getNote i w) as [r1 w1] eqn:H1. apply getNote_frame in H1.
  destruct (getAllNotes w) as [r2 w2] eqn:H2. apply getAllNotes_frame in H2.
  cbn [snd]. tauto.
Qed.

Lemma getNote_returns i w o w' :
  getNote i w = (Ok o, w') -> operational (db w).
Proof.
  unfold getNote, bind at 1.
  destruct (ensure_init w) as [[[]|x] w0] eqn:Hi; [|discriminate].
  apply ensure_init_result in Hi. destruct Hi as [Hd [[Hop _]|Hnone]]; [intros _; exact Hop|].
  unfold bind. rewrite executeSql_no_table by exact Hnone. discriminate.
Qed.

(** Property X6. What [getNote i] returns is made of a row of the
    table: the note has id [i], the row has id [i], the timestamps are
    the row's, and title and content are what [decrypt] returned for
    the row's two ciphertexts, title first. *)
Theorem getNote_returns_the_row i w note w' :
  getNote i w = (Ok (Some note), w') ->
  id note = Some i
  /\ exists row,
       row ∈ rows (current_table (db w))
       /\ col_id row = i
       /\ createdAt note = Some (col_createdAt row)
       /\ updatedAt note = Some (col_updatedAt row)
       /\ exists c1,
            EncryptionService.decrypt (col_titleEncrypted row) (col_titleIv row) (crypto w)
              = (Ok (title note), c1)
            /\ EncryptionService.decrypt (col_contentEncrypted row) (col_contentIv row) c1
               = (Ok (content note), crypto w').
Proof.
  intros Hget. pose proof (getNote_returns _ _ _ _ Hget) as Hop.
  rewrite (getNote_run _ _ Hop) in Hget.
  destruct (table_select_by_id i (current_table (db w))) as [|row others] eqn:Hsel;
    [discriminate|].
  assert (Hin : row ∈ table_select_by_id i (current_table (db w)))
    by (rewrite Hsel; left).
  unfold table_select_by_id in Hin. apply list_elem_of_filter in Hin. destruct Hin as [Hid Hin].
  unfold bind in Hget.
  destruct (decryptNote (as_EncryptedNote row) (set_db (opened (db w)) w)) as [[n|x] w1] eqn:Hd;
    [|discriminate].
  injection Hget as <- <-.
  apply decryptNote_result in Hd.
  destruct Hd as (_ & _ & Hi & Hc & Hu & c1 & Ht & Hco). simpl in *.
  split; [congruence|]. exists row. repeat split; try assumption.
  exists c1. split; assumption.
Qed.


(** *** Closing and reopening *)

Lemma ensure_init_after_close w :
  operational (db w) -> openable (db w) = true ->
  ensure_init (snd (close w)) = ensure_init w.
Proof.
  destruct w as [c [b t o] n].
  unfold operational, close, ensure_init, init, try_catch, bind, in_db, zoom,
    SQLite_openDatabase, createTables, executeSql_create_table. simpl.
  destruct b; simpl; [|reflexivity].
  intros [t0 ->] ->. reflexivity.
Qed.

(** Property X7. [close] drops the connection and nothing else: as
    long as the database file can be opened again, every operation
    after [close] gives exactly what it would have given without it
    (each operation reopens the database). *)
Theorem close_is_transparent note i w :
  operational (db w) -> openable (db w) = true ->
  database (db (snd (close w))) = false
  /\ current_table (db (snd (close w))) = current_table (db w)
  /\ saveNote note (snd (close w)) = saveNote note w
  /\ getNote i (snd (close w)) = getNote i w
  /\ getAllNotes (snd (close w)) = getAllNotes w
  /\ deleteNote i (snd (close w)) = deleteNote i w.
Proof.
  intros Hop Ho. pose proof (ensure_init_after_close w Hop Ho) as Hre.
  split; [|split].
  - unfold close. destruct (database (db w)) eqn:Hd; [reflexivity | exact Hd].
  - unfold close. destruct (database (db w)); reflexivity.
  - unfold saveNote, getNote, getAllNotes, deleteNote, bind. rewrite Hre.
    repeat split; reflexivity.
Qed.

(** Property X8. With no connection and a database file that cannot
    be opened, each of the four operations throws
    [Error('Failed to initialize database')] and changes nothing: the
    encryption service is not reached. *)
Theorem unopenable_database_fails note i w :
  database (db w) = false -> openable (db w) = false ->
  saveNote note w = (Err (JsError "Failed to initialize database"), w)
  /\ getNote i w = (Err (JsError "Failed to initialize database"), w)
  /\ getAllNotes w = (Err (JsError "Failed to initialize database"), w)
  /\ deleteNote i w = (Err (JsError "Failed to initialize database"), w).
Proof.
  intros Hd Ho.
  assert (Hi : ensure_init w = (Err (JsError "Failed to initialize database"), w)).
  { destruct w as [c [b t o] n]. simpl in *. subst b o. reflexivity. }
  unfold saveNote, getNote, getAllNotes, deleteNote, bind. rewrite Hi.
  repeat split; reflexivity.
Qed.

End DatabaseMore.

(** *** resetDatabase *)

Section Reset.
Context {ES : EncryptionService.API}.
Variable resetEncryptionKey : M CryptoWorld unit.
Import DatabaseService.

Lemma resetDatabase_run w :
  operational (db w) ->
  DatabaseMaintenance.resetDatabase resetEncryptionKey w =
    match resetEncryptionKey (crypto w) with
    | (Ok _, c) =>
        (Ok tt, {| crypto := c;
                   db := set_table (Some empty_table) (opened (db w));
                   now := now w |})
    | (Err _, c) =>
        (Err (JsError "Failed to reset database"),
         {| crypto := c; db := set_table None (opened (db w)); now := now w |})
    end.
Proof.
  intros Hop. unfold DatabaseMaintenance.resetDatabase, bind at 1.
  rewrite (ensure_init_operational _ Hop).
  unfold try_catch, bind, in_db, in_crypto, zoom, executeSql_drop_table, createTables,
    executeSql_create_table, throw. simpl.
  destruct (resetEncryptionKey (crypto w)) as [[[]|x] c]; simpl; [|reflexivity].
  rewrite (opened_database _ Hop). reflexivity.
Qed.

(** Property X9. When the key reset succeeds, [resetDatabase]
    succeeds and leaves an empty table whose AUTOINCREMENT counter
    starts over: [getAllNotes] returns the empty list and [getNote]
    returns [null] for every id. *)
Theorem resetDatabase_empties w c :
  operational (db w) ->
  resetEncryptionKey (crypto w) = (Ok tt, c) ->
  exists w',
    DatabaseMaintenance.resetDatabase resetEncryptionKey w = (Ok tt, w')
    /\ crypto w' = c
    /\ table (db w') = Some empty_table
    /\ getAllNotes w' = (Ok [], w')
    /\ forall i, getNote i w' = (Ok None, w').
Proof.
  intros Hop Hreset. rewrite (resetDatabase_run _ Hop), Hreset.
  eexists. split; [reflexivity|]. split; [reflexivity|]. split; [reflexivity|].
  set (w' := {| crypto := c; db := set_table (Some empty_table) (opened (db w)); now := now w |}).
  assert (Hd : database (db w') = true) by exact (opened_database _ Hop).
  assert (Hop' : operational (db w')) by (eapply operational_open; [exact Hd | reflexivity]).
  split.
  - rewrite (getAllNotes_run _ Hop'). rewrite (set_db_opened _ Hd). reflexivity.
  - intros i. rewrite (getNote_run _ _ Hop'). rewrite (set_db_opened _ Hd). reflexivity.
Qed.

(** Property X10. When the key reset throws, [resetDatabase] throws
    [Error('Failed to reset database')] after the table was dropped and
    before it is created again: the connection is held, there is no
    table, every later operation fails, and a call of [init] brings
    an empty table back. *)
Theorem resetDatabase_failure_leaves_no_table w e c note i :
  operational (db w) ->
  resetEncryptionKey (crypto w) = (Err e, c) ->
  exists w',
    DatabaseMaintenance.resetDatabase resetEncryptionKey w
      = (Err (JsError "Failed to reset database"), w')
    /\ database (db w') = true /\ table (db w') = None
    /\ getAllNotes w' = (Err (Rejected "no such table: notes"), w')
    /\ getNote i w' = (Err (Rejected "no such table: notes"), w')
    /\ deleteNote i w' = (Err (Rejected "no such table: notes"), w')
    /\ (exists x w'', saveNote note w' = (Err x, w''))
    /\ (openable (db w) = true ->
        exists w'', init w' = (Ok tt, w'') /\ table (db w'') = Some empty_table).
Proof.
  intros Hop Hreset. rewrite (resetDatabase_run _ Hop), Hreset.
  eexists. split; [reflexivity|].
  set (w' := {| crypto := c; db := set_table None (opened (db w)); now := now w |}).
  assert (Hd : database (db w') = true) by exact (opened_database _ Hop).
  assert (Ht : table (db w') = None) by reflexivity.
  assert (Hi : ensure_init w' = (Ok tt, w')).
  { unfold ensure_init. rewrite Hd. reflexivity. }
  assert (Hsame : set_db (db w') w' = w') by apply set_db_same.
  split; [exact Hd|]. split; [exact Ht|].
  split; [|split; [|split; [|split]]].
  - unfold getAllNotes, bind at 1. rewrite Hi. unfold bind.
    rewrite (executeSql_no_table _ _ Ht), Hsame. reflexivity.
  - unfold getNote, bind at 1. rewrite Hi. unfold bind.
    rewrite (executeSql_no_table _ _ Ht), Hsame. reflexivity.
  - unfold deleteNote, bind at 1. rewrite Hi.
    rewrite (executeSql_no_table _ _ Ht), Hsame. reflexivity.
  - destruct (saveNote note w') as [[n|x] w''] eqn:Hs.
    + apply saveNote_returns in Hs. destruct Hs as [Hop' _].
      unfold operational in Hop'. rewrite Hd, Ht in Hop'. destruct Hop' as [t Hcontra].
      discriminate.
    + exists x, w''. reflexivity.
  - intros Ho.
    assert (Ho' : openable (opened (db w)) = true).
    { unfold opened. destruct (database (db w)); [exact Ho | exact Ho]. }
    unfold init, try_catch, bind, in_db, zoom, SQLite_openDatabase, createTables,
      executeSql_create_table. simpl. rewrite Ho'. simpl.
    eexists. split; reflexivity.
Qed.

End Reset.

(* ================================================================= *)
(** ** The listing, and reading back an update *)

Section ListingMore.
Context {ES : EncryptionService.API}.
Import DatabaseService.

Lemma listing_sublist w rs notes w' :
  listing w rs notes w' ->
  sublist (map id notes) (map (fun r => Some (col_id r)) rs).
Proof.
  induction 1 as [w|w row note w1 rest notes w2 Hd _ IH|w row x w1 rest notes w2 _ _ IH].
  - constructor.
  - apply decryptNote_result in Hd. destruct Hd as (_ & _ & Hid & _).
    cbn [map]. rewrite Hid. apply sublist_skip. exact IH.
  - cbn [map]. apply sublist_cons. exact IH.
Qed.

Lemma listing_rows w rs notes w' :
  listing w rs notes w' ->
  Forall (fun n => exists r, r ∈ rs /\ id n = Some (col_id r)
                             /\ createdAt n = Some (col_createdAt r)
                             /\ updatedAt n = Some (col_updatedAt r)) notes.
Proof.
  induction 1 as [w|w row note w1 rest notes w2 Hd _ IH|w row x w1 rest notes w2 _ _ IH].
  - constructor.
  - constructor.
    + apply decryptNote_result in Hd. destruct Hd as (_ & _ & Hid & Hc & Hu & _).
      exists row. split; [left|]. split; [exact Hid|]. split; [exact Hc | exact Hu].
    + eapply Forall_impl; [exact IH|]. intros n (r & Hr & Hn).
      exists r. split; [right; exact Hr | exact Hn].
  - eapply Forall_impl; [exact IH|]. intros n (r & Hr & Hn).
    exists r. split; [right; exact Hr | exact Hn].
Qed.

Lemma getAllNotes_listing w notes w' :
  operational (db w) ->
  getAllNotes w = (Ok notes, w') ->
  listing (set_db (opened (db w)) w)
          (table_select_all_ordered (current_table (db w))) notes w'.
Proof.
  intros Hop. rewrite (getAllNotes_run _ Hop).
  destruct (decrypt_rows_listing (table_select_all_ordered (current_table (db w))) []
              (set_db (opened (db w)) w)) as (notes0 & w0 & Hrun & Hl).
  rewrite Hrun. intros [= <- <-]. exact Hl.
Qed.

(** Property X11. When the primary key holds of the table, the notes
    [getAllNotes] returns have pairwise distinct ids (the component
    uses them as list keys), are no more than the rows, and each of
    them carries the id and the timestamps of a row of the table, its
    id being at least 1. *)
Theorem listed_ids_distinct w notes w' :
  operational (db w) ->
  well_keyed (current_table (db w)) ->
  getAllNotes w = (Ok notes, w') ->
  NoDup (map id notes)
  /\ (length notes <= length (rows (current_table (db w))))%nat
  /\ Forall (fun n => exists r, r ∈ rows (current_table (db w))
                                /\ id n = Some (col_id r)
                                /\ createdAt n = Some (col_createdAt r)
                                /\ updatedAt n = Some (col_updatedAt r)
                                /\ exists i, id n = Some i /\ 1 <= i) notes.
Proof.
  intros Hop [Hnd Hrange] Hget.
  pose proof (getAllNotes_listing _ _ _ Hop Hget) as Hl.
  pose proof (listing_sublist _ _ _ _ Hl) as Hsub.
  assert (Hperm : table_select_all_ordered (current_table (db w))
                  ≡ₚ rows (current_table (db w)))
    by apply merge_sort_Permutation.
  split; [|split].
  - eapply sublist_NoDup; [|exact Hsub].
    rewrite Hperm. rewrite <- (List.map_map col_id Some).
    apply (NoDup_fmap_2 Some). exact Hnd.
  - apply sublist_length in Hsub. rewrite !length_map in Hsub.
    rewrite <- Hperm. exact Hsub.
  - apply listing_rows in Hl. eapply Forall_impl; [exact Hl|].
    intros n (r & Hr & Hid & Hc & Hu). rewrite Hperm in Hr.
    exists r. do 4 (split; [assumption|]).
    exists (col_id r). split; [exact Hid|].
    rewrite Forall_forall in Hrange. apply (Hrange r Hr).
Qed.

(** Property X12. After [deleteNote i], no note of the listing
    [getAllNotes] returns has id [i], whatever the encryption service
    is. *)
Theorem deleted_note_not_listed i w notes w' :
  operational (db w) ->
  getAllNotes (snd (deleteNote i w)) = (Ok notes, w') ->
  Forall (fun n => id n <> Some i) notes.
Proof.
  intros Hop Hget.
  rewrite (deleteNote_run _ _ Hop) in *. cbn [snd] in *.
  set (w1 := with_table (table_delete i (current_table (db w))) w) in *.
  destruct (with_table_db (table_delete i (current_table (db w))) w Hop) as [Hd Ht].
  assert (Hop1 : operational (db w1)) by (eapply operational_open; eassumption).
  pose proof (getAllNotes_listing _ _ _ Hop1 Hget) as Hl.
  apply listing_from_rows in Hl.
  eapply Forall_impl; [exact Hl|]. intros n (r & Hr & Hid & _).
  assert (Hr' : r ∈ rows (table_delete i (current_table (db w)))).
  { unfold table_select_all_ordered in Hr. rewrite merge_sort_Permutation in Hr.
    exact Hr. }
  apply table_delete_gone in Hr'. rewrite Hid. congruence.
Qed.

End ListingMore.

(** *** With an encryption service that obeys the laws *)

Lemma select_unique i rs row :
  NoDup (map col_id rs) -> row ∈ rs -> col_id row = i ->
  filter (fun r => col_id r = i) rs = [row].
Proof.
  induction rs as [|x rs IH]; intros Hnd Hin Hi.
  - apply elem_of_nil in Hin. contradiction.
  - cbn [map] in Hnd. apply NoDup_cons in Hnd. destruct Hnd as [Hx Hnd].
    apply elem_of_cons in Hin. destruct Hin as [->|Hin].
    + rewrite filter_cons_True by exact Hi. f_equal.
      apply select_none. intros r Hr E. apply Hx.
      rewrite Hi, <- E. apply list_elem_of_fmap. exists r. split; [reflexivity | exact Hr].
    + rewrite filter_cons_False; [apply IH; assumption|].
      intros E. apply Hx. rewrite E, <- Hi.
      apply list_elem_of_fmap. exists row. split; [reflexivity | exact Hin].
Qed.

Lemma select_updated te ti ce ci up i rs :
  filter (fun r => col_id r = i) (map (update_row te ti ce ci up i) rs)
  = map (update_row te ti ce ci up i) (filter (fun r => col_id r = i) rs).
Proof.
  induction rs as [|x rs IH]; [reflexivity|].
  cbn [map]. destruct (decide (col_id x = i)) as [E|E].
  - rewrite !filter_cons_True by (rewrite ?update_row_id; exact E).
    cbn [map]. rewrite IH. reflexivity.
  - rewrite !filter_cons_False by (rewrite ?update_row_id; exact E). exact IH.
Qed.

Lemma select_updated_other te ti ce ci up i j rs :
  j <> i ->
  filter (fun r => col_id r = j) (map (update_row te ti ce ci up i) rs)
  = filter (fun r => col_id r = j) rs.
Proof.
  intros Hj. induction rs as [|x rs IH]; [reflexivity|].
  cbn [map]. destruct (decide (col_id x = j)) as [E|E].
  - rewrite (filter_cons_True _ (update_row te ti ce ci up i x))
      by (rewrite update_row_id; exact E).
    rewrite (filter_cons_True _ x) by exact E.
    rewrite IH. f_equal. unfold update_row.
    destruct (col_id x =? i) eqn:Ei; [apply Z.eqb_eq in Ei; congruence | reflexivity].
  - rewrite (filter_cons_False _ (update_row te ti ce ci up i x))
      by (rewrite update_row_id; exact E).
    rewrite (filter_cons_False _ x) by exact E. exact IH.
Qed.

Section LinkedMore.
Context {ES : EncryptionService.API}.
Variable stored : CryptoWorld -> option jsstring.
Variable decrypt_with : jsstring -> jsstring -> jsstring -> result jsstring.
Hypothesis laws : EncryptionLaws ES stored decrypt_with.
Import DatabaseService.

(** What [getNote] reads after a successful [saveNote], when the
    written row is the one the query finds. *)
Lemma getNote_written t' w c2 e1 c1 e2 i cr up T C :
  operational (db w) ->
  EncryptionService.encrypt T (crypto w) = (Ok e1, c1) ->
  EncryptionService.encrypt C c1 = (Ok e2, c2) ->
  table_select_by_id i t'
  = [{| col_id := i;
        col_titleEncrypted := encrypted e1; col_titleIv := iv e1;
        col_contentEncrypted := encrypted e2; col_contentIv := iv e2;
        col_createdAt := cr; col_updatedAt := up |}] ->
  getNote i (with_table t' (set_crypto c2 w))
  = (Ok (Some {| id := Some i; title := T; content := C;
                 createdAt := Some cr; updatedAt := Some up |}),
     with_table t' (set_crypto c2 w)).
Proof.
  intros Hop H1 H2 Hsel.
  destruct (with_table_db t' (set_crypto c2 w) Hop) as [Hd Ht].
  assert (Hop' : operational (db (with_table t' (set_crypto c2 w))))
    by (eapply operational_open; eassumption).
  rewrite (getNote_run _ _ Hop'). unfold current_table at 1. rewrite Ht. simpl default.
  rewrite Hsel. rewrite (set_db_opened _ Hd).
  destruct (encrypt_decrypts _ _ _ laws _ _ _ _ H1) as (k1 & Hk1 & Hd1).
  destruct (encrypt_decrypts _ _ _ laws _ _ _ _ H2) as (k2 & Hk2 & Hd2).
  pose proof (encrypt_keeps_key _ _ _ laws _ _ _ _ _ Hk1 H2) as Hk12.
  assert (k2 = k1) by congruence. subst k2.
  unfold bind. rewrite (decryptNote_stored _ _ laws _ _ k1) by exact Hk2.
  unfold decode. simpl. rewrite Hd1, Hd2. reflexivity.
Qed.

Lemma saveNote_new_read_back T C w e1 c1 e2 c2 :
  operational (db w) ->
  EncryptionService.encrypt T (crypto w) = (Ok e1, c1) ->
  EncryptionService.encrypt C c1 = (Ok e2, c2) ->
  exists w',
    saveNote {| id := None; title := T; content := C;
                createdAt := None; updatedAt := None |} w
    = (Ok (next_rowid (current_table (db w))), w')
    /\ getNote (next_rowid (current_table (db w))) w'
       = (Ok (Some {| id := Some (next_rowid (current_table (db w)));
                      title := T; content := C;
                      createdAt := Some (now w); updatedAt := Some (now w) |}), w').
Proof.
  intros Hop H1 H2.
  set (t := current_table (db w)).
  set (t' := snd (table_insert (encrypted e1) (iv e1) (encrypted e2) (iv e2) (now w) (now w) t)).
  exists (with_table t' (set_crypto c2 w)). split.
  - rewrite (saveNote_run {| id := None; title := T; content := C;
                             createdAt := None; updatedAt := None |}
                          w e1 c1 e2 c2 Hop H1 H2).
    reflexivity.
  - apply (getNote_written t' w c2 e1 c1 e2 _ _ _ T C Hop H1 H2).
    change (next_rowid t)
      with (fst (table_insert (encrypted e1) (iv e1) (encrypted e2) (iv e2) (now w) (now w) t)).
    unfold t'. apply select_inserted.
Qed.

(** Property X13. Update and read back. With an encryption service
    that obeys the laws and the primary key holding, [saveNote] of a
    note whose non-zero id is that of a row returns the id, and
    [getNote] of it then returns the new title and content with the
    row's [createdAt] and the time of the call as [updatedAt]; every
    other note reads as the decoded form of its unchanged row. *)
Theorem updated_note_read_back note i row w e1 c1 e2 c2 :
  id note = Some i -> i <> 0 ->
  operational (db w) ->
  well_keyed (current_table (db w)) ->
  row ∈ rows (current_table (db w)) -> col_id row = i ->
  EncryptionService.encrypt (title note) (crypto w) = (Ok e1, c1) ->
  EncryptionService.encrypt (content note) c1 = (Ok e2, c2) ->
  exists w',
    saveNote note w = (Ok i, w')
    /\ getNote i w'
       = (Ok (Some {| id := Some i; title := title note; content := content note;
                      createdAt := Some (col_createdAt row);
                      updatedAt := Some (now w) |}), w')
    /\ forall j r, j <> i -> r ∈ rows (current_table (db w)) -> col_id r = j ->
         forall k, stored c2 = Some k ->
           getNote j w' = (match decode decrypt_with k r with
                           | Some n => Ok (Some n)
                           | None => Err (JsError "Failed to decrypt note data")
                           end, w').
Proof.
  intros Hid Hnz Hop [Hnd _] Hrow Hi H1 H2.
  set (t' := table_update (encrypted e1) (iv e1) (encrypted e2) (iv e2) (now w) i
               (current_table (db w))).
  assert (Hsave : saveNote note w = (Ok i, with_table t' (set_crypto c2 w))).
  { rewrite (saveNote_run note w e1 c1 e2 c2 Hop H1 H2). rewrite Hid.
    unfold truthy_id, truthy_number.
    destruct (i =? 0) eqn:E0; [apply Z.eqb_eq in E0; contradiction|]. reflexivity. }
  exists (with_table t' (set_crypto c2 w)). split; [exact Hsave|]. split.
  - apply (getNote_written t' w c2 e1 c1 e2 _ _ _ _ _ Hop H1 H2).
    unfold t', table_select_by_id, table_update. cbn [rows].
    rewrite select_updated, (select_unique i _ row Hnd Hrow Hi).
    cbn [map]. unfold update_row. rewrite Hi, Z.eqb_refl. rewrite <- Hi. reflexivity.
  - intros j r Hj Hr Hrj k Hk.
    destruct (with_table_db t' (set_crypto c2 w) Hop) as [Hd Ht].
    assert (Hop' : operational (db (with_table t' (set_crypto c2 w))))
      by (eapply operational_open; eassumption).
    rewrite (getNote_run _ _ Hop'). unfold current_table at 1. rewrite Ht. simpl default.
    rewrite (set_db_opened _ Hd).
    assert (Hsel : table_select_by_id j t' = [r]).
    { unfold t', table_select_by_id, table_update. cbn [rows].
      rewrite (select_updated_other _ _ _ _ _ i j _ Hj). apply (select_unique j _ r Hnd Hr Hrj). }
    rewrite Hsel.
    unfold bind. rewrite (decryptNote_stored _ _ laws _ _ k) by exact Hk.
    destruct (decode decrypt_with k r); reflexivity.
Qed.

End LinkedMore.

(* ================================================================= *)
(** ** Further properties of the encryption service *)

(** *** The encryption service when the keychain fails or the key
        cannot be made *)

Section KeychainDown.
Context {aes : AesLib}.
Variable Aes : option RNAes.

Lemma keychain_down_1 w :
  keychain_available w = false ->
  EncryptionService1.getEncryptionKey w
  = (Err (JsError "Failed to secure the encryption key"), w).
Proof.
  intros Ha. unfold EncryptionService1.getEncryptionKey, try_catch, bind,
    Keychain_getGenericPassword, keychain_guard, throw. rewrite Ha. reflexivity.
Qed.

Lemma keychain_down_2 w :
  keychain_available w = false ->
  EncryptionService2.getEncryptionKey Aes w
  = (Err (JsError "Failed to secure the encryption key"), w).
Proof.
  intros Ha. unfold EncryptionService2.getEncryptionKey, try_catch, bind,
    Keychain_getGenericPassword, keychain_guard, throw. rewrite Ha. reflexivity.
Qed.

(** Property X14. With the keychain out of reach, [getEncryptionKey],
    [encrypt] and [decrypt] of all three revisions throw their own
    generic error and change nothing; the second revision does not
    take its fallback cipher then, since the key is fetched first. *)
Theorem keychain_unavailable data c i w :
  keychain_available w = false ->
  (EncryptionService1.getEncryptionKey w
     = (Err (JsError "Failed to secure the encryption key"), w)
   /\ EncryptionService1.encrypt data w = (Err (JsError "Failed to encrypt data"), w)
   /\ EncryptionService1.decrypt c i w = (Err (JsError "Failed to decrypt data"), w))
  /\ (EncryptionService2.getEncryptionKey Aes w
        = (Err (JsError "Failed to secure the encryption key"), w)
      /\ EncryptionService2.encrypt Aes data w = (Err (JsError "Failed to encrypt data"), w)
      /\ EncryptionService2.decrypt Aes c i w = (Err (JsError "Failed to decrypt data"), w))
  /\ (EncryptionService3.getEncryptionKey w
        = (Err (JsError "Failed to secure the encryption key"), w)
      /\ EncryptionService3.encrypt data w = (Err (JsError "Failed to encrypt data"), w)
      /\ EncryptionService3.decrypt c i w = (Err (JsError "Failed to decrypt data"), w)).
Proof.
  intros Ha. pose proof (keychain_down_1 w Ha) as H1. pose proof (keychain_down_2 w Ha) as H2.
  split; [|split].
  - split; [exact H1|]. split.
    + unfold EncryptionService1.encrypt, try_catch, bind at 1. rewrite H1. reflexivity.
    + unfold EncryptionService1.decrypt, try_catch, bind at 1. rewrite H1. reflexivity.
  - split; [exact H2|]. split.
    + unfold EncryptionService2.encrypt, try_catch, bind at 1. rewrite H2. reflexivity.
    + unfold EncryptionService2.decrypt, try_catch, bind at 1. rewrite H2. reflexivity.
  - rewrite getEncryptionKey3_same, encrypt3_same. split; [exact H1|]. split.
    + unfold EncryptionService1.encrypt, try_catch, bind at 1. rewrite H1. reflexivity.
    + unfold EncryptionService3.decrypt, try_catch, bind at 1.
      rewrite getEncryptionKey3_same, H1. reflexivity.
Qed.

(** Property X15. A [getEncryptionKey] of the first revision that
    throws, throws [Error('Failed to secure the encryption key')] and
    has stored nothing; with the keychain in reach this happens only
    when there was no entry and [randomKey] or [pbkdf2] rejected. *)
Theorem failed_key_generation_stores_nothing w e w' :
  EncryptionService1.getEncryptionKey w = (Err e, w') ->
  e = JsError "Failed to secure the encryption key"
  /\ keychain w' = keychain w
  /\ keychain_available w' = keychain_available w
  /\ async_storage w' = async_storage w
  /\ (keychain_available w = true ->
      keychain w !! EncryptionService1.KEYCHAIN_SERVICE = None
      /\ ((exists x g, Aes_randomKey 32 (rng w) = (Err x, g))
          \/ (exists randomBytes g x,
                Aes_randomKey 32 (rng w) = (Ok randomBytes, g)
                /\ Aes_pbkdf2 randomBytes EncryptionService1.SALT 10000 32 (js "sha512")
                   = Err x))).
Proof.
  unfold EncryptionService1.getEncryptionKey, try_catch, bind, Keychain_getGenericPassword,
    Keychain_setGenericPassword, keychain_guard, zoom, call, ret, throw.
  change (EncryptionService1.ENCRYPTION_KEY_SIZE / 8) with 32.
  destruct (keychain_available w) eqn:Ha.
  - destruct (keychain w !! EncryptionService1.KEYCHAIN_SERVICE) as [c|] eqn:Hk;
      [discriminate|].
    destruct (Aes_randomKey 32 (rng w)) as [[rb|x] g] eqn:Hr; cbn [rng set_rng keychain_available].
    + destruct (Aes_pbkdf2 rb EncryptionService1.SALT 10000 32 (js "sha512")) as [key|x] eqn:Hp.
      * rewrite Ha. discriminate.
      * intros [= <- <-]. do 4 (split; [first [reflexivity | exact Ha]|]). intros _. split; [reflexivity|].
        right. exists rb, g, x. split; [reflexivity | exact Hp].
    + intros [= <- <-]. do 4 (split; [first [reflexivity | exact Ha]|]). intros _. split; [reflexivity|].
      left. exists x, g. reflexivity.
  - intros [= <- <-]. do 4 (split; [first [reflexivity | exact Ha]|]). discriminate.
Qed.

End KeychainDown.

(** *** The second revision: salt, IV, reset *)

Lemma hex_byte_pair b :
  0 <= b < 256 -> hex_pair (String_padStart 2 (js "0") (Number_toString16 b)).
Proof.
  intros Hb.
  assert (Hall : forallb (fun n =>
                   let s := String_padStart 2 (js "0") (Number_toString16 (Z.of_nat n)) in
                   Nat.eqb (length s) 2 && forallb is_hex_digit s)
                         (seq 0 256) = true) by (vm_compute; reflexivity).
  rewrite forallb_forall in Hall.
  specialize (Hall (Z.to_nat b)). rewrite Z2Nat.id in Hall by lia.
  assert (Hin : In (Z.to_nat b) (seq 0 256)) by (apply in_seq; lia).
  apply Hall in Hin. cbv zeta in Hin. apply andb_true_iff in Hin. destruct Hin as [Hl Hh].
  split; [apply Nat.eqb_eq, Hl | exact Hh].
Qed.

Lemma push_random_bytes_pairs n : forall acc w bytes w',
  EncryptionService2.push_random_bytes n acc w = (Ok bytes, w') ->
  Forall hex_pair acc ->
  Forall hex_pair bytes /\ length bytes = (length acc + n)%nat.
Proof.
  induction n as [|n IH]; intros acc w bytes w'; cbn [EncryptionService2.push_random_bytes].
  - intros [= <- <-] Hacc. split; [exact Hacc | lia].
  - unfold bind, Math_floor_random_times. cbv beta zeta iota. intros Hrun Hacc.
    apply IH in Hrun.
    + destruct Hrun as [Hall Hlen]. split; [exact Hall|].
      rewrite Hlen, length_app. simpl. lia.
    + apply Forall_app. split; [exact Hacc|]. constructor; [|constructor].
      apply hex_byte_pair. apply Z.mod_pos_bound. lia.
Qed.

Lemma join_pairs (parts : list jsstring) :
  Forall hex_pair parts ->
  length (Array_join_empty parts) = (2 * length parts)%nat
  /\ forallb is_hex_digit (Array_join_empty parts) = true.
Proof.
  unfold Array_join_empty. induction 1 as [|s parts [Hl Hh] _ [IHl IHh]]; [split; reflexivity|].
  simpl. split.
  - rewrite length_app, Hl, IHl. lia.
  - rewrite forallb_app, Hh, IHh. reflexivity.
Qed.

Lemma drawn_hex n w bytes w' :
  EncryptionService2.push_random_bytes n [] w = (Ok bytes, w') ->
  js_length (Array_join_empty bytes) = 2 * Z.of_nat n
  /\ forallb is_hex_digit (Array_join_empty bytes) = true.
Proof.
  intros Hrun. apply push_random_bytes_pairs in Hrun; [|constructor].
  destruct Hrun as [Hall Hlen]. destruct (join_pairs _ Hall) as [Hl Hh].
  split; [|exact Hh]. unfold js_length. rewrite Hl, Hlen. simpl. lia.
Qed.

Section Revision2More.
Variable Aes : option RNAes.
Import EncryptionService2.

Lemma encrypt_iv_hex data w e w' :
  encrypt Aes data w = (Ok e, w') ->
  js_length (iv e) = 32
  /\ forallb is_hex_digit (iv e) = true
  /\ negb (truthy_string (iv e)) || negb (js_length (iv e) =? IV_SIZE * 2) = false.
Proof.
  intros Henc.
  destruct (getEncryptionKey Aes w) as [[k|x] w1] eqn:Hg.
  - destruct (encrypt_run Aes data w k w1 Hg) as (ivBytes & g & Hrun & Hrun').
    rewrite Hrun' in Henc.
    pose proof (drawn_iv_valid _ _ _ Hrun) as Hvalid.
    apply drawn_hex in Hrun. destruct Hrun as [Hl Hh].
    destruct (match native_function Aes RNAes_encrypt with
              | Some aes_encrypt => _
              | None => _
              end) as [c|y]; [|discriminate].
    injection Henc as <- _. cbn [iv]. split; [exact Hl|]. split; [exact Hh | exact Hvalid].
  - rewrite (encrypt_key_fails _ _ _ _ _ Hg) in Henc. discriminate.
Qed.

(** Property X19. Every IV the second revision's [encrypt] returns is
    32 lowercase hexadecimal digits, and so passes the length test of
    that revision's [decrypt]. *)
Theorem encrypt_iv_format data w e w' :
  encrypt Aes data w = (Ok e, w') ->
  js_length (iv e) = 32
  /\ forallb is_hex_digit (iv e) = true
  /\ negb (truthy_string (iv e)) || negb (js_length (iv e) =? IV_SIZE * 2) = false.
Proof. apply encrypt_iv_hex. Qed.

Lemma generate_salt w :
  exists bytes g,
    push_random_bytes 16 [] w = (Ok bytes, set_rng g w)
    /\ js_length (Array_join_empty bytes) = 32
    /\ forallb is_hex_digit (Array_join_empty bytes) = true.
Proof.
  destruct (push_random_bytes_run 16 [] w) as (bytes & g & Hrun & _).
  exists bytes, g. split; [exact Hrun|]. apply drawn_hex in Hrun. exact Hrun.
Qed.

Lemma getSalt_stored w (stored : jsstring) :
  async_storage w !! SALT_KEY = Some stored -> stored <> [] ->
  getSalt w = (Ok stored, w).
Proof.
  intros Hs Hne. unfold getSalt, try_catch, bind, AsyncStorage_getItem. rewrite Hs.
  destruct stored; [contradiction|]. reflexivity.
Qed.

Lemma getSalt_run w :
  exists (salt : jsstring) w',
    getSalt w = (Ok salt, w')
    /\ salt <> []
    /\ async_storage w' !! SALT_KEY = Some salt
    /\ getSalt w' = (Ok salt, w')
    /\ keychain w' = keychain w
    /\ (forall stored : jsstring, async_storage w !! SALT_KEY = Some stored -> stored <> [] ->
        salt = stored /\ w' = w)
    /\ (async_storage w !! SALT_KEY = None \/ async_storage w !! SALT_KEY = Some ([] : jsstring) ->
        js_length salt = 32 /\ forallb is_hex_digit salt = true).
Proof.
  destruct (generate_salt w) as (bytes & g & Hrun & Hlen & Hhex).
  assert (Hne : Array_join_empty bytes <> []).
  { intros E. rewrite E in Hlen. discriminate. }
  assert (Hgen : forall (Hcase : async_storage w !! SALT_KEY = None
                                 \/ async_storage w !! SALT_KEY = Some ([] : jsstring)),
            getSalt w = (Ok (Array_join_empty bytes),
                         set_async_storage (<[SALT_KEY := Array_join_empty bytes]>
                                              (async_storage w)) (set_rng g w))).
  { intros [Hs|Hs]; unfold getSalt, try_catch, bind, AsyncStorage_getItem, AsyncStorage_setItem;
      rewrite Hs; cbn [truthy_string]; rewrite Hrun; reflexivity. }
  destruct (async_storage w !! SALT_KEY) as [stored|] eqn:Hs;
    [destruct stored as [|c stored]|].
  2:{ exists (c :: stored), w.
      pose proof (getSalt_stored w (c :: stored) Hs ltac:(discriminate)) as Hrun'.
      split; [exact Hrun'|]. split; [discriminate|]. split; [exact Hs|].
      split; [exact Hrun'|]. split; [reflexivity|]. split.
      - intros stored' [= <-] _. split; reflexivity.
      - intros [H|H]; discriminate. }
  all: eexists; eexists; split; [apply Hgen; auto|];
    split; [exact Hne|]; split; [simpl; apply lookup_insert_eq|];
    split; [apply getSalt_stored; [simpl; apply lookup_insert_eq | exact Hne]|];
    split; [reflexivity|]; split;
    [intros stored' Hs' Hne'; first [discriminate | injection Hs' as <-; contradiction]
    | intros _; split; assumption].
Qed.

(** Property X16. [getSalt] of the second revision (AsyncStorage
    serving its calls) returns a non-empty salt that is stored
    afterwards, so that the next call
    returns the same salt and changes nothing; a stored non-empty salt
    is returned as it is, and with none stored (or an empty one) the
    salt made is 32 lowercase hexadecimal digits. The keychain is not
    touched. *)
Theorem getSalt_persists w :
  exists (salt : jsstring) w',
    getSalt w = (Ok salt, w')
    /\ salt <> []
    /\ async_storage w' !! SALT_KEY = Some salt
    /\ getSalt w' = (Ok salt, w')
    /\ keychain w' = keychain w
    /\ (forall stored : jsstring, async_storage w !! SALT_KEY = Some stored -> stored <> [] ->
        salt = stored /\ w' = w)
    /\ (async_storage w !! SALT_KEY = None \/ async_storage w !! SALT_KEY = Some ([] : jsstring) ->
        js_length salt = 32 /\ forallb is_hex_digit salt = true).
Proof. apply getSalt_run. Qed.

Lemma resetEncryptionKey2_run w :
  (keychain_available w = true ->
   exists w',
     resetEncryptionKey w = (Ok tt, w')
     /\ stored_key w' = None
     /\ async_storage w' !! SALT_KEY = None
     /\ rng w' = rng w
     /\ (forall service, service <> KEYCHAIN_SERVICE ->
         keychain w' !! service = keychain w !! service)
     /\ (forall key, key <> SALT_KEY -> async_storage w' !! key = async_storage w !! key))
  /\ (keychain_available w = false ->
      resetEncryptionKey w = (Err (JsError "Failed to reset encryption keys"), w)).
Proof.
  unfold resetEncryptionKey, try_catch, bind, Keychain_resetGenericPassword, keychain_guard,
    AsyncStorage_removeItem, throw.
  split; intros Ha; rewrite Ha; [|reflexivity].
  eexists. split; [reflexivity|]. unfold stored_key. simpl. rewrite Ha.
  change EncryptionService1.KEYCHAIN_SERVICE with KEYCHAIN_SERVICE.
  rewrite !lookup_delete_eq. do 3 (split; [reflexivity|]). split.
  - intros service Hne. apply lookup_delete_ne. congruence.
  - intros key Hne. apply lookup_delete_ne. congruence.
Qed.

Lemma after_request2_keeps_key w k r :
  stored_key w = Some k -> stored_key (after_request2 Aes w r) = Some k.
Proof.
  intros Hk. destruct r as [|data|c i]; simpl.
  - rewrite (getEncryptionKey2_stored _ _ _ Hk). exact Hk.
  - destruct (encrypt Aes data w) as [r w'] eqn:He. simpl.
    exact (encrypt_keeps_key2 _ _ _ _ _ _ Hk He).
  - destruct (negb (truthy_string i) || negb (js_length i =? IV_SIZE * 2)) eqn:Hi.
    + apply invalid_iv_test in Hi. rewrite (decrypt_invalid_iv Aes c i w Hi).
      rewrite (getEncryptionKey2_stored _ _ _ Hk). exact Hk.
    + assert (Hne : i <> []) by (intros ->; discriminate).
      assert (Hlen : js_length i = 32).
      { apply orb_false_iff in Hi. destruct Hi as [_ Hi].
        apply negb_false_iff, Z.eqb_eq in Hi. exact Hi. }
      rewrite (decrypt_valid_iv Aes c i w k w (getEncryptionKey2_stored _ _ _ Hk) Hne Hlen).
      exact Hk.
Qed.

Lemma after_requests2_keep_key rs : forall w k,
  stored_key w = Some k -> stored_key (after_requests2 Aes rs w) = Some k.
Proof.
  induction rs as [|r rs IH]; intros w k Hk; [exact Hk|].
  simpl. apply IH. apply after_request2_keeps_key. exact Hk.
Qed.

(** Property X18. The second revision keeps its key: once
    [getEncryptionKey] has returned [k], after any sequence of
    [getEncryptionKey], [encrypt] and [decrypt] requests it returns [k]
    again and changes nothing; and [resetEncryptionKey] then succeeds
    and leaves no key. *)
Theorem getEncryptionKey2_same_key w k w1 :
  getEncryptionKey Aes w = (Ok k, w1) ->
  forall rs,
    getEncryptionKey Aes (after_requests2 Aes rs w1) = (Ok k, after_requests2 Aes rs w1)
    /\ fst (resetEncryptionKey (after_requests2 Aes rs w1)) = Ok tt
    /\ stored_key (snd (resetEncryptionKey (after_requests2 Aes rs w1))) = None.
Proof.
  intros Hg rs. apply getEncryptionKey2_result in Hg.
  pose proof (after_requests2_keep_key rs w1 k Hg) as Hk.
  split; [apply getEncryptionKey2_stored; exact Hk|].
  assert (Ha : keychain_available (after_requests2 Aes rs w1) = true).
  { unfold stored_key in Hk. destruct (keychain_available _); [reflexivity | discriminate]. }
  destruct (proj1 (resetEncryptionKey2_run _) Ha) as (w' & Hr & Hs & _).
  rewrite Hr. split; [reflexivity | exact Hs].
Qed.

End Revision2More.

(* ================================================================= *)
(** ** Base64 and the fallback cipher *)

(** *** Base64 on bytes *)

Lemma all_bytes_spec a : is_byte a -> In a all_bytes.
Proof.
  intros Ha. unfold all_bytes. apply in_map_iff. exists (Z.to_nat a).
  unfold is_byte in Ha. split; [lia | apply in_seq; lia].
Qed.

Lemma bytes_check1 (p : Z -> bool) :
  forallb p all_bytes = true -> forall a, is_byte a -> p a = true.
Proof.
  intros H a Ha. rewrite forallb_forall in H. apply H, all_bytes_spec, Ha.
Qed.

Lemma bytes_check2 (p : Z -> Z -> bool) :
  forallb (fun a => forallb (p a) all_bytes) all_bytes = true ->
  forall a b, is_byte a -> is_byte b -> p a b = true.
Proof.
  intros H a b Ha Hb. rewrite forallb_forall in H.
  specialize (H a (all_bytes_spec a Ha)). apply (bytes_check1 _ H b Hb).
Qed.

Lemma sextet_1 a : is_byte a -> sextet (Z.shiftr a 2).
Proof.
  intros Ha.
  pose proof (bytes_check1 (fun a => (0 <=? Z.shiftr a 2) && (Z.shiftr a 2 <? 64))
                ltac:(vm_compute; reflexivity) a Ha) as H.
  cbv beta in H. unfold sextet. lia.
Qed.

Lemma sextet_2 a b :
  is_byte a -> is_byte b -> sextet (Z.lor (Z.shiftl (Z.land a 3) 4) (Z.shiftr b 4)).
Proof.
  intros Ha Hb.
  pose proof (bytes_check2
                (fun a b => let s := Z.lor (Z.shiftl (Z.land a 3) 4) (Z.shiftr b 4) in
                            (0 <=? s) && (s <? 64))
                ltac:(vm_compute; reflexivity) a b Ha Hb) as H.
  cbv beta zeta in H. unfold sextet. lia.
Qed.

Lemma sextet_3 b c :
  is_byte b -> is_byte c -> sextet (Z.lor (Z.shiftl (Z.land b 15) 2) (Z.shiftr c 6)).
Proof.
  intros Hb Hc.
  pose proof (bytes_check2
                (fun b c => let s := Z.lor (Z.shiftl (Z.land b 15) 2) (Z.shiftr c 6) in
                            (0 <=? s) && (s <? 64))
                ltac:(vm_compute; reflexivity) b c Hb Hc) as H.
  cbv beta zeta in H. unfold sextet. lia.
Qed.

Lemma sextet_4 c : is_byte c -> sextet (Z.land c 63).
Proof.
  intros Hc.
  pose proof (bytes_check1 (fun c => (0 <=? Z.land c 63) && (Z.land c 63 <? 64))
                ltac:(vm_compute; reflexivity) c Hc) as H.
  cbv beta in H. unfold sextet. lia.
Qed.

Lemma sextet_2_last a : is_byte a -> sextet (Z.shiftl (Z.land a 3) 4).
Proof.
  intros Ha.
  pose proof (bytes_check1 (fun a => let s := Z.shiftl (Z.land a 3) 4 in
                                     (0 <=? s) && (s <? 64))
                ltac:(vm_compute; reflexivity) a Ha) as H.
  cbv beta zeta in H. unfold sextet. lia.
Qed.

Lemma sextet_3_last b : is_byte b -> sextet (Z.shiftl (Z.land b 15) 2).
Proof.
  intros Hb.
  pose proof (bytes_check1 (fun b => let s := Z.shiftl (Z.land b 15) 2 in
                                     (0 <=? s) && (s <? 64))
                ltac:(vm_compute; reflexivity) b Hb) as H.
  cbv beta zeta in H. unfold sextet. lia.
Qed.

(** The bytes come back from the sextets. *)
Lemma byte_1 a b :
  is_byte a -> is_byte b ->
  Z.lor (Z.shiftl (Z.shiftr a 2) 2)
        (Z.shiftr (Z.lor (Z.shiftl (Z.land a 3) 4) (Z.shiftr b 4)) 4) = a.
Proof.
  intros Ha Hb.
  pose proof (bytes_check2
                (fun a b => Z.lor (Z.shiftl (Z.shiftr a 2) 2)
                              (Z.shiftr (Z.lor (Z.shiftl (Z.land a 3) 4) (Z.shiftr b 4)) 4)
                            =? a)
                ltac:(vm_compute; reflexivity) a b Ha Hb) as H.
  apply Z.eqb_eq in H. exact H.
Qed.

Lemma byte_1_last a :
  is_byte a ->
  Z.lor (Z.shiftl (Z.shiftr a 2) 2) (Z.shiftr (Z.shiftl (Z.land a 3) 4) 4) = a.
Proof.
  intros Ha.
  pose proof (bytes_check1
                (fun a => Z.lor (Z.shiftl (Z.shiftr a 2) 2)
                            (Z.shiftr (Z.shiftl (Z.land a 3) 4) 4) =? a)
                ltac:(vm_compute; reflexivity) a Ha) as H.
  apply Z.eqb_eq in H. exact H.
Qed.

Lemma low_nibble a b :
  is_byte a -> is_byte b ->
  Z.land (Z.lor (Z.shiftl (Z.land a 3) 4) (Z.shiftr b 4)) 15 = Z.shiftr b 4.
Proof.
  intros Ha Hb.
  pose proof (bytes_check2
                (fun a b => Z.land (Z.lor (Z.shiftl (Z.land a 3) 4) (Z.shiftr b 4)) 15
                            =? Z.shiftr b 4)
                ltac:(vm_compute; reflexivity) a b Ha Hb) as H.
  apply Z.eqb_eq in H. exact H.
Qed.

Lemma high_of_third b c :
  is_byte b -> is_byte c ->
  Z.shiftr (Z.lor (Z.shiftl (Z.land b 15) 2) (Z.shiftr c 6)) 2 = Z.land b 15
  /\ Z.land (Z.lor (Z.shiftl (Z.land b 15) 2) (Z.shiftr c 6)) 3 = Z.shiftr c 6.
Proof.
  intros Hb Hc.
  pose proof (bytes_check2
                (fun b c =>
                   let s := Z.lor (Z.shiftl (Z.land b 15) 2) (Z.shiftr c 6) in
                   (Z.shiftr s 2 =? Z.land b 15) && (Z.land s 3 =? Z.shiftr c 6))
                ltac:(vm_compute; reflexivity) b c Hb Hc) as H.
  cbv beta zeta in H. apply andb_true_iff in H. destruct H as [H1 H2].
  apply Z.eqb_eq in H1, H2. split; assumption.
Qed.

Lemma byte_rejoin b :
  is_byte b ->
  Z.lor (Z.shiftl (Z.shiftr b 4) 4) (Z.land b 15) = b
  /\ Z.lor (Z.shiftl (Z.shiftr b 6) 6) (Z.land b 63) = b
  /\ Z.shiftr (Z.shiftl (Z.land b 15) 2) 2 = Z.land b 15.
Proof.
  intros Hb.
  pose proof (bytes_check1
                (fun b => (Z.lor (Z.shiftl (Z.shiftr b 4) 4) (Z.land b 15) =? b)
                          && (Z.lor (Z.shiftl (Z.shiftr b 6) 6) (Z.land b 63) =? b)
                          && (Z.shiftr (Z.shiftl (Z.land b 15) 2) 2 =? Z.land b 15))
                ltac:(vm_compute; reflexivity) b Hb) as H.
  cbv beta in H. apply andb_true_iff in H. destruct H as [H H3].
  apply andb_true_iff in H. destruct H as [H1 H2].
  apply Z.eqb_eq in H1, H2, H3. repeat split; assumption.
Qed.

Lemma byte_2 a b c :
  is_byte a -> is_byte b -> is_byte c ->
  Z.lor (Z.shiftl (Z.land (Z.lor (Z.shiftl (Z.land a 3) 4) (Z.shiftr b 4)) 15) 4)
        (Z.shiftr (Z.lor (Z.shiftl (Z.land b 15) 2) (Z.shiftr c 6)) 2) = b.
Proof.
  intros Ha Hb Hc. rewrite (low_nibble a b Ha Hb).
  rewrite (proj1 (high_of_third b c Hb Hc)). apply (byte_rejoin b Hb).
Qed.

Lemma byte_2_last a b :
  is_byte a -> is_byte b ->
  Z.lor (Z.shiftl (Z.land (Z.lor (Z.shiftl (Z.land a 3) 4) (Z.shiftr b 4)) 15) 4)
        (Z.shiftr (Z.shiftl (Z.land b 15) 2) 2) = b.
Proof.
  intros Ha Hb. rewrite (low_nibble a b Ha Hb).
  rewrite (proj2 (proj2 (byte_rejoin b Hb))). apply (byte_rejoin b Hb).
Qed.

Lemma byte_3 b c :
  is_byte b -> is_byte c ->
  Z.lor (Z.shiftl (Z.land (Z.lor (Z.shiftl (Z.land b 15) 2) (Z.shiftr c 6)) 3) 6)
        (Z.land c 63) = c.
Proof.
  intros Hb Hc. rewrite (proj2 (high_of_third b c Hb Hc)). apply (byte_rejoin c Hc).
Qed.

Lemma triples_ind (P : list Z -> Prop) :
  P [] -> (forall a, P [a]) -> (forall a b, P [a; b]) ->
  (forall a b c rest, P rest -> P (a :: b :: c :: rest)) ->
  forall l, P l.
Proof.
  intros H0 H1 H2 H3.
  refine (fix F (l : list Z) : P l :=
            match l with
            | [] => H0
            | [a] => H1 a
            | [a; b] => H2 a b
            | a :: b :: c :: rest => H3 a b c rest (F rest)
            end).
Qed.

Lemma base64_encode_parts bytes :
  base64_encode bytes = map base64_char (base64_sextets bytes) ++ base64_pad bytes.
Proof.
  induction bytes as [|a|a b|a b c rest IH] using triples_ind; try reflexivity.
  change (base64_encode (a :: b :: c :: rest))
    with (base64_char (Z.shiftr a 2)
          :: base64_char (Z.lor (Z.shiftl (Z.land a 3) 4) (Z.shiftr b 4))
          :: base64_char (Z.lor (Z.shiftl (Z.land b 15) 2) (Z.shiftr c 6))
          :: base64_char (Z.land c 63) :: base64_encode rest).
  rewrite IH. reflexivity.
Qed.

Lemma base64_sextets_range bytes :
  Forall is_byte bytes -> Forall sextet (base64_sextets bytes).
Proof.
  induction bytes as [|a|a b|a b c rest IH] using triples_ind; intros Hb.
  - constructor.
  - apply Forall_cons in Hb. destruct Hb as [Ha _].
    cbn [base64_sextets].
    apply Forall_cons; split; [apply sextet_1; exact Ha|].
    apply Forall_cons; split; [apply sextet_2_last; exact Ha | constructor].
  - apply Forall_cons in Hb. destruct Hb as [Ha Hb].
    apply Forall_cons in Hb. destruct Hb as [Hb _].
    cbn [base64_sextets].
    apply Forall_cons; split; [apply sextet_1; exact Ha|].
    apply Forall_cons; split; [apply sextet_2; assumption|].
    apply Forall_cons; split; [apply sextet_3_last; exact Hb | constructor].
  - apply Forall_cons in Hb. destruct Hb as [Ha Hb].
    apply Forall_cons in Hb. destruct Hb as [Hb Hc].
    apply Forall_cons in Hc. destruct Hc as [Hc Hrest].
    change (base64_sextets (a :: b :: c :: rest))
      with (Z.shiftr a 2
            :: Z.lor (Z.shiftl (Z.land a 3) 4) (Z.shiftr b 4)
            :: Z.lor (Z.shiftl (Z.land b 15) 2) (Z.shiftr c 6)
            :: Z.land c 63 :: base64_sextets rest).
    apply Forall_cons; split; [apply sextet_1; exact Ha|].
    apply Forall_cons; split; [apply sextet_2; assumption|].
    apply Forall_cons; split; [apply sextet_3; assumption|].
    apply Forall_cons; split; [apply sextet_4; exact Hc | apply IH; exact Hrest].
Qed.

Lemma base64_decode_sextets bytes :
  Forall is_byte bytes -> base64_decode (base64_sextets bytes) = bytes.
Proof.
  induction bytes as [|a|a b|a b c rest IH] using triples_ind; intros Hb.
  - reflexivity.
  - apply Forall_cons in Hb. destruct Hb as [Ha _].
    cbn [base64_sextets base64_decode]. rewrite (byte_1_last a Ha). reflexivity.
  - apply Forall_cons in Hb. destruct Hb as [Ha Hb].
    apply Forall_cons in Hb. destruct Hb as [Hb _].
    cbn [base64_sextets base64_decode].
    rewrite (byte_1 a b Ha Hb), (byte_2_last a b Ha Hb). reflexivity.
  - apply Forall_cons in Hb. destruct Hb as [Ha Hb].
    apply Forall_cons in Hb. destruct Hb as [Hb Hc].
    apply Forall_cons in Hc. destruct Hc as [Hc Hrest].
    change (base64_sextets (a :: b :: c :: rest))
      with (Z.shiftr a 2
            :: Z.lor (Z.shiftl (Z.land a 3) 4) (Z.shiftr b 4)
            :: Z.lor (Z.shiftl (Z.land b 15) 2) (Z.shiftr c 6)
            :: Z.land c 63 :: base64_sextets rest).
    cbn [base64_decode].
    rewrite (byte_1 a b Ha Hb), (byte_2 a b c Ha Hb Hc), (byte_3 b c Hb Hc), (IH Hrest).
    reflexivity.
Qed.

Lemma base64_char_sextet s :
  sextet s ->
  base64_index (base64_char s) = Some s
  /\ base64_char s <> 61
  /\ is_ascii_whitespace (base64_char s) = false.
Proof.
  intros Hs.
  assert (Hb : is_byte s) by (unfold sextet, is_byte in *; lia).
  pose proof (bytes_check1
                (fun s => if s <? 64 then
                            match base64_index (base64_char s) with
                            | Some i => i =? s
                            | None => false
                            end
                            && negb (base64_char s =? 61)
                            && negb (is_ascii_whitespace (base64_char s))
                          else true)
                ltac:(vm_compute; reflexivity) s Hb) as H.
  cbv beta in H. unfold sextet in Hs.
  destruct (s <? 64) eqn:E; [|apply Z.ltb_ge in E; lia].
  apply andb_true_iff in H. destruct H as [H H3].
  apply andb_true_iff in H. destruct H as [H1 H2].
  split; [|split].
  - destruct (base64_index (base64_char s)) as [i|]; [|discriminate].
    apply Z.eqb_eq in H1. congruence.
  - apply negb_true_iff, Z.eqb_neq in H2. exact H2.
  - apply negb_true_iff in H3. exact H3.
Qed.

Lemma mapM_base64_index sx :
  Forall sextet sx -> mapM base64_index (map base64_char sx) = Some sx.
Proof.
  induction 1 as [|s sx Hs _ IH]; [reflexivity|].
  cbn [map mapM]. rewrite (proj1 (base64_char_sextet s Hs)).
  cbn [mbind option_bind]. rewrite IH. reflexivity.
Qed.

Lemma base64_pad_cases bytes :
  (base64_pad bytes = [] /\ (length (base64_sextets bytes) mod 4 = 0)%nat)
  \/ (base64_pad bytes = [61] /\ (length (base64_sextets bytes) mod 4 = 3)%nat)
  \/ (base64_pad bytes = [61; 61] /\ (length (base64_sextets bytes) mod 4 = 2)%nat).
Proof.
  induction bytes as [|a|a b|a b c rest IH] using triples_ind.
  - left. split; reflexivity.
  - right. right. split; reflexivity.
  - right. left. split; reflexivity.
  - change (base64_pad (a :: b :: c :: rest)) with (base64_pad rest).
    change (length (base64_sextets (a :: b :: c :: rest)))
      with (S (S (S (S (length (base64_sextets rest)))))).
    replace (S (S (S (S (length (base64_sextets rest))))))
      with (length (base64_sextets rest) + 1 * 4)%nat by lia.
    rewrite Nat.Div0.mod_add. exact IH.
Qed.

Lemma strip_unpadded (s : jsstring) :
  Forall (fun c => c <> 61) s -> strip_base64_padding s = s.
Proof.
  intros Hs. unfold strip_base64_padding.
  destruct (length s mod 4 =? 0)%nat; [|reflexivity].
  destruct (rev s) as [|x r] eqn:E; [reflexivity|].
  assert (Hx : x <> 61).
  { rewrite Forall_forall in Hs. apply Hs. apply list_elem_of_In, in_rev.
    rewrite E. left. reflexivity. }
  destruct x as [|p|p]; try reflexivity.
  do 6 (destruct p as [p|p|]; try reflexivity).
  contradiction.
Qed.

Lemma strip_one_sign (s : jsstring) :
  Forall (fun c => c <> 61) s -> (length s mod 4 = 3)%nat ->
  strip_base64_padding (s ++ [61]) = s.
Proof.
  intros Hs Hlen. unfold strip_base64_padding.
  rewrite length_app. cbn [length].
  replace ((length s + 1) mod 4 =? 0)%nat with true.
  2:{ symmetry. apply Nat.eqb_eq.
      rewrite <- Nat.Div0.add_mod_idemp_l, Hlen. reflexivity. }
  rewrite rev_app_distr. cbn [rev app].
  destruct (rev s) as [|x r] eqn:E.
  - apply (f_equal (@rev Z)) in E. rewrite rev_involutive in E. subst s. discriminate.
  - assert (Hx : x <> 61).
    { rewrite Forall_forall in Hs. apply Hs. apply list_elem_of_In, in_rev.
      rewrite E. left. reflexivity. }
    assert (Hs' : rev (x :: r) = s) by (rewrite <- E; apply rev_involutive).
    clear E. revert Hs'. generalize (rev (x :: r)). intros s' ->.
    destruct x as [|p|p]; try reflexivity.
    do 6 (destruct p as [p|p|]; try reflexivity).
    contradiction.
Qed.

Lemma strip_two_signs (s : jsstring) :
  (length s mod 4 = 2)%nat -> strip_base64_padding (s ++ [61; 61]) = s.
Proof.
  intros Hlen. unfold strip_base64_padding.
  rewrite length_app. cbn [length].
  replace ((length s + 2) mod 4 =? 0)%nat with true.
  2:{ symmetry. apply Nat.eqb_eq.
      rewrite <- Nat.Div0.add_mod_idemp_l, Hlen. reflexivity. }
  rewrite rev_app_distr. cbn [rev app]. apply rev_involutive.
Qed.

Lemma filter_all {A} (P : A -> Prop) `{!forall x, Decision (P x)} (l : list A) :
  Forall P l -> filter P l = l.
Proof.
  induction 1 as [|x l Hx _ IH]; [reflexivity|].
  rewrite filter_cons_True by exact Hx. rewrite IH. reflexivity.
Qed.

(** [atob] undoes [btoa] on every string of bytes. *)
Lemma atob_base64_encode bytes :
  Forall is_byte bytes -> atob (base64_encode bytes) = Ok bytes.
Proof.
  intros Hb.
  pose proof (base64_sextets_range bytes Hb) as Hsx.
  assert (Hchars : Forall (fun c => c <> 61) (map base64_char (base64_sextets bytes))).
  { apply Forall_forall. intros c Hc. apply list_elem_of_fmap in Hc.
    destruct Hc as (s & -> & Hs). rewrite Forall_forall in Hsx.
    apply (base64_char_sextet s (Hsx s Hs)). }
  assert (Hws : Forall (fun c => is_ascii_whitespace c = false) (base64_encode bytes)).
  { rewrite base64_encode_parts. apply Forall_app. split.
    - apply Forall_forall. intros c Hc. apply list_elem_of_fmap in Hc.
      destruct Hc as (s & -> & Hs). rewrite Forall_forall in Hsx.
      apply (base64_char_sextet s (Hsx s Hs)).
    - destruct (base64_pad_cases bytes) as [[-> _]|[[-> _]|[-> _]]];
        repeat constructor. }
  unfold atob. rewrite (filter_all _ _ Hws).
  assert (Hstrip : strip_base64_padding (base64_encode bytes)
                   = map base64_char (base64_sextets bytes)
                   /\ (length (base64_sextets bytes) mod 4)%nat <> 1%nat).
  { rewrite base64_encode_parts.
    destruct (base64_pad_cases bytes) as [[-> Hl]|[[-> Hl]|[-> Hl]]].
    - rewrite app_nil_r. split; [apply strip_unpadded, Hchars | lia].
    - split; [apply strip_one_sign; [exact Hchars | rewrite length_map; exact Hl] | lia].
    - split; [apply strip_two_signs; rewrite length_map; exact Hl | lia]. }
  destruct Hstrip as [-> Hlen]. rewrite length_map.
  destruct (length (base64_sextets bytes) mod 4 =? 1)%nat eqn:E;
    [apply Nat.eqb_eq in E; contradiction|].
  rewrite (mapM_base64_index _ Hsx), (base64_decode_sextets _ Hb). reflexivity.
Qed.

(** *** The fallback cipher undoes itself on Latin-1 text *)

Lemma xor_at_involutive (key : jsstring) (data : jsstring) : forall g : nat -> nat,
  Forall is_byte key -> Forall is_byte data ->
  imap (fun i c => String_fromCharCode (Z.lxor c (charCodeAt key (g i))))
       (imap (fun i c => String_fromCharCode (Z.lxor c (charCodeAt key (g i)))) data)
  = data.
Proof.
  induction data as [|c data IH]; intros g Hkey Hdata; [reflexivity|].
  apply Forall_cons in Hdata. destruct Hdata as [Hc Hdata].
  change (imap ?f (c :: data)) with (f 0%nat c :: imap (f ∘ S) data).
  change (imap ?f (?x :: ?l)) with (f 0%nat x :: imap (f ∘ S) l).
  f_equal.
  - pose proof (charCodeAt_byte key (g 0%nat) Hkey) as Hk.
    pose proof (lxor_byte c _ Hc Hk) as Hx.
    unfold String_fromCharCode.
    rewrite (Z.mod_small (Z.lxor c _)) by (unfold is_byte in *; lia).
    rewrite Z.lxor_assoc, Z.lxor_nilpotent, Z.lxor_0_r.
    apply Z.mod_small. unfold is_byte in Hc. lia.
  - apply (IH (fun i => g (S i)) Hkey Hdata).
Qed.

Lemma xor_with_key_involutive (key data : jsstring) :
  Forall is_byte key -> Forall is_byte data ->
  EncryptionService2.xor_with_key key (EncryptionService2.xor_with_key key data) = data.
Proof.
  intros Hkey Hdata. unfold EncryptionService2.xor_with_key.
  apply (xor_at_involutive key data (fun i => (i mod length key)%nat) Hkey Hdata).
Qed.

Lemma base64_encode_length bytes :
  js_length (base64_encode bytes) = 4 * ((js_length bytes + 2) / 3).
Proof.
  unfold js_length.
  induction bytes as [|a|a b|a b c rest IH] using triples_ind; try reflexivity.
  change (base64_encode (a :: b :: c :: rest))
    with (base64_char (Z.shiftr a 2)
          :: base64_char (Z.lor (Z.shiftl (Z.land a 3) 4) (Z.shiftr b 4))
          :: base64_char (Z.lor (Z.shiftl (Z.land b 15) 2) (Z.shiftr c 6))
          :: base64_char (Z.land c 63) :: base64_encode rest).
  cbn [length]. rewrite !Nat2Z.inj_succ, IH.
  replace (Z.succ (Z.succ (Z.succ (Z.of_nat (length rest)))) + 2)
    with (Z.of_nat (length rest) + 2 + 1 * 3) by lia.
  rewrite Z.div_add by lia. lia.
Qed.

Lemma simpleFallback_inverse (data : jsstring) :
  Forall is_byte data ->
  exists c,
    EncryptionService2.simpleFallbackEncrypt data = Ok c
    /\ js_length c = 4 * ((js_length data + 2) / 3)
    /\ atob c = Ok (EncryptionService2.xor_with_key (js "SecureNotesDevKey") data)
    /\ EncryptionService2.simpleFallbackDecrypt c = data.
Proof.
  intros Hdata.
  pose proof (xor_with_key_bytes _ _ fallback_key_bytes Hdata) as Hx.
  pose proof (atob_base64_encode _ Hx) as Hatob.
  eexists. split; [apply simpleFallbackEncrypt_bytes, Hdata|].
  split; [|split].
  - rewrite base64_encode_length. unfold js_length, EncryptionService2.xor_with_key.
    rewrite length_imap. reflexivity.
  - exact Hatob.
  - rewrite simpleFallbackDecrypt_unfold, Hatob.
    apply xor_with_key_involutive; [exact fallback_key_bytes | exact Hdata].
Qed.

(** Property X20. On Latin-1 text (every code unit below 256) the
    fallback cipher is its own inverse: [simpleFallbackEncrypt] returns
    the Base64 form of the text XORed with the fixed key, of length
    [4 * ceil(n / 3)], [atob] gives the XORed text back and
    [simpleFallbackDecrypt] returns the text. *)
Theorem simpleFallback_round_trip (data : jsstring) :
  Forall is_byte data ->
  exists c,
    EncryptionService2.simpleFallbackEncrypt data = Ok c
    /\ js_length c = 4 * ((js_length data + 2) / 3)
    /\ atob c = Ok (EncryptionService2.xor_with_key (js "SecureNotesDevKey") data)
    /\ EncryptionService2.simpleFallbackDecrypt c = data.
Proof. apply simpleFallback_inverse. Qed.

Section Fallback.
Variable Aes : option RNAes.
Import EncryptionService2.
Hypothesis no_encrypt : native_function Aes RNAes_encrypt = None.

Lemma fallback_encrypt_run data w e w' :
  encrypt Aes data w = (Ok e, w') ->
  simpleFallbackEncrypt data = Ok (encrypted e)
  /\ exists k, stored_key w' = Some k.
Proof.
  intros Henc.
  destruct (getEncryptionKey Aes w) as [[k|x] w1] eqn:Hg.
  - destruct (encrypt_run Aes data w k w1 Hg) as (ivBytes & g & Hrun & Hrun').
    rewrite Hrun', no_encrypt in Henc.
    destruct (simpleFallbackEncrypt data) as [c|y]; [|discriminate].
    injection Henc as <- <-. split; [reflexivity|]. exists k.
    unfold stored_key in *. cbn [keychain_available keychain set_rng].
    exact (getEncryptionKey2_result _ _ _ _ Hg).
  - rewrite (encrypt_key_fails _ _ _ _ _ Hg) in Henc. discriminate.
Qed.

(** Property X21. Without a native [encrypt], the ciphertext the
    second revision returns depends on the text alone: two successful
    encryptions of the same text give the same ciphertext, in whatever
    states (keys, random sources) they run. *)
Theorem fallback_ignores_key_and_iv data w1 e1 w1' w2 e2 w2' :
  encrypt Aes data w1 = (Ok e1, w1') ->
  encrypt Aes data w2 = (Ok e2, w2') ->
  encrypted e1 = encrypted e2.
Proof.
  intros H1 H2.
  apply fallback_encrypt_run in H1, H2. destruct H1 as [H1 _], H2 as [H2 _].
  congruence.
Qed.

Hypothesis no_decrypt : native_function Aes RNAes_decrypt = None.

(** Property X22. Without the native cipher, the second revision
    still decrypts what it encrypted, for Latin-1 text: [decrypt] of
    the ciphertext and IV that [encrypt] returned gives the text and
    changes nothing. *)
Theorem fallback_latin1_round_trip data w e w' :
  Forall is_byte data ->
  encrypt Aes data w = (Ok e, w') ->
  decrypt Aes (encrypted e) (iv e) w' = (Ok data, w').
Proof.
  intros Hdata Henc.
  pose proof (encrypt_iv_hex Aes data w e w' Henc) as (Hlen & _ & _).
  destruct (fallback_encrypt_run data w e w' Henc) as [Hc [k Hk]].
  assert (Hne : iv e <> []) by (intros E; rewrite E in Hlen; discriminate).
  rewrite (decrypt_valid_iv Aes _ _ w' k w' (getEncryptionKey2_stored _ _ _ Hk) Hne Hlen).
  rewrite no_decrypt.
  destruct (simpleFallback_inverse data Hdata) as (c & Hc' & _ & _ & Hrt).
  rewrite Hc in Hc'. injection Hc' as <-. rewrite Hrt. reflexivity.
Qed.

End Fallback.

(* ================================================================= *)
(** ** First use of the second revision; the third revision *)

Section Revision2FirstRun.
Variable Aes : option RNAes.
Import EncryptionService2.

(** Property X17. First use of the second revision without a native
    [pbkdf2]: with the keychain in reach and no entry in it,
    [getEncryptionKey] succeeds, the key is the random string itself,
    64 lowercase hexadecimal digits drawn from [Math.random], it is
    stored under the service name with the application's username, a
    salt is in place, and the next call returns the key. *)
Theorem getEncryptionKey2_first_run w :
  keychain_available w = true ->
  keychain w !! KEYCHAIN_SERVICE = None ->
  native_function Aes RNAes_pbkdf2 = None ->
  exists k w',
    getEncryptionKey Aes w = (Ok k, w')
    /\ js_length k = 64
    /\ forallb is_hex_digit k = true
    /\ keychain w' = <[KEYCHAIN_SERVICE := {| username := KEYCHAIN_USERNAME; password := k |}]>
                       (keychain w)
    /\ (exists salt : jsstring, async_storage w' !! SALT_KEY = Some salt /\ salt <> [])
    /\ getEncryptionKey Aes w' = (Ok k, w').
Proof.
  intros Ha Hk Hp.
  destruct (getSalt_run w) as (salt & w1 & Hsalt & Hne & Hstored & _ & Hkc & _).
  destruct (getSalt_frame _ _ _ Hsalt) as [Ha1 _].
  destruct (push_random_bytes_run 32 [] w1) as (bytes & g & Hrun & _).
  cbn [app] in Hrun.
  destruct (drawn_hex _ _ _ _ Hrun) as [Hlen Hhex].
  assert (Hget : getEncryptionKey Aes w =
                 (Ok (Array_join_empty bytes),
                  set_keychain (<[KEYCHAIN_SERVICE :=
                                    {| username := KEYCHAIN_USERNAME;
                                       password := Array_join_empty bytes |}]>
                                  (keychain w)) (set_rng g w1))).
  { unfold getEncryptionKey, try_catch, bind at 1, Keychain_getGenericPassword, keychain_guard.
    rewrite Ha, Hk. unfold bind at 1. rewrite Hsalt. unfold bind at 1.
    change (Z.to_nat KEY_SIZE) with 32%nat. rewrite Hrun, Hp.
    unfold bind, ret, Keychain_setGenericPassword, keychain_guard.
    cbn [keychain_available set_rng keychain]. rewrite Ha1, Ha, Hkc. reflexivity. }
  eexists. eexists. split; [exact Hget|].
  split; [exact Hlen|]. split; [exact Hhex|]. split; [reflexivity|].
  split; [exists salt; split; [exact Hstored | exact Hne]|].
  apply getEncryptionKey2_stored. unfold stored_key.
  cbn [keychain_available set_keychain set_rng keychain]. rewrite Ha1, Ha.
  change EncryptionService1.KEYCHAIN_SERVICE with KEYCHAIN_SERVICE.
  rewrite lookup_insert_eq. reflexivity.
Qed.

End Revision2FirstRun.

Section Revision3More.
Context {aes : AesLib}.

(** Property X23. The third revision's [decrypt] is the first
    revision's with a test in front: on an IV of at least 16 code
    units the two agree, result and state; on a shorter one (the empty
    string included) it throws [Error('Failed to decrypt data')] once
    the key is fetched and the cipher is not called. *)
Theorem decrypt3_iv_check c i w :
  (16 <= js_length i ->
   EncryptionService3.decrypt c i w = EncryptionService1.decrypt c i w)
  /\ (js_length i < 16 ->
      EncryptionService3.decrypt c i w
      = (Err (JsError "Failed to decrypt data"),
         snd (EncryptionService3.getEncryptionKey w))).
Proof.
  unfold EncryptionService3.decrypt, EncryptionService1.decrypt, try_catch, bind.
  rewrite getEncryptionKey3_same.
  split; intros Hlen.
  - assert (Hi : negb (truthy_string i) || (js_length i <? 16) = false).
    { apply orb_false_iff. split; [|apply Z.ltb_ge; exact Hlen].
      destruct i; [unfold js_length in Hlen; simpl in Hlen; lia | reflexivity]. }
    rewrite Hi.
    destruct (EncryptionService1.getEncryptionKey w) as [[k|x] w1]; [|reflexivity].
    unfold ret at 1. cbv iota. reflexivity.
  - assert (Hi : negb (truthy_string i) || (js_length i <? 16) = true).
    { apply orb_true_iff. right. apply Z.ltb_lt. exact Hlen. }
    rewrite Hi.
    destruct (EncryptionService1.getEncryptionKey w) as [[k|x] w1]; reflexivity.
Qed.

Hypothesis round_trip : AesRoundTrip aes.

(** Property X24. Round trip of the third revision, with a cipher that
    decrypts what it encrypted: [decrypt] of what [encrypt] returned
    gives the text back exactly when the IV that [Aes.randomKey(16)]
    produced has at least 16 code units, and throws otherwise. *)
Theorem decrypt3_encrypt3 data w e w' :
  EncryptionService3.encrypt data w = (Ok e, w') ->
  EncryptionService3.decrypt (encrypted e) (iv e) w'
  = (if js_length (iv e) <? 16 then Err (JsError "Failed to decrypt data") else Ok data, w').
Proof.
  rewrite encrypt3_same. intros He.
  apply encrypt_result in He. destruct He as (k & Hk & Hc).
  rewrite (decrypt_stored3 _ _ _ _ Hk). unfold decrypt_with3.
  destruct (js_length (iv e) <? 16) eqn:Hlen.
  - rewrite orb_true_r. reflexivity.
  - assert (Hne : truthy_string (iv e) = true).
    { apply Z.ltb_ge in Hlen. destruct (iv e); [unfold js_length in Hlen; simpl in Hlen; lia|].
      reflexivity. }
    rewrite Hne. cbn [negb orb]. rewrite (round_trip _ _ _ _ _ Hc). reflexivity.
Qed.

End Revision3More.

Section Revision3Reset.
Context {aes : AesLib}.

Lemma resetEncryptionKey3_run w :
  (keychain_available w = true ->
   exists w',
     EncryptionService3.resetEncryptionKey w = (Ok tt, w')
     /\ stored_key w' = None
     /\ async_storage w' = async_storage w
     /\ rng w' = rng w
     /\ (forall service, service <> EncryptionService3.KEYCHAIN_SERVICE ->
         keychain w' !! service = keychain w !! service)
     /\ (forall k w1, EncryptionService3.getEncryptionKey w' = (Ok k, w1) ->
         exists r g, Aes_randomKey 32 (rng w) = (Ok r, g)
                     /\ Aes_pbkdf2 r EncryptionService3.SALT 10000 32 (js "sha512") = Ok k))
  /\ (keychain_available w = false ->
      EncryptionService3.resetEncryptionKey w
      = (Err (JsError "Failed to reset encryption key"), w)).
Proof.
  unfold EncryptionService3.resetEncryptionKey, try_catch, Keychain_resetGenericPassword,
    keychain_guard, throw.
  split; intros Ha; rewrite Ha; [|reflexivity].
  eexists. split; [reflexivity|]. unfold stored_key. simpl. rewrite Ha.
  change EncryptionService1.KEYCHAIN_SERVICE with EncryptionService3.KEYCHAIN_SERVICE.
  rewrite lookup_delete_eq. do 3 (split; [reflexivity|]). split.
  - intros service Hne. apply lookup_delete_ne. congruence.
  - intros k w1. unfold EncryptionService3.getEncryptionKey, try_catch, bind,
      Keychain_getGenericPassword, Keychain_setGenericPassword, keychain_guard, zoom, call,
      ret, throw.
    cbn [keychain_available set_keychain keychain rng]. rewrite Ha, lookup_delete_eq.
    change EncryptionService3.KEY_BYTE_SIZE with 32.
    change (rng (set_keychain (delete EncryptionService3.KEYCHAIN_SERVICE (keychain w)) w))
      with (rng w).
    destruct (Aes_randomKey 32 (rng w)) as [[r|x] g] eqn:Hr; [|discriminate].
    destruct (Aes_pbkdf2 r EncryptionService3.SALT 10000 32 (js "sha512")) as [k'|x] eqn:Hp;
      [|discriminate].
    change (keychain_available (set_rng g (set_keychain
              (delete EncryptionService3.KEYCHAIN_SERVICE (keychain w)) w)))
      with (keychain_available w).
    rewrite Ha. intros [= <- _]. exists r, g. split; [reflexivity | exact Hp].
Qed.

(** Property X25. [resetEncryptionKey]. With the keychain in reach,
    the second revision removes the key and the salt and the third
    removes the key, each leaving every other entry and the random
    source as they were; a key the third revision returns afterwards is
    a newly generated one. With the keychain out of reach each throws
    its own error and removes nothing (the second keeps its salt). *)
Theorem resetEncryptionKey_outcome (c2 c3 : CryptoWorld) :
  ((keychain_available c2 = true ->
    exists w',
      EncryptionService2.resetEncryptionKey c2 = (Ok tt, w')
      /\ stored_key w' = None
      /\ async_storage w' !! EncryptionService2.SALT_KEY = None
      /\ rng w' = rng c2
      /\ (forall service, service <> EncryptionService2.KEYCHAIN_SERVICE ->
          keychain w' !! service = keychain c2 !! service)
      /\ (forall key, key <> EncryptionService2.SALT_KEY ->
          async_storage w' !! key = async_storage c2 !! key))
   /\ (keychain_available c2 = false ->
       EncryptionService2.resetEncryptionKey c2
       = (Err (JsError "Failed to reset encryption keys"), c2)))
  /\ ((keychain_available c3 = true ->
       exists w',
         EncryptionService3.resetEncryptionKey c3 = (Ok tt, w')
         /\ stored_key w' = None
         /\ async_storage w' = async_storage c3
         /\ rng w' = rng c3
         /\ (forall service, service <> EncryptionService3.KEYCHAIN_SERVICE ->
             keychain w' !! service = keychain c3 !! service)
         /\ (forall k w1, EncryptionService3.getEncryptionKey w' = (Ok k, w1) ->
             exists r g, Aes_randomKey 32 (rng c3) = (Ok r, g)
                         /\ Aes_pbkdf2 r EncryptionService3.SALT 10000 32 (js "sha512") = Ok k))
      /\ (keychain_available c3 = false ->
          EncryptionService3.resetEncryptionKey c3
          = (Err (JsError "Failed to reset encryption key"), c3))).
Proof. split; [apply resetEncryptionKey2_run | apply resetEncryptionKey3_run]. Qed.

End Revision3Reset.

(* ================================================================= *)
(** ** Further properties of the presenter, the model and the component *)

Section PresenterMore.
Context {ES : EncryptionService.API}.
Import NotePresenter.

Lemma notify_unregistered n p : view p = None -> notify n p = (Ok tt, p).
Proof. intros Hv. unfold notify. rewrite Hv. reflexivity. Qed.

Lemma set_world_unregistered w p :
  view p = None -> {| world := w; view := None; received := received p |} = set_world w p.
Proof. intros Hv. unfold set_world. rewrite Hv. reflexivity. Qed.

Lemma set_world_twice w2 w1 p : set_world w2 (set_world w1 p) = set_world w2 p.
Proof. reflexivity. Qed.

(** Property X26. With no view registered, each presenter operation
    returns normally, performs on the services exactly what the
    database calls it makes perform, and delivers nothing; the view
    stays unregistered. *)
Theorem presenter_without_view p :
  view p = None ->
  loadNotes p = (Ok tt, set_world (snd (DatabaseService.getAllNotes (world p))) p)
  /\ (forall i,
        deleteNote i p = (Ok tt, set_world (snd (DatabaseService.deleteNote i (world p))) p))
  /\ (forall T C,
        addNote T C p
        = (Ok tt,
           set_world (snd ((noteId <- DatabaseService.saveNote
                                        {| id := None; title := T; content := C;
                                           createdAt := None; updatedAt := None |} ;;
                            DatabaseService.getNote noteId) (world p))) p))
  /\ (forall i T C,
        updateNote i T C p
        = (Ok tt,
           set_world (snd ((DatabaseService.saveNote
                              {| id := Some i; title := T; content := C;
                                 createdAt := None; updatedAt := None |} ;;;
                            DatabaseService.getNote i) (world p))) p)).
Proof.
  intros Hv.
  assert (Hn : forall n w, notify n (set_world w p) = (Ok tt, set_world w p))
    by (intros n w; apply notify_unregistered; exact Hv).
  split; [|split; [|split]].
  - unfold loadNotes, try_catch, bind, in_world, zoom, handleError.
    destruct (DatabaseService.getAllNotes (world p)) as [[notes|x] w1];
      cbn [snd]; fold (set_world w1 p); rewrite Hn; reflexivity.
  - intros i. unfold deleteNote, try_catch, bind, in_world, zoom, handleError.
    destruct (DatabaseService.deleteNote i (world p)) as [[[]|x] w1];
      cbn [snd]; fold (set_world w1 p); rewrite Hn; reflexivity.
  - intros T C. unfold addNote, try_catch, bind, in_world, zoom, handleError.
    destruct (DatabaseService.saveNote _ (world p)) as [[n|x] w1]; cbn [snd].
    + fold (set_world w1 p). cbn [world set_world].
      destruct (DatabaseService.getNote n w1) as [[[note|]|x] w2]; cbn [snd];
        fold (set_world w2 (set_world w1 p)); rewrite ?set_world_twice;
        try rewrite Hn; reflexivity.
    + fold (set_world w1 p). rewrite Hn. reflexivity.
  - intros i T C. unfold updateNote, try_catch, bind, in_world, zoom, handleError.
    destruct (DatabaseService.saveNote _ (world p)) as [[n|x] w1]; cbn [snd].
    + fold (set_world w1 p). cbn [world set_world].
      destruct (DatabaseService.getNote i w1) as [[[note|]|x] w2]; cbn [snd];
        fold (set_world w2 (set_world w1 p)); rewrite ?set_world_twice;
        try rewrite Hn; reflexivity.
    + fold (set_world w1 p). rewrite Hn. reflexivity.
Qed.

Lemma notify_step n p :
  view (snd (notify n p)) = view p
  /\ (received (snd (notify n p)) = received p
      \/ exists v, view p = Some v /\ received (snd (notify n p)) = received p ++ [(v, n)]).
Proof.
  destruct (view p) as [v|] eqn:Hv.
  - rewrite (notify_registered n p v Hv). cbn [snd view received].
    split; [exact Hv|]. right. exists v. split; reflexivity.
  - rewrite (notify_unregistered n p Hv). cbn [snd].
    split; [exact Hv|]. left. reflexivity.
Qed.

Lemma errors_notify n p :
  match n with onError e => instanceof_Error e = true | _ => True end ->
  errors_are_Errors (received p) ->
  errors_are_Errors (received (snd (notify n p))) /\ view (snd (notify n p)) = view p.
Proof.
  intros Hn Hp. destruct (notify_step n p) as [Hv [Hr|(v & _ & Hr)]]; rewrite Hr.
  - split; [exact Hp | exact Hv].
  - split; [|exact Hv]. apply Forall_app. split; [exact Hp|].
    constructor; [exact Hn | constructor].
Qed.

Lemma errors_handleError e p :
  errors_are_Errors (received p) ->
  errors_are_Errors (received (snd (handleError e p)))
  /\ view (snd (handleError e p)) = view p.
Proof.
  intros Hp. unfold handleError. apply errors_notify; [|exact Hp].
  destruct e; reflexivity.
Qed.

Lemma errors_try_notify n p :
  match n with onError e => instanceof_Error e = true | _ => True end ->
  errors_are_Errors (received p) ->
  errors_are_Errors
    (received (snd (let (r, s') := notify n p in
                    match r with
                    | Ok a => (Ok a, s')
                    | Err e => handleError e s'
                    end)))
  /\ view (snd (let (r, s') := notify n p in
                match r with
                | Ok a => (Ok a, s')
                | Err e => handleError e s'
                end)) = view p.
Proof.
  intros Hn Hp. pose proof (errors_notify n p Hn Hp) as H.
  assert (Hok : notify n p = (Ok tt, snd (notify n p)))
    by (unfold notify; destruct (view p); reflexivity).
  rewrite Hok. exact H.
Qed.

(** Property X27. Every [onError] a view receives carries an [Error]
    object: the four operations keep that true of the calls received,
    and none of them changes the registered view. [handleError] passes
    an [Error] on as it is and wraps any other thrown value in an
    [Error] whose message is its string form. *)
Theorem presenter_wraps_errors p :
  errors_are_Errors (received p) ->
  (errors_are_Errors (received (snd (loadNotes p))) /\ view (snd (loadNotes p)) = view p)
  /\ (forall T C, errors_are_Errors (received (snd (addNote T C p)))
                  /\ view (snd (addNote T C p)) = view p)
  /\ (forall i T C, errors_are_Errors (received (snd (updateNote i T C p)))
                    /\ view (snd (updateNote i T C p)) = view p)
  /\ (forall i, errors_are_Errors (received (snd (deleteNote i p)))
                /\ view (snd (deleteNote i p)) = view p)
  /\ (forall e v, view p = Some v ->
        handleError e p
        = (Ok tt, {| world := world p; view := Some v;
                     received := received p ++ [(v, onError (JsError (String_of_thrown e)))] |})).
Proof.
  intros Hp.
  assert (Hw : forall w, errors_are_Errors (received (set_world w p))) by (intros w; exact Hp).
  split; [|split; [|split; [|split]]].
  - unfold loadNotes, try_catch, bind, in_world, zoom.
    destruct (DatabaseService.getAllNotes (world p)) as [[notes|x] w1]; fold (set_world w1 p).
    + apply (errors_try_notify (onNotesLoaded notes) (set_world w1 p) I (Hw w1)).
    + apply (errors_handleError x (set_world w1 p) (Hw w1)).
  - intros T C. unfold addNote, try_catch, bind, in_world, zoom.
    destruct (DatabaseService.saveNote _ (world p)) as [[n|x] w1]; fold (set_world w1 p).
    + cbn [world set_world].
      destruct (DatabaseService.getNote n w1) as [[[note|]|x] w2];
        fold (set_world w2 (set_world w1 p)); rewrite ?set_world_twice.
      * apply (errors_try_notify (onNoteAdded note) (set_world w2 p) I (Hw w2)).
      * split; [exact Hp | reflexivity].
      * apply (errors_handleError x (set_world w2 p) (Hw w2)).
    + apply (errors_handleError x (set_world w1 p) (Hw w1)).
  - intros i T C. unfold updateNote, try_catch, bind, in_world, zoom.
    destruct (DatabaseService.saveNote _ (world p)) as [[n|x] w1]; fold (set_world w1 p).
    + cbn [world set_world].
      destruct (DatabaseService.getNote i w1) as [[[note|]|x] w2];
        fold (set_world w2 (set_world w1 p)); rewrite ?set_world_twice.
      * apply (errors_try_notify (onNoteUpdated note) (set_world w2 p) I (Hw w2)).
      * split; [exact Hp | reflexivity].
      * apply (errors_handleError x (set_world w2 p) (Hw w2)).
    + apply (errors_handleError x (set_world w1 p) (Hw w1)).
  - intros i. unfold deleteNote, try_catch, bind, in_world, zoom.
    destruct (DatabaseService.deleteNote i (world p)) as [[[]|x] w1]; fold (set_world w1 p).
    + apply (errors_try_notify (onNoteDeleted i) (set_world w1 p) I (Hw w1)).
    + apply (errors_handleError x (set_world w1 p) (Hw w1)).
  - intros e v Hv. unfold handleError. rewrite (notify_registered _ _ v Hv), Hv.
    destruct e; reflexivity.
Qed.

End PresenterMore.

Section PresenterLinked.
Context {ES : EncryptionService.API}.
Variable stored : CryptoWorld -> option jsstring.
Variable decrypt_with : jsstring -> jsstring -> jsstring -> result jsstring.
Hypothesis laws : EncryptionLaws ES stored decrypt_with.
Import NotePresenter.

(** Property X28. With an encryption service that obeys the laws, a
    view registered, the database able to serve and both fields
    encrypting, [addNote T C] delivers exactly one call,
    [onNoteAdded] of the note [{id, T, C, createdAt, updatedAt}] with
    the new id and the time of the call; [getNote] of that id returns
    this note, and the list the component shows gets it at its head. *)
Theorem addNote_delivers_stored T C p v e1 c1 e2 c2 :
  view p = Some v ->
  operational (db (world p)) ->
  EncryptionService.encrypt T (crypto (world p)) = (Ok e1, c1) ->
  EncryptionService.encrypt C c1 = (Ok e2, c2) ->
  exists note p',
    addNote T C p = (Ok tt, p')
    /\ note = {| id := Some (next_rowid (current_table (db (world p))));
                 title := T; content := C;
                 createdAt := Some (now (world p)); updatedAt := Some (now (world p)) |}
    /\ received p' = received p ++ [(v, onNoteAdded note)]
    /\ view p' = Some v
    /\ DatabaseService.getNote (next_rowid (current_table (db (world p)))) (world p')
       = (Ok (Some note), world p')
    /\ forall notes, shown (received p') notes = note :: shown (received p) notes.
Proof.
  intros Hv Hop H1 H2.
  destruct (saveNote_new_read_back stored decrypt_with laws T C (world p) e1 c1 e2 c2 Hop H1 H2)
    as (w' & Hsave & Hget).
  eexists. exists {| world := w'; view := view p;
                     received := received p ++ [(v, onNoteAdded
                        {| id := Some (next_rowid (current_table (db (world p))));
                           title := T; content := C;
                           createdAt := Some (now (world p));
                           updatedAt := Some (now (world p)) |})] |}.
  split; [|split; [reflexivity|split; [reflexivity|split; [exact Hv|split; [exact Hget|]]]]].
  - unfold addNote, try_catch, bind, in_world, zoom. rewrite Hsave.
    cbn [world set_world]. rewrite Hget.
    rewrite (notify_registered _ _ v) by exact Hv. reflexivity.
  - intros notes. unfold shown. cbn [received]. rewrite fold_left_app. reflexivity.
Qed.

End PresenterLinked.

(** *** NoteModel *)

Section ModelFacts.
Context {ES : EncryptionService.API}.

Lemma rethrow_same {S A} (m : M S A) s :
  (try m catch (fun error => throw error)) s = m s.
Proof. unfold try_catch, throw. destruct (m s) as [[a|e] s']; reflexivity. Qed.

(** Property X29. The methods of NoteModel add nothing to the
    database service's: each returns the result, thrown errors
    included, and the state of the call it wraps. [updateNote] drops
    the id [saveNote] returns; called with id 0 on a working database
    it does not update but adds a row. *)
Theorem NoteModel_passes_through w :
  NoteModel.getAllNotes w = DatabaseService.getAllNotes w
  /\ (forall i, NoteModel.getNoteById i w = DatabaseService.getNote i w)
  /\ (forall T C, NoteModel.createNote T C w
                  = DatabaseService.saveNote {| id := None; title := T; content := C;
                                                createdAt := None; updatedAt := None |} w)
  /\ (forall i, NoteModel.deleteNote i w = DatabaseService.deleteNote i w)
  /\ (forall i T C,
        snd (NoteModel.updateNote i T C w)
        = snd (DatabaseService.saveNote {| id := Some i; title := T; content := C;
                                           createdAt := None; updatedAt := None |} w)
        /\ match fst (DatabaseService.saveNote {| id := Some i; title := T; content := C;
                                                  createdAt := None; updatedAt := None |} w) with
           | Ok _ => fst (NoteModel.updateNote i T C w) = Ok tt
           | Err e => fst (NoteModel.updateNote i T C w) = Err e
           end)
  /\ (forall T C w',
        operational (db w) ->
        NoteModel.updateNote 0 T C w = (Ok tt, w') ->
        length (rows (current_table (db w'))) = S (length (rows (current_table (db w))))).
Proof.
  split; [apply rethrow_same|]. split; [intros i; apply rethrow_same|].
  split; [intros T C; apply rethrow_same|]. split; [intros i; apply rethrow_same|].
  split.
  - intros i T C. unfold NoteModel.updateNote. rewrite rethrow_same. unfold bind, ret.
    destruct (DatabaseService.saveNote _ w) as [[n|e] w']; split; reflexivity.
  - intros T C w' Hop. unfold NoteModel.updateNote. rewrite rethrow_same. unfold bind, ret.
    destruct (DatabaseService.saveNote _ w) as [[m|e] w1] eqn:Hsave; [|discriminate].
    intros [= <-].
    destruct (saveNote_returns _ _ _ _ Hsave) as (_ & e1 & c1 & e2 & c2 & H1 & H2).
    rewrite (saveNote_run _ w e1 c1 e2 c2 Hop H1 H2) in Hsave.
    cbn in Hsave. injection Hsave as _ <-.
    rewrite current_table_with_table. cbn [rows]. rewrite length_app. cbn [length]. lia.
Qed.

End ModelFacts.

(** *** The list the component shows *)

(** Property X30. The list the NoteList component shows.
    [onNoteUpdated] keeps the length and the ids of the list, makes
    every entry with the note's id equal to the note, and changes
    nothing when no entry has that id. [onNoteDeleted] leaves no entry
    with the id, keeps the others in order and is idempotent. Deleting
    the id of a note just added removes it again, and when the id was
    new to a list with distinct ids, the list with the note added still
    has distinct ids. *)
Theorem note_list_updates (note : Note) (i : Z) (prev : list Note) :
  (map id (NoteList.onNoteUpdated note prev) = map id prev
   /\ (forall n, n ∈ NoteList.onNoteUpdated note prev -> id n = id note -> n = note)
   /\ (Forall (fun n => id n <> id note) prev -> NoteList.onNoteUpdated note prev = prev))
  /\ (Forall (fun n => id n <> Some i) (NoteList.onNoteDeleted i prev)
      /\ sublist (NoteList.onNoteDeleted i prev) prev
      /\ (forall n, n ∈ prev -> id n <> Some i -> n ∈ NoteList.onNoteDeleted i prev)
      /\ NoteList.onNoteDeleted i (NoteList.onNoteDeleted i prev)
         = NoteList.onNoteDeleted i prev)
  /\ (id note = Some i ->
      NoteList.onNoteDeleted i (NoteList.onNoteAdded note prev) = NoteList.onNoteDeleted i prev)
  /\ (id note = Some i -> Forall (fun n => id n <> Some i) prev ->
      NoDup (map id prev) ->
      NoteList.onNoteDeleted i (NoteList.onNoteAdded note prev) = prev
      /\ NoDup (map id (NoteList.onNoteAdded note prev))).
Proof.
  assert (Hdel : forall l, Forall (fun n => id n <> Some i) l -> NoteList.onNoteDeleted i l = l).
  { intros l Hl. unfold NoteList.onNoteDeleted. induction Hl as [|n l Hn _ IH]; [reflexivity|].
    cbn [List.filter]. unfold NoteList.same_id at 1.
    destruct (bool_decide_reflect (id n = Some i)) as [E|E]; [contradiction|].
    cbn [negb]. rewrite IH. reflexivity. }
  assert (Hgone : forall l, Forall (fun n => id n <> Some i) (NoteList.onNoteDeleted i l)).
  { intros l. apply Forall_forall. intros n Hn. apply list_elem_of_In in Hn.
    unfold NoteList.onNoteDeleted in Hn. apply filter_In in Hn. destruct Hn as [_ Hn].
    unfold NoteList.same_id in Hn.
    destruct (bool_decide_reflect (id n = Some i)) as [E|E]; [discriminate | exact E]. }
  split; [split; [|split]|split; [split; [|split; [|split]]|split]].
  - unfold NoteList.onNoteUpdated. rewrite List.map_map. apply List.map_ext. intros n.
    unfold NoteList.same_id. destruct (bool_decide_reflect (id n = id note)) as [E|E];
      [symmetry; exact E | reflexivity].
  - intros n Hn Hid. apply list_elem_of_fmap in Hn. destruct Hn as (m & -> & _).
    unfold NoteList.same_id in *.
    destruct (bool_decide_reflect (id m = id note)) as [E|E]; [reflexivity | contradiction].
  - intros Hall. unfold NoteList.onNoteUpdated. induction Hall as [|n l Hn _ IH]; [reflexivity|].
    cbn [map]. unfold NoteList.same_id at 1.
    destruct (bool_decide_reflect (id n = id note)) as [E|E]; [contradiction|].
    rewrite IH. reflexivity.
  - apply Hgone.
  - unfold NoteList.onNoteDeleted. induction prev as [|n l IH]; [constructor|].
    cbn [List.filter]. destruct (negb _); [apply sublist_skip | apply sublist_cons]; exact IH.
  - intros n Hn Hid. apply list_elem_of_In. unfold NoteList.onNoteDeleted.
    apply filter_In. split; [apply list_elem_of_In; exact Hn|].
    unfold NoteList.same_id. destruct (bool_decide_reflect (id n = Some i)) as [E|E];
      [contradiction | reflexivity].
  - apply Hdel, Hgone.
  - intros Hid. unfold NoteList.onNoteAdded, NoteList.onNoteDeleted. cbn [List.filter].
    unfold NoteList.same_id at 1.
    destruct (bool_decide_reflect (id note = Some i)) as [E|E]; [reflexivity | contradiction].
  - intros Hid Hall Hnd. split.
    + unfold NoteList.onNoteAdded. transitivity (NoteList.onNoteDeleted i prev).
      * unfold NoteList.onNoteDeleted. cbn [List.filter]. unfold NoteList.same_id at 1.
        destruct (bool_decide_reflect (id note = Some i)) as [E|E];
          [reflexivity | contradiction].
      * apply Hdel, Hall.
    + unfold NoteList.onNoteAdded. cbn [map]. apply NoDup_cons. split; [|exact Hnd].
      intros Hin. apply list_elem_of_fmap in Hin. destruct Hin as (m & Hm & Hin).
      rewrite Forall_forall in Hall. apply (Hall m Hin). congruence.
Qed.

(* ================================================================= *)
(** ** The further properties on concrete runs *)

Ltac decided :=
  match goal with |- ?P => apply (bool_decide_unpack P) end; vm_compute; exact I.

(** The row at a position of the table is one of its rows. *)
Ltac found_at n := apply (list_elem_of_lookup_2 _ n); evaluated.

Lemma scenario_well_keyed :
  well_keyed (current_table (db Scenario.one_note))
  /\ well_keyed (current_table (db (Scenario.at_time 4000 Scenario.three_notes))).
Proof. split; (split; decided). Qed.

Lemma deleteNote_removes_witness :
  exists w',
    DatabaseService.deleteNote 1 Scenario.one_note = (Ok tt, w')
    /\ @DatabaseService.getNote Scenario.linked 1 w' = (Ok None, w').
Proof.
  destruct (@deleteNote_removes Scenario.linked 1 Scenario.one_note
              (proj1 (proj2 scenario_operational))) as (w' & H1 & _ & _ & H2 & _).
  exists w'. split; [exact H1 | exact H2].
Defined.

Lemma primary_key_kept_witness :
  well_keyed (current_table (db (snd (@DatabaseService.saveNote Scenario.linked
                                        (Scenario.new_note (js "B") (js "b"))
                                        Scenario.one_note)))).
Proof.
  exact (proj1 (@primary_key_kept Scenario.linked (Scenario.new_note (js "B") (js "b")) 1
                  Scenario.one_note (proj1 scenario_well_keyed))).
Defined.

Lemma deleted_id_not_reused_witness :
  col_id (Scenario.row_with_id 3 (Scenario.at_time 4000 Scenario.three_notes)) < 4.
Proof.
  apply (@deleted_id_not_reused Scenario.linked (Scenario.new_note (js "D") (js "d"))
           (Scenario.row_with_id 3 (Scenario.at_time 4000 Scenario.three_notes))
           (Scenario.at_time 4000 Scenario.three_notes) 4).
  - exact (proj2 scenario_well_keyed).
  - found_at 2%nat.
  - reflexivity.
  - evaluated.
Defined.

Lemma saveNote_failure_writes_nothing_witness :
  current_table (db (snd (@DatabaseService.saveNote Scenario.linked
                            (Scenario.new_note (js "A") (js "a")) Session.locked_world)))
  = current_table (db Session.locked_world)
  /\ now (snd (@DatabaseService.saveNote Scenario.linked
                 (Scenario.new_note (js "A") (js "a")) Session.locked_world)) = 1000.
Proof.
  apply (@saveNote_failure_writes_nothing Scenario.linked
           (Scenario.new_note (js "A") (js "a")) Session.locked_world
           (JsError "Failed to encrypt data")).
  evaluated.
Defined.

Lemma getNote_returns_the_row_witness :
  exists row,
    row ∈ rows (current_table (db Scenario.one_note))
    /\ col_id row = 1
    /\ Some 1000 = Some (col_createdAt row).
Proof.
  destruct (@getNote_returns_the_row Scenario.linked 1 Scenario.one_note
              {| id := Some 1; title := js "A"; content := js "a";
                 createdAt := Some 1000; updatedAt := Some 1000 |}
              (snd (@DatabaseService.getNote Scenario.linked 1 Scenario.one_note))
              ltac:(evaluated))
    as (_ & row & H1 & H2 & H3 & _).
  exists row. split; [exact H1|]. split; [exact H2 | exact H3].
Defined.

Lemma close_is_transparent_witness :
  database (db (snd (DatabaseService.close Scenario.one_note))) = false
  /\ @DatabaseService.getAllNotes Scenario.linked
       (snd (DatabaseService.close Scenario.one_note))
     = @DatabaseService.getAllNotes Scenario.linked Scenario.one_note.
Proof.
  destruct (@close_is_transparent Scenario.linked (Scenario.new_note [] []) 1 Scenario.one_note
              (proj1 (proj2 scenario_operational)) ltac:(evaluated))
    as (H1 & _ & _ & _ & H2 & _).
  split; [exact H1 | exact H2].
Defined.

Lemma unopenable_database_fails_witness :
  @DatabaseService.getAllNotes Scenario.linked Session.no_database
  = (Err (JsError "Failed to initialize database"), Session.no_database).
Proof.
  exact (proj1 (proj2 (proj2 (@unopenable_database_fails Scenario.linked
                                (Scenario.new_note [] []) 1 Session.no_database
                                eq_refl eq_refl)))).
Defined.

Lemma resetDatabase_empties_witness :
  exists w',
    DatabaseMaintenance.resetDatabase EncryptionService3.resetEncryptionKey
      Scenario.one_note = (Ok tt, w')
    /\ @DatabaseService.getAllNotes Session.linked3 w' = (Ok [], w').
Proof.
  destruct (@resetDatabase_empties Session.linked3 EncryptionService3.resetEncryptionKey
              Scenario.one_note
              (snd (EncryptionService3.resetEncryptionKey (crypto Scenario.one_note)))
              (proj1 (proj2 scenario_operational)) ltac:(evaluated))
    as (w' & H1 & _ & _ & H2 & _).
  exists w'. split; [exact H1 | exact H2].
Defined.

Lemma keychain_lost_operational : operational (db (Session.keychain_lost Scenario.one_note)).
Proof. apply operational_computed; evaluated. Qed.

Lemma resetDatabase_failure_leaves_no_table_witness :
  exists w',
    DatabaseMaintenance.resetDatabase EncryptionService3.resetEncryptionKey
      (Session.keychain_lost Scenario.one_note)
    = (Err (JsError "Failed to reset database"), w')
    /\ table (db w') = None.
Proof.
  destruct (@resetDatabase_failure_leaves_no_table Session.linked3
              EncryptionService3.resetEncryptionKey
              (Session.keychain_lost Scenario.one_note)
              (JsError "Failed to reset encryption key")
              (crypto (Session.keychain_lost Scenario.one_note))
              (Scenario.new_note [] []) 1
              keychain_lost_operational ltac:(evaluated))
    as (w' & H1 & _ & H2 & _).
  exists w'. split; [exact H1 | exact H2].
Defined.

Lemma keychain_unavailable_witness :
  EncryptionService2.encrypt Scenario.no_native (js "hi") Session.keychain_down
  = (Err (JsError "Failed to encrypt data"), Session.keychain_down).
Proof.
  exact (proj1 (proj2 (proj1 (proj2 (@keychain_unavailable ModelCipher.lib Scenario.no_native
                                       (js "hi") [] [] Session.keychain_down eq_refl))))).
Defined.

Lemma failed_key_generation_stores_nothing_witness :
  keychain (snd (@EncryptionService1.getEncryptionKey ModelCipher.lib Session.keychain_down))
  = keychain Session.keychain_down
  /\ async_storage
       (snd (@EncryptionService1.getEncryptionKey ModelCipher.lib Session.keychain_down))
     = async_storage Session.keychain_down.
Proof.
  destruct (@failed_key_generation_stores_nothing ModelCipher.lib Session.keychain_down
              (JsError "Failed to secure the encryption key")
              (snd (@EncryptionService1.getEncryptionKey ModelCipher.lib Session.keychain_down))
              ltac:(evaluated)) as (_ & H1 & _ & H2 & _).
  split; [exact H1 | exact H2].
Defined.

Lemma encrypt_iv_format_witness :
  js_length (iv (Scenario.value_of Session.no_cipher_text (fst Session.fallback_encrypt))) = 32.
Proof.
  apply (proj1 (encrypt_iv_format Scenario.no_native (js "hi") ModelCipher.fresh_crypto
                  (Scenario.value_of Session.no_cipher_text (fst Session.fallback_encrypt))
                  (snd Session.fallback_encrypt) ltac:(evaluated))).
Defined.

Lemma getEncryptionKey2_same_key_witness :
  EncryptionService2.getEncryptionKey Scenario.no_native
    (after_requests2 Scenario.no_native [EncryptData (js "hi"); DecryptData [] []]
       (snd Session.fallback_key))
  = (Ok (Scenario.value_of [] (fst Session.fallback_key)),
     after_requests2 Scenario.no_native [EncryptData (js "hi"); DecryptData [] []]
       (snd Session.fallback_key)).
Proof.
  apply (getEncryptionKey2_same_key Scenario.no_native ModelCipher.fresh_crypto
           (Scenario.value_of [] (fst Session.fallback_key)) (snd Session.fallback_key)
           ltac:(evaluated) [EncryptData (js "hi"); DecryptData [] []]).
Defined.

Lemma latin1_hi : Forall is_byte (js "hi").
Proof. repeat constructor; unfold is_byte; simpl; lia. Qed.

Lemma simpleFallback_round_trip_witness :
  exists c,
    EncryptionService2.simpleFallbackEncrypt (js "hi") = Ok c
    /\ EncryptionService2.simpleFallbackDecrypt c = js "hi".
Proof.
  destruct (simpleFallback_round_trip (js "hi") latin1_hi) as (c & H1 & _ & _ & H2).
  exists c. split; [exact H1 | exact H2].
Defined.

Lemma fallback_ignores_key_and_iv_witness :
  encrypted (Scenario.value_of Session.no_cipher_text (fst Session.fallback_encrypt))
  = encrypted (Scenario.value_of Session.no_cipher_text
                 (fst (EncryptionService2.encrypt Scenario.no_native (js "hi")
                         (snd Session.fallback_encrypt)))).
Proof.
  apply (fallback_ignores_key_and_iv Scenario.no_native eq_refl (js "hi")
           ModelCipher.fresh_crypto _ (snd Session.fallback_encrypt)
           (snd Session.fallback_encrypt) _
           (snd (EncryptionService2.encrypt Scenario.no_native (js "hi")
                   (snd Session.fallback_encrypt))));
    evaluated.
Defined.

Lemma fallback_latin1_round_trip_witness :
  EncryptionService2.decrypt Scenario.no_native
    (encrypted (Scenario.value_of Session.no_cipher_text (fst Session.fallback_encrypt)))
    (iv (Scenario.value_of Session.no_cipher_text (fst Session.fallback_encrypt)))
    (snd Session.fallback_encrypt)
  = (Ok (js "hi"), snd Session.fallback_encrypt).
Proof.
  apply (fallback_latin1_round_trip Scenario.no_native eq_refl eq_refl (js "hi")
           ModelCipher.fresh_crypto _ _ latin1_hi).
  evaluated.
Defined.

Lemma getEncryptionKey2_first_run_witness :
  exists k w',
    EncryptionService2.getEncryptionKey Scenario.no_native ModelCipher.fresh_crypto = (Ok k, w')
    /\ js_length k = 64.
Proof.
  destruct (getEncryptionKey2_first_run Scenario.no_native ModelCipher.fresh_crypto
              eq_refl eq_refl eq_refl) as (k & w' & H1 & H2 & _).
  exists k, w'. split; [exact H1 | exact H2].
Defined.

Lemma decrypt3_iv_check_witness :
  @EncryptionService3.decrypt ModelCipher.lib (js "text") (js "short") ModelCipher.fresh_crypto
  = (Err (JsError "Failed to decrypt data"),
     snd (@EncryptionService3.getEncryptionKey ModelCipher.lib ModelCipher.fresh_crypto)).
Proof.
  apply (proj2 (@decrypt3_iv_check ModelCipher.lib (js "text") (js "short")
                  ModelCipher.fresh_crypto)).
  reflexivity.
Defined.

Lemma decrypt3_encrypt3_witness :
  @EncryptionService3.decrypt ModelCipher.lib
    (encrypted (Scenario.value_of Session.no_cipher_text (fst Session.service3_encrypt)))
    (iv (Scenario.value_of Session.no_cipher_text (fst Session.service3_encrypt)))
    (snd Session.service3_encrypt)
  = (Ok (js "hi"), snd Session.service3_encrypt).
Proof.
  rewrite (@decrypt3_encrypt3 ModelCipher.lib model_cipher_round_trip (js "hi")
             ModelCipher.fresh_crypto
             (Scenario.value_of Session.no_cipher_text (fst Session.service3_encrypt))
             (snd Session.service3_encrypt) ltac:(evaluated)).
  evaluated.
Defined.

Lemma resetEncryptionKey_outcome_witness :
  EncryptionService2.resetEncryptionKey Session.keychain_down
  = (Err (JsError "Failed to reset encryption keys"), Session.keychain_down)
  /\ exists w', EncryptionService3.resetEncryptionKey (snd Scenario.first_run) = (Ok tt, w')
                /\ stored_key w' = None.
Proof.
  destruct (@resetEncryptionKey_outcome ModelCipher.lib Session.keychain_down
              (snd Scenario.first_run)) as [[_ H2] [H3 _]].
  split; [exact (H2 eq_refl)|].
  destruct (H3 ltac:(evaluated)) as (w' & Hr & Hs & _).
  exists w'. split; [exact Hr | exact Hs].
Defined.

Lemma listed_ids_distinct_witness :
  NoDup (map id (Scenario.value_of []
                   (fst (@DatabaseService.getAllNotes Scenario.linked
                           (Scenario.at_time 4000 Scenario.three_notes))))).
Proof.
  apply (proj1 (@listed_ids_distinct Scenario.linked
                  (Scenario.at_time 4000 Scenario.three_notes) _
                  (snd (@DatabaseService.getAllNotes Scenario.linked
                          (Scenario.at_time 4000 Scenario.three_notes)))
                  (proj1 (proj2 (proj2 scenario_operational)))
                  (proj2 scenario_well_keyed) ltac:(evaluated))).
Defined.

Lemma deleted_note_not_listed_witness :
  Forall (fun n => id n <> Some 2)
    (Scenario.value_of []
       (fst (@DatabaseService.getAllNotes Scenario.linked
               (snd (DatabaseService.deleteNote 2
                       (Scenario.at_time 4000 Scenario.three_notes)))))).
Proof.
  apply (@deleted_note_not_listed Scenario.linked 2
           (Scenario.at_time 4000 Scenario.three_notes) _
           (snd (@DatabaseService.getAllNotes Scenario.linked
                   (snd (DatabaseService.deleteNote 2
                           (Scenario.at_time 4000 Scenario.three_notes)))))
           (proj1 (proj2 (proj2 scenario_operational)))).
  evaluated.
Defined.

Lemma updated_note_read_back_witness :
  exists w',
    @DatabaseService.saveNote Scenario.linked (Scenario.edited_note 1 (js "A") (js "a2"))
      (Scenario.at_time 4000 Scenario.three_notes) = (Ok 1, w')
    /\ @DatabaseService.getNote Scenario.linked 1 w'
       = (Ok (Some {| id := Some 1; title := js "A"; content := js "a2";
                      createdAt := Some 1000; updatedAt := Some 4000 |}), w').
Proof.
  set (w := Scenario.at_time 4000 Scenario.three_notes).
  set (r1 := @EncryptionService.encrypt Scenario.linked (js "A") (crypto w)).
  set (r2 := @EncryptionService.encrypt Scenario.linked (js "a2") (snd r1)).
  destruct (@updated_note_read_back Scenario.linked stored_key (@decrypt_with1 ModelCipher.lib)
              linked_laws (Scenario.edited_note 1 (js "A") (js "a2")) 1
              (Scenario.row_with_id 1 w) w
              (Scenario.value_of Session.no_cipher_text (fst r1)) (snd r1)
              (Scenario.value_of Session.no_cipher_text (fst r2)) (snd r2)
              eq_refl ltac:(discriminate)
              (proj1 (proj2 (proj2 scenario_operational)))
              (proj2 scenario_well_keyed)
              ltac:(found_at 0%nat) ltac:(evaluated) ltac:(evaluated) ltac:(evaluated))
    as (w' & H1 & H2 & _).
  exists w'. split; [exact H1 | exact H2].
Defined.

Lemma presenter_without_view_witness :
  received (snd (@NotePresenter.loadNotes Scenario.linked
                   (Session.unregistered Scenario.one_note))) = []
  /\ received (snd (NotePresenter.deleteNote 1
                      (Session.unregistered Scenario.one_note))) = [].
Proof.
  destruct (@presenter_without_view Scenario.linked (Session.unregistered Scenario.one_note)
              eq_refl) as (H1 & H2 & _).
  rewrite H1, (H2 1). split; reflexivity.
Defined.

Lemma presenter_wraps_errors_witness :
  errors_are_Errors
    (received (snd (NotePresenter.deleteNote 1
                      (Scenario.screen Session.no_database)))).
Proof.
  exact (proj1 (proj1 (proj2 (proj2 (proj2
           (@presenter_wraps_errors Scenario.linked (Scenario.screen Session.no_database)
              (Forall_nil_2 _))))) 1)).
Defined.

Lemma addNote_delivers_stored_witness :
  exists p',
    @NotePresenter.addNote Scenario.linked (js "B") (js "b")
      (Scenario.screen (Scenario.at_time 2000 Scenario.one_note)) = (Ok tt, p')
    /\ received p'
       = [(0%nat, onNoteAdded {| id := Some 2; title := js "B"; content := js "b";
                                 createdAt := Some 2000; updatedAt := Some 2000 |})].
Proof.
  set (w := Scenario.at_time 2000 Scenario.one_note).
  set (r1 := @EncryptionService.encrypt Scenario.linked (js "B") (crypto w)).
  set (r2 := @EncryptionService.encrypt Scenario.linked (js "b") (snd r1)).
  destruct (@addNote_delivers_stored Scenario.linked stored_key (@decrypt_with1 ModelCipher.lib)
              linked_laws (js "B") (js "b") (Scenario.screen w) 0%nat
              (Scenario.value_of Session.no_cipher_text (fst r1)) (snd r1)
              (Scenario.value_of Session.no_cipher_text (fst r2)) (snd r2)
              eq_refl ltac:(apply operational_computed; evaluated)
              ltac:(evaluated) ltac:(evaluated))
    as (note & p' & H1 & Hn & H2 & _).
  exists p'. split; [exact H1|]. rewrite H2, Hn. evaluated.
Defined.

(* ================================================================= *)
(** ** Saving and reading back; the cipher without the native module *)

Section SaveAndRead.
Context {ES : EncryptionService.API}.
Import DatabaseService.

(** [saveNote] of a note without an id, then [getNote] of the id it
    returned, when [decrypt], in the state the save left, turns each of
    the two ciphertexts into the field it was made from. *)
Lemma saveNote_read_back note w e1 c1 e2 c2 :
  id note = None ->
  operational (db w) ->
  EncryptionService.encrypt (title note) (crypto w) = (Ok e1, c1) ->
  EncryptionService.encrypt (content note) c1 = (Ok e2, c2) ->
  EncryptionService.decrypt (encrypted e1) (iv e1) c2 = (Ok (title note), c2) ->
  EncryptionService.decrypt (encrypted e2) (iv e2) c2 = (Ok (content note), c2) ->
  exists n w',
    saveNote note w = (Ok n, w')
    /\ (forall r, r ∈ rows (current_table (db w)) -> col_id r < n)
    /\ getNote n w' =
         (Ok (Some {| id := Some n; title := title note; content := content note;
                      createdAt := Some (or_else (createdAt note) (now w));
                      updatedAt := Some (now w) |}), w').
Proof.
  intros Hid Hop H1 H2 D1 D2.
  set (t := current_table (db w)).
  set (t' := snd (table_insert (encrypted e1) (iv e1) (encrypted e2) (iv e2)
                    (or_else (createdAt note) (now w)) (now w) t)).
  exists (next_rowid t), (with_table t' (set_crypto c2 w)).
  split; [|split].
  - rewrite (saveNote_run note w e1 c1 e2 c2 Hop H1 H2), Hid. reflexivity.
  - intros r Hr. apply next_rowid_fresh. exact Hr.
  - destruct (with_table_db t' (set_crypto c2 w) Hop) as [Hd Ht].
    assert (Hop' : operational (db (with_table t' (set_crypto c2 w))))
      by (eapply operational_open; eassumption).
    rewrite (getNote_run _ _ Hop'). unfold current_table at 1. rewrite Ht. simpl default.
    change (next_rowid t)
      with (fst (table_insert (encrypted e1) (iv e1) (encrypted e2) (iv e2)
                   (or_else (createdAt note) (now w)) (now w) t)) at 1.
    unfold t'. rewrite select_inserted. fold t'.
    rewrite (set_db_opened _ Hd). unfold bind.
    erewrite decryptNote_succeeds; [| exact D1 | exact D2].
    reflexivity.
Qed.

End SaveAndRead.

(** With neither native function, the second revision decrypts, in
    any state holding the key [encrypt] left, the Latin-1 text it
    encrypted. *)
Lemma fallback_decrypts_latin1 (Aes : option RNAes) data w e w1 w2 :
  EncryptionService2.native_function Aes RNAes_encrypt = None ->
  EncryptionService2.native_function Aes RNAes_decrypt = None ->
  Forall is_byte data ->
  EncryptionService2.encrypt Aes data w = (Ok e, w1) ->
  stored_key w2 = stored_key w1 ->
  EncryptionService2.decrypt Aes (encrypted e) (iv e) w2 = (Ok data, w2).
Proof.
  intros Hne Hnd Hdata Henc Hsame.
  pose proof (encrypt_iv_hex Aes data w e w1 Henc) as (Hlen & _ & _).
  destruct (fallback_encrypt_run Aes Hne data w e w1 Henc) as [Hc [k Hk]].
  rewrite <- Hsame in Hk.
  assert (Hiv : iv e <> []) by (intros E; rewrite E in Hlen; discriminate).
  rewrite (decrypt_valid_iv Aes _ _ w2 k w2 (getEncryptionKey2_stored _ _ _ Hk) Hiv Hlen).
  rewrite Hnd.
  destruct (simpleFallback_inverse data Hdata) as (c & Hc' & _ & _ & Hrt).
  rewrite Hc in Hc'. injection Hc' as <-. rewrite Hrt. reflexivity.
Qed.

(** Claim C2, as amended. For every note without an id, on a database
    that can serve the request and with both fields encrypting,
    [saveNote] returns an id [n] larger than every id in the table, and
    [getNote n] in the state it leaves returns the note with id [n],
    the title and the content given, [updatedAt] the clock reading of
    the insert and [createdAt] the value of [note.createdAt || now]:
    the [createdAt] the note carries when it is not zero, the clock
    reading otherwise, so that both timestamps are equal for a note
    that carries none. This holds whenever the encryption service
    linked obeys [EncryptionLaws] (first part), and for the second
    revision with neither native function when title and content are
    Latin-1 text (second part). *)
Theorem saveNote_getNote_round_trip :
  (forall (ES : EncryptionService.API) stored decrypt_with,
     EncryptionLaws ES stored decrypt_with ->
     forall note w e1 c1 e2 c2,
       id note = None ->
       operational (db w) ->
       EncryptionService.encrypt (title note) (crypto w) = (Ok e1, c1) ->
       EncryptionService.encrypt (content note) c1 = (Ok e2, c2) ->
       exists n w',
         DatabaseService.saveNote note w = (Ok n, w')
         /\ (forall r, r ∈ rows (current_table (db w)) -> col_id r < n)
         /\ DatabaseService.getNote n w' =
              (Ok (Some {| id := Some n; title := title note; content := content note;
                           createdAt := Some (DatabaseService.or_else (createdAt note) (now w));
                           updatedAt := Some (now w) |}), w')
         /\ (createdAt note = None ->
             DatabaseService.or_else (createdAt note) (now w) = now w))
  /\ (forall Aes : option RNAes,
        EncryptionService2.native_function Aes RNAes_encrypt = None ->
        EncryptionService2.native_function Aes RNAes_decrypt = None ->
        forall note w e1 c1 e2 c2,
          Forall is_byte (title note) ->
          Forall is_byte (content note) ->
          id note = None ->
          operational (db w) ->
          EncryptionService2.encrypt Aes (title note) (crypto w) = (Ok e1, c1) ->
          EncryptionService2.encrypt Aes (content note) c1 = (Ok e2, c2) ->
          exists n w',
            @DatabaseService.saveNote (service2 Aes) note w = (Ok n, w')
            /\ (forall r, r ∈ rows (current_table (db w)) -> col_id r < n)
            /\ @DatabaseService.getNote (service2 Aes) n w' =
                 (Ok (Some {| id := Some n; title := title note; content := content note;
                              createdAt :=
                                Some (DatabaseService.or_else (createdAt note) (now w));
                              updatedAt := Some (now w) |}), w')
            /\ (createdAt note = None ->
                DatabaseService.or_else (createdAt note) (now w) = now w)).
Proof.
  split.
  - intros ES stored decrypt_with laws note w e1 c1 e2 c2 Hid Hop H1 H2.
    destruct (encrypt_decrypts _ _ _ laws _ _ _ _ H1) as (k1 & Hk1 & Hd1).
    destruct (encrypt_decrypts _ _ _ laws _ _ _ _ H2) as (k2 & Hk2 & Hd2).
    pose proof (encrypt_keeps_key _ _ _ laws _ _ _ _ _ Hk1 H2) as Hk12.
    assert (k2 = k1) by congruence. subst k2.
    destruct (saveNote_read_back note w e1 c1 e2 c2 Hid Hop H1 H2) as (n & w' & Hs & Hf & Hg).
    + rewrite (decrypt_stored _ _ _ laws _ _ _ _ Hk2), Hd1. reflexivity.
    + rewrite (decrypt_stored _ _ _ laws _ _ _ _ Hk2), Hd2. reflexivity.
    + exists n, w'. split; [exact Hs|]. split; [exact Hf|]. split; [exact Hg|].
      intros ->. reflexivity.
  - intros Aes Hne Hnd note w e1 c1 e2 c2 Ht Hc Hid Hop H1 H2.
    destruct (fallback_encrypt_run Aes Hne _ _ _ _ H1) as [_ [k Hk1]].
    pose proof (encrypt_keeps_key2 Aes _ _ _ _ _ Hk1 H2) as Hk2.
    destruct (@saveNote_read_back (service2 Aes) note w e1 c1 e2 c2 Hid Hop H1 H2)
      as (n & w' & Hs & Hf & Hg).
    + apply (fallback_decrypts_latin1 Aes _ _ _ _ _ Hne Hnd Ht H1). congruence.
    + apply (fallback_decrypts_latin1 Aes _ _ _ _ _ Hne Hnd Hc H2). reflexivity.
    + exists n, w'. split; [exact Hs|]. split; [exact Hf|]. split; [exact Hg|].
      intros ->. reflexivity.
Qed.

(** *** [encodeURIComponent] writes ASCII *)

Lemma percent_byte_bytes b : is_byte b -> Forall is_byte (percent_byte b).
Proof.
  intros Hb.
  pose proof (bytes_check1
                (fun b => forallb (fun c => (0 <=? c) && (c <? 256)) (percent_byte b))
                ltac:(vm_compute; reflexivity) b Hb) as H.
  cbv beta in H. rewrite forallb_forall in H.
  apply Forall_forall. intros c Hc. apply list_elem_of_In in Hc.
  apply H in Hc. unfold is_byte. lia.
Qed.

Lemma utf8_encode_bytes cp : 0 <= cp < 1114112 -> Forall is_byte (utf8_encode cp).
Proof.
  intros Hcp. unfold utf8_encode.
  pose proof (Z.mod_pos_bound cp 64 ltac:(lia)) as Hm.
  pose proof (Z.mod_pos_bound (cp / 64) 64 ltac:(lia)) as Hm1.
  pose proof (Z.mod_pos_bound (cp / 4096) 64 ltac:(lia)) as Hm2.
  assert (H64 : 0 <= cp / 64) by (apply Z.div_pos; lia).
  assert (H4096 : 0 <= cp / 4096) by (apply Z.div_pos; lia).
  assert (H262144 : 0 <= cp / 262144 < 5).
  { split; [apply Z.div_pos; lia | apply Z.div_lt_upper_bound; lia]. }
  destruct (cp <? 128) eqn:E1; [apply Z.ltb_lt in E1; repeat constructor; unfold is_byte; lia|].
  destruct (cp <? 2048) eqn:E2.
  { apply Z.ltb_lt in E2.
    assert (cp / 64 < 32) by (apply Z.div_lt_upper_bound; lia).
    repeat constructor; unfold is_byte; lia. }
  destruct (cp <? 65536) eqn:E3.
  { apply Z.ltb_lt in E3.
    assert (cp / 4096 < 16) by (apply Z.div_lt_upper_bound; lia).
    repeat constructor; unfold is_byte; lia. }
  repeat constructor; unfold is_byte; lia.
Qed.

Lemma uri_escape_bytes cp : 0 <= cp < 1114112 -> Forall is_byte (uri_escape cp).
Proof.
  intros Hcp. unfold uri_escape. destruct (uri_unreserved cp) eqn:E.
  - constructor; [|constructor]. unfold uri_unreserved in E. unfold is_byte. lia.
  - pose proof (utf8_encode_bytes cp Hcp) as Hb.
    induction Hb as [|b bs Hb _ IH]; [constructor|].
    cbn [map concat]. apply Forall_app. split; [apply percent_byte_bytes, Hb | exact IH].
Qed.

Lemma encodeURIComponent_bytes_upto n : forall s u,
  (length s <= n)%nat ->
  Forall code_unit s ->
  encodeURIComponent s = Ok u -> Forall is_byte u.
Proof.
  induction n as [|n IH]; intros s u Hlen Hs.
  - destruct s; [|simpl in Hlen; lia]. intros [= <-]. constructor.
  - destruct s as [|c rest]; [intros [= <-]; constructor|].
    apply Forall_cons in Hs. destruct Hs as [Hc Hrest].
    cbn [encodeURIComponent].
    destruct (is_low_surrogate c); [discriminate|].
    destruct (is_high_surrogate c) eqn:Ehi.
    + destruct rest as [|d rest']; [discriminate|].
      apply Forall_cons in Hrest. destruct Hrest as [Hd Hrest'].
      destruct (is_low_surrogate d) eqn:Elo; [|discriminate].
      destruct (encodeURIComponent rest') as [out|e] eqn:Eout; [|discriminate].
      intros [= <-]. apply Forall_app. split.
      * apply uri_escape_bytes. unfold is_high_surrogate in Ehi. unfold is_low_surrogate in Elo.
        lia.
      * apply (IH rest' out); [simpl in Hlen; lia | exact Hrest' | exact Eout].
    + destruct (encodeURIComponent rest) as [out|e] eqn:Eout; [|discriminate].
      intros [= <-]. apply Forall_app. split.
      * apply uri_escape_bytes. unfold code_unit in Hc. lia.
      * apply (IH rest out); [simpl in Hlen; lia | exact Hrest | exact Eout].
Qed.

Lemma encodeURIComponent_bytes s u :
  Forall code_unit s -> encodeURIComponent s = Ok u -> Forall is_byte u.
Proof. apply (encodeURIComponent_bytes_upto (length s)). lia. Qed.

Lemma xor_at_units (key : jsstring) (data : jsstring) : forall g : nat -> nat,
  Forall code_unit
    (imap (fun i c => String_fromCharCode (Z.lxor c (charCodeAt key (g i)))) data).
Proof.
  induction data as [|c data IH]; intros g; [constructor|].
  change (imap ?f (c :: data)) with (f 0%nat c :: imap (f ∘ S) data).
  constructor.
  - unfold String_fromCharCode, code_unit. apply Z.mod_pos_bound. lia.
  - apply (IH (fun i => g (S i))).
Qed.

Lemma xor_with_key_units key data :
  Forall code_unit (EncryptionService2.xor_with_key key data).
Proof. apply (xor_at_units key data (fun i => (i mod length key)%nat)). Qed.

Lemma units_bytes_or_wide (s : jsstring) :
  Forall code_unit s -> Forall is_byte s \/ Exists (fun u => 255 < u) s.
Proof.
  induction 1 as [|c s Hc _ [IH|IH]].
  - left. constructor.
  - destruct (Z_le_gt_dec c 255) as [Hle|Hgt].
    + left. constructor; [unfold code_unit, is_byte in *; lia | exact IH].
    + right. apply Exists_cons_hd. lia.
  - right. apply Exists_cons_tl. exact IH.
Qed.

Lemma btoa_wide (s : jsstring) :
  Exists (fun u => 255 < u) s -> btoa s = Err (JsError "InvalidCharacterError").
Proof.
  intros Hs. unfold btoa.
  assert (H : forallb (fun c => c <=? 255) s = false).
  { induction Hs as [c s Hc|c s _ IH]; cbn [forallb].
    - apply andb_false_iff. left. apply Z.leb_gt. exact Hc.
    - apply andb_false_iff. right. exact IH. }
  rewrite H. reflexivity.
Qed.

Lemma simpleFallbackEncrypt_wide (data : jsstring) :
  Exists (fun u => 255 < u) (EncryptionService2.xor_with_key (js "SecureNotesDevKey") data) ->
  EncryptionService2.simpleFallbackEncrypt data =
    match encodeURIComponent (EncryptionService2.xor_with_key (js "SecureNotesDevKey") data) with
    | Ok u => Ok (base64_encode u)
    | Err e => Err e
    end.
Proof.
  intros Hw. unfold EncryptionService2.simpleFallbackEncrypt. cbv zeta.
  rewrite (btoa_wide _ Hw).
  destruct (encodeURIComponent _) as [u|e] eqn:Eu; [|reflexivity].
  apply btoa_bytes. apply (encodeURIComponent_bytes _ _ (xor_with_key_units _ _) Eu).
Qed.

Lemma simpleFallbackEncrypt_narrow (data : jsstring) :
  Forall is_byte (EncryptionService2.xor_with_key (js "SecureNotesDevKey") data) ->
  EncryptionService2.simpleFallbackEncrypt data =
    Ok (base64_encode (EncryptionService2.xor_with_key (js "SecureNotesDevKey") data)).
Proof.
  intros Hx. unfold EncryptionService2.simpleFallbackEncrypt. cbv zeta.
  rewrite (btoa_bytes _ Hx). reflexivity.
Qed.

(** When [simpleFallbackEncrypt] throws. *)
Lemma simpleFallbackEncrypt_throws (data : jsstring) :
  (exists e, EncryptionService2.simpleFallbackEncrypt data = Err e)
  <-> Exists (fun u => 255 < u)
             (EncryptionService2.xor_with_key (js "SecureNotesDevKey") data)
      /\ exists e,
           encodeURIComponent (EncryptionService2.xor_with_key (js "SecureNotesDevKey") data)
           = Err e.
Proof.
  split.
  - intros [e He].
    destruct (units_bytes_or_wide _ (xor_with_key_units (js "SecureNotesDevKey") data))
      as [Hn|Hw].
    + rewrite (simpleFallbackEncrypt_narrow _ Hn) in He. discriminate.
    + split; [exact Hw|]. rewrite (simpleFallbackEncrypt_wide _ Hw) in He.
      destruct (encodeURIComponent _) as [u|x]; [discriminate|]. exists x. reflexivity.
  - intros [Hw [e He]]. exists e. rewrite (simpleFallbackEncrypt_wide _ Hw), He. reflexivity.
Qed.

(** Claim C8, as amended. In the second revision, once the key was
    obtained: [encrypt] draws a 16-byte IV and returns what the native
    [encrypt] returns when the native module has that function, and
    what [simpleFallbackEncrypt] returns when it has not; [decrypt],
    given a 32-character IV, returns what the native [decrypt]
    returns when there is one, and [simpleFallbackDecrypt] of the
    ciphertext, without failing, when there is none.
    [simpleFallbackEncrypt] XORs the data with the fixed key
    ["SecureNotesDevKey"]; the XORed text either has no code unit above
    255, as it has for Latin-1 data, and the result is its Base64 form,
    or has one, and the result is the Base64 form of its
    [encodeURIComponent]. So without a native [encrypt], [encrypt]
    throws [Error('Failed to encrypt data')] exactly when the XORed
    text has a code unit above 255 and [encodeURIComponent] throws on
    it, as it does on a lone surrogate. *)
Theorem cipher_fallback (Aes : option RNAes) data c i w k w1 :
  EncryptionService2.getEncryptionKey Aes w = (Ok k, w1) ->
  (exists ivBytes g,
     EncryptionService2.push_random_bytes 16 [] w1 = (Ok ivBytes, set_rng g w1)
     /\ EncryptionService2.encrypt Aes data w =
          (match match EncryptionService2.native_function Aes RNAes_encrypt with
                 | Some aes_encrypt =>
                     aes_encrypt data k (Array_join_empty ivBytes) (js "aes-256-cbc")
                 | None => EncryptionService2.simpleFallbackEncrypt data
                 end with
           | Ok e => Ok {| encrypted := e; iv := Array_join_empty ivBytes |}
           | Err _ => Err (JsError "Failed to encrypt data")
           end, set_rng g w1))
  /\ (i <> [] -> js_length i = 32 ->
      EncryptionService2.decrypt Aes c i w =
        (match EncryptionService2.native_function Aes RNAes_decrypt with
         | Some aes_decrypt =>
             match aes_decrypt c k i (js "aes-256-cbc") with
             | Ok text => Ok text
             | Err _ => Err (JsError "Failed to decrypt data")
             end
         | None => Ok (EncryptionService2.simpleFallbackDecrypt c)
         end, w1))
  /\ (Forall (fun u => 0 <= u < 256) data ->
      EncryptionService2.simpleFallbackEncrypt data =
        Ok (base64_encode (EncryptionService2.xor_with_key (js "SecureNotesDevKey") data)))
  /\ (Forall (fun u => 0 <= u < 256)
             (EncryptionService2.xor_with_key (js "SecureNotesDevKey") data)
      \/ Exists (fun u => 255 < u)
                (EncryptionService2.xor_with_key (js "SecureNotesDevKey") data))
  /\ (Forall (fun u => 0 <= u < 256)
             (EncryptionService2.xor_with_key (js "SecureNotesDevKey") data) ->
      EncryptionService2.simpleFallbackEncrypt data =
        Ok (base64_encode (EncryptionService2.xor_with_key (js "SecureNotesDevKey") data)))
  /\ (Exists (fun u => 255 < u)
             (EncryptionService2.xor_with_key (js "SecureNotesDevKey") data) ->
      EncryptionService2.simpleFallbackEncrypt data =
        match encodeURIComponent
                (EncryptionService2.xor_with_key (js "SecureNotesDevKey") data) with
        | Ok u => Ok (base64_encode u)
        | Err e => Err e
        end)
  /\ (EncryptionService2.native_function Aes RNAes_encrypt = None ->
      (fst (EncryptionService2.encrypt Aes data w) = Err (JsError "Failed to encrypt data")
       <-> Exists (fun u => 255 < u)
                  (EncryptionService2.xor_with_key (js "SecureNotesDevKey") data)
           /\ exists e,
                encodeURIComponent
                  (EncryptionService2.xor_with_key (js "SecureNotesDevKey") data) = Err e)).
Proof.
  intros Hk. split; [|split; [|split; [|split; [|split; [|split]]]]].
  - apply encrypt_run. exact Hk.
  - intros Hne Hlen. apply decrypt_valid_iv; assumption.
  - apply simpleFallbackEncrypt_bytes.
  - apply units_bytes_or_wide, xor_with_key_units.
  - apply simpleFallbackEncrypt_narrow.
  - apply simpleFallbackEncrypt_wide.
  - intros Hnone.
    destruct (encrypt_run Aes data w k w1 Hk) as (ivBytes & g & _ & Henc).
    rewrite Henc, Hnone. cbn [fst].
    rewrite <- simpleFallbackEncrypt_throws.
    destruct (EncryptionService2.simpleFallbackEncrypt data) as [e|x]; split.
    + discriminate.
    + intros [y Hy]. discriminate.
    + intros _. exists x. reflexivity.
    + intros _. reflexivity.
Qed.

(** *** The two statements on concrete runs *)

Lemma saveNote_getNote_round_trip_witness :
  (exists n w',
     @DatabaseService.saveNote Scenario.linked
         (Scenario.new_note Scenario.unicode_text []) ModelCipher.fresh_world = (Ok n, w')
     /\ (forall r, r ∈ rows (current_table (db ModelCipher.fresh_world)) -> col_id r < n)
     /\ @DatabaseService.getNote Scenario.linked n w' =
          (Ok (Some {| id := Some n; title := Scenario.unicode_text; content := [];
                       createdAt := Some 1000; updatedAt := Some 1000 |}), w'))
  /\ (exists n w',
        @DatabaseService.saveNote (service2 Scenario.no_native)
            (Scenario.new_note [233] (js "hi")) ModelCipher.fresh_world = (Ok n, w')
        /\ @DatabaseService.getNote (service2 Scenario.no_native) n w' =
             (Ok (Some {| id := Some n; title := [233]; content := js "hi";
                          createdAt := Some 1000; updatedAt := Some 1000 |}), w')).
Proof.
  split.
  - destruct (proj1 saveNote_getNote_round_trip
                Scenario.linked stored_key (@decrypt_with1 ModelCipher.lib) linked_laws
                (Scenario.new_note Scenario.unicode_text []) ModelCipher.fresh_world
                Scenario.first_encrypted (snd Scenario.first_encrypt)
                (match fst (@EncryptionService1.encrypt ModelCipher.lib []
                              (snd Scenario.first_encrypt)) with
                 | Ok e => e | Err _ => Scenario.first_encrypted end)
                (snd (@EncryptionService1.encrypt ModelCipher.lib []
                        (snd Scenario.first_encrypt)))
                eq_refl eq_refl ltac:(evaluated) ltac:(evaluated))
      as (n & w' & Hs & Hf & Hg & _).
    exists n, w'. split; [exact Hs|]. split; [exact Hf | exact Hg].
  - set (r1 := EncryptionService2.encrypt Scenario.no_native [233] ModelCipher.fresh_crypto).
    set (r2 := EncryptionService2.encrypt Scenario.no_native (js "hi") (snd r1)).
    destruct (proj2 saveNote_getNote_round_trip Scenario.no_native eq_refl eq_refl
                (Scenario.new_note [233] (js "hi")) ModelCipher.fresh_world
                (Scenario.value_of Session.no_cipher_text (fst r1)) (snd r1)
                (Scenario.value_of Session.no_cipher_text (fst r2)) (snd r2)
                ltac:(repeat constructor; unfold is_byte; lia)
                ltac:(repeat constructor; unfold is_byte; simpl; lia)
                eq_refl eq_refl ltac:(evaluated) ltac:(evaluated))
      as (n & w' & Hs & _ & Hg & _).
    exists n, w'. split; [exact Hs | exact Hg].
Defined.

Lemma cipher_fallback_witness :
  (exists ivBytes w2,
     EncryptionService2.encrypt Scenario.no_native (js "hi") ModelCipher.fresh_crypto =
       (Ok {| encrypted := js "Oww="; iv := Array_join_empty ivBytes |}, w2))
  /\ (fst (EncryptionService2.encrypt Scenario.no_native [55357] ModelCipher.fresh_crypto)
      = Err (JsError "Failed to encrypt data")
      <-> Exists (fun u => 255 < u)
                 (EncryptionService2.xor_with_key (js "SecureNotesDevKey") [55357])
          /\ exists e,
               encodeURIComponent
                 (EncryptionService2.xor_with_key (js "SecureNotesDevKey") [55357]) = Err e).
Proof.
  set (r := EncryptionService2.getEncryptionKey Scenario.no_native ModelCipher.fresh_crypto).
  split.
  - destruct (cipher_fallback Scenario.no_native (js "hi") [] [] ModelCipher.fresh_crypto
                (Scenario.value_of [] (fst r)) (snd r) ltac:(evaluated))
      as ((ivBytes & g & _ & Henc) & _).
    exists ivBytes, (set_rng g (snd r)). exact Henc.
  - destruct (cipher_fallback Scenario.no_native [55357] [] [] ModelCipher.fresh_crypto
                (Scenario.value_of [] (fst r)) (snd r) ltac:(evaluated))
      as (_ & _ & _ & _ & _ & _ & H).
    exact (H eq_refl).
Defined.

(** The second revision without its native module throws on a lone
    surrogate. *)
Example encrypt_fallback_lone_surrogate :
  EncryptionService2.simpleFallbackEncrypt [55357] = Err (JsError "URIError")
  /\ fst (EncryptionService2.encrypt Scenario.no_native [55357] ModelCipher.fresh_crypto)
     = Err (JsError "Failed to encrypt data").
Proof. split; evaluated. Qed.

Lemma saveNote_getNote_counterexample :
  (* a note without an id that carries a createdAt: the timestamps differ *)
  (fst (@DatabaseService.saveNote Scenario.linked
          {| id := None; title := js "A"; content := js "a";
             createdAt := Some 5; updatedAt := None |} ModelCipher.fresh_world) = Ok 1
   /\ fst (@DatabaseService.getNote Scenario.linked 1
             (snd (@DatabaseService.saveNote Scenario.linked
                     {| id := None; title := js "A"; content := js "a";
                        createdAt := Some 5; updatedAt := None |} ModelCipher.fresh_world)))
      = Ok (Some {| id := Some 1; title := js "A"; content := js "a";
                    createdAt := Some 5; updatedAt := Some 1000 |})
   /\ Some 5 <> Some 1000)
  (* the second revision without its native module: the title read
     back is not the title saved *)
  /\ (EncryptionService2.native_function Scenario.no_native RNAes_encrypt = None
      /\ fst (@DatabaseService.saveNote (service2 Scenario.no_native)
                (Scenario.new_note [8364] []) ModelCipher.fresh_world) = Ok 1
      /\ fst (@DatabaseService.getNote (service2 Scenario.no_native) 1
                (snd (@DatabaseService.saveNote (service2 Scenario.no_native)
                        (Scenario.new_note [8364] []) ModelCipher.fresh_world)))
         = Ok (Some {| id := Some 1; title := js "v QPJVk-2"; content := [];
                       createdAt := Some 1000; updatedAt := Some 1000 |})
      /\ js "v QPJVk-2" <> [8364]).
Proof.
  repeat (match goal with |- _ /\ _ => split end);
    first [evaluated | discriminate].
Qed.
